(** * Nmap Executor node: a shallow embedding of [NmapExecutor.node.ts]

    The node builds an nmap command line from a scan-mode preset, runs it
    through [child_process.exec], retries once with [-Pn] when the target
    looks unreachable, optionally reduces the XML output to a summary and
    appends one JSON line per item to a history file.

    Modelling choices:
    - a JavaScript string is a [string] (code units below 256), a
      JavaScript value a [JSValue]; an object is the list of its
      properties in insertion order, each key once;
    - the only numbers stored in objects are array lengths, modelled by
      [Z]; the timeout, which is only multiplied and handed to [exec], is
      an IEEE-754 binary64 [spec_float];
    - code inside a [try] block runs in the error monad [Res];
    - the outside world ([exec], [xml2js], the clock and [fs]) is a record
      of oracles [Env] over an explicit [World], which logs the calls of
      [exec] and the chunks appended to the history file;
    - [exec] checks its [timeout] option itself, before any child process
      exists: that check, its exception and the timer it sets are in
      [Node], not in the oracle. *)

From Stdlib Require Import String Ascii List ZArith Bool Lia Arith.
From Stdlib Require Import Floats.SpecFloat.
From Stdlib Require DecimalString DecimalZ DecimalPos DecimalFacts.
Import ListNotations.
Local Open Scope string_scope.

(** ** JavaScript built-ins on strings *)

Module JSString.

(** [String.prototype.includes]. *)
Fixpoint includes (hay needle : string) : bool :=
  String.prefix needle hay ||
  match hay with
  | EmptyString => false
  | String _ rest => includes rest needle
  end.

(** [Array.prototype.join] on an array of strings. *)
Fixpoint join (sep : string) (l : list string) : string :=
  match l with
  | [] => ""
  | [x] => x
  | x :: rest => x ++ sep ++ join sep rest
  end.

(** Case folding of the [i] flag of a regular expression without the [u]
    flag: only the ASCII letters fold onto one another. *)
Definition fold_case (c : ascii) : ascii :=
  let n := nat_of_ascii c in
  if (65 <=? n)%nat && (n <=? 90)%nat then ascii_of_nat (n + 32) else c.

(** Characters that [.] does not match (the line terminators that fit
    in a code unit below 256). *)
Definition line_terminator (c : ascii) : bool :=
  (nat_of_ascii c =? 10)%nat || (nat_of_ascii c =? 13)%nat.

(** The literal [pat] (given in lower case) matches at the start of [s],
    case-insensitively. *)
Fixpoint imatch_here (pat s : string) : bool :=
  match pat, s with
  | EmptyString, _ => true
  | String p pat', String c s' =>
      Ascii.eqb p (fold_case c) && imatch_here pat' s'
  | String _ _, EmptyString => false
  end.

(** [.*pat] matches at the start of [s]. *)
Fixpoint dotstar_then (pat s : string) : bool :=
  imatch_here pat s ||
  match s with
  | EmptyString => false
  | String c s' => negb (line_terminator c) && dotstar_then pat s'
  end.

Fixpoint drop (n : nat) (s : string) : string :=
  match n, s with
  | O, _ => s
  | S n', String _ s' => drop n' s'
  | S _, EmptyString => EmptyString
  end.

(** [s.match(/host.*down/i)] is not [null]. *)
Fixpoint match_host_down (s : string) : bool :=
  (imatch_here "host" s && dotstar_then "down" (drop 4 s)) ||
  match s with
  | EmptyString => false
  | String _ s' => match_host_down s'
  end.

End JSString.

(** ** JavaScript values *)

#[local] Set Warnings "-register-all".

Inductive JSValue : Type :=
| JUndefined
| JNull
| JBool (b : bool)
| JNum (n : Z)
| JStr (s : string)
| JArr (elems : list JSValue)
| JObj (props : list (string * JSValue)).

(** An [Error] instance, as far as the program observes it: through
    [String(e)]. *)
Record JSError := mkError { err_name : string; err_message : string }.

Module JS.

(** ToBoolean. *)
Definition truthy (v : JSValue) : bool :=
  match v with
  | JUndefined | JNull => false
  | JBool b => b
  | JNum n => negb (n =? 0)%Z
  | JStr s => negb (s =? "")
  | JArr _ | JObj _ => true
  end.

Definition nullish (v : JSValue) : bool :=
  match v with
  | JUndefined | JNull => true
  | _ => false
  end.

(** [typeof v === 'object'] and [typeof v === 'string']. *)
Definition typeof_object (v : JSValue) : bool :=
  match v with
  | JNull | JArr _ | JObj _ => true
  | _ => false
  end.

Definition typeof_string (v : JSValue) : bool :=
  match v with
  | JStr _ => true
  | _ => false
  end.

Definition isArray (v : JSValue) : bool :=
  match v with
  | JArr _ => true
  | _ => false
  end.

(** [a || b]. *)
Definition or_else (a b : JSValue) : JSValue :=
  if truthy a then a else b.

Fixpoint lookup (k : string) (props : list (string * JSValue)) : JSValue :=
  match props with
  | [] => JUndefined
  | (k', v) :: rest => if k' =? k then v else lookup k rest
  end.

(** Property read [v.k] on a value that is not nullish, for the
    identifier keys the program uses: own properties of objects and
    [length]; anything else reads [undefined]. *)
Definition get (k : string) (v : JSValue) : JSValue :=
  match v with
  | JObj props => lookup k props
  | JArr l => if k =? "length" then JNum (Z.of_nat (List.length l)) else JUndefined
  | JStr s => if k =? "length" then JNum (Z.of_nat (String.length s)) else JUndefined
  | _ => JUndefined
  end.

(** Property write on an object literal: an existing key keeps its place. *)
Fixpoint assign (k : string) (v : JSValue) (props : list (string * JSValue))
  : list (string * JSValue) :=
  match props with
  | [] => [(k, v)]
  | (k', v') :: rest =>
      if k' =? k then (k, v) :: rest else (k', v') :: assign k v rest
  end.

(** [obj.k = v]. *)
Definition set (k : string) (v : JSValue) (obj : JSValue) : JSValue :=
  match obj with
  | JObj props => JObj (assign k v props)
  | _ => obj
  end.

(** Own enumerable properties copied by a spread [...v] inside an
    object literal (the program only spreads objects). *)
Definition own_props (v : JSValue) : list (string * JSValue) :=
  match v with
  | JObj props => props
  | _ => []
  end.

(** An object literal given as the sequence of its properties and
    spreads, in source order. *)
Definition literal (entries : list (string * JSValue)) : JSValue :=
  JObj (fold_left (fun acc kv => assign (fst kv) (snd kv) acc) entries []).

(** [v === 'lit']. *)
Definition strict_eq_str (v : JSValue) (lit : string) : bool :=
  match v with
  | JStr s => s =? lit
  | _ => false
  end.

(** [Error.prototype.toString], which is what [String(e)] calls. *)
Definition String_of_error (e : JSError) : string :=
  if err_name e =? "" then err_message e
  else if err_message e =? "" then err_name e
  else err_name e ++ ": " ++ err_message e.

(** The [TypeError] of a property read on [undefined] or [null]. *)
Definition read_error (base : JSValue) (k : string) : JSError :=
  mkError "TypeError"
    ("Cannot read properties of " ++
     match base with JNull => "null" | _ => "undefined" end ++
     " (reading '" ++ k ++ "')").

(** [v.k], which throws on a nullish [v]. *)
Definition member (v : JSValue) (k : string) : JSError + JSValue :=
  if nullish v then inl (read_error v k) else inr (get k v).

End JS.

(** ** Flag derivation and command construction (lines 146-163) *)

(** The node parameters of one input item, as [getNodeParameter] returns
    them.  [timeoutParam] is the parameter after [Number(...)]. *)
Record Item := mkItem {
  target : string;
  scanMode : string;
  smartResult : bool;
  saveHistory : bool;
  outputFormat : string;
  timeoutParam : spec_float;
  nmapPathParam : string;
  flagsParam : string;
  nseScripts : list string
}.

Definition derive_flags (it : Item) : string :=
  if scanMode it =? "fast" then "-T4 -F"
  else if scanMode it =? "full" then "-T4 -p1-65535"
  else if scanMode it =? "version" then "-sV"
  else if scanMode it =? "os" then "-O"
  else if scanMode it =? "custom" then flagsParam it
  else if scanMode it =? "nse" then
    match nseScripts it with
    | [] => ""
    | _ => "--script " ++ JSString.join "," (nseScripts it)
    end
  else "".

Definition format_flag (it : Item) : string :=
  if outputFormat it =? "xml" then "-oX -"
  else if outputFormat it =? "grep" then "-oG -"
  else "".

(** [getNodeParameter('nmapPath', i) as string || 'nmap']. *)
Definition nmapPath (it : Item) : string :=
  if nmapPathParam it =? "" then "nmap" else nmapPathParam it.

Definition quote : string := String (ascii_of_nat 34) EmptyString.

(** The template [`"${nmapPath}" ${flags} ${formatFlag} "${target}"`]. *)
Definition command_line (path flags fmt tgt : string) : string :=
  quote ++ path ++ quote ++ " " ++ flags ++ " " ++ fmt ++ " " ++ quote ++ tgt ++ quote.

Definition cmd (it : Item) : string :=
  command_line (nmapPath it) (derive_flags it) (format_flag it) (target it).

Definition resilientFlags (it : Item) : string := derive_flags it ++ " -Pn".

Definition resilientCmd (it : Item) : string :=
  command_line (nmapPath it) (resilientFlags it) (format_flag it) (target it).

(** ** The error monad of code inside a [try] block *)

Definition Res (A : Type) : Type := (JSError + A)%type.

Definition ret {A} (a : A) : Res A := inr a.

Definition bind {A B} (m : Res A) (f : A -> Res B) : Res B :=
  match m with
  | inl e => inl e
  | inr a => f a
  end.

Notation "x <- m ;; k" := (bind m (fun x => k))
  (at level 61, m at next level, right associativity).

(** [Array.prototype.map] / a [for ... of] loop whose body may throw: the
    elements are visited in order and the first exception ends the loop. *)
Fixpoint mapM {A B} (f : A -> Res B) (l : list A) : Res (list B) :=
  match l with
  | [] => ret []
  | a :: rest => b <- f a ;; bs <- mapM f rest ;; ret (b :: bs)
  end.

(** [Array.prototype.filter] with a callback that may throw. *)
Fixpoint filterM {A} (f : A -> Res bool) (l : list A) : Res (list A) :=
  match l with
  | [] => ret []
  | a :: rest =>
      keep <- f a ;; kept <- filterM f rest ;;
      ret (if keep then a :: kept else kept)
  end.

(** ** Summary extraction: [makeSummary] (lines 277-321) *)

(** [v?.k1.k2]: the whole chain is skipped when [v] is nullish. *)
Definition optional_chain (v : JSValue) (k1 k2 : string) : Res JSValue :=
  if JS.nullish v then ret JUndefined
  else x <- JS.member v k1 ;; JS.member x k2.

(** [p.state.$.state === 'open'], the callback of [ports.filter]. *)
Definition port_is_open (p : JSValue) : Res bool :=
  st <- JS.member p "state" ;;
  attrs <- JS.member st "$" ;;
  s <- JS.member attrs "state" ;;
  ret (JS.strict_eq_str s "open").

(** [ports && ports.state?.$.state === 'open']. *)
Definition single_port_is_open (ports : JSValue) : Res bool :=
  if JS.truthy ports then
    st <- JS.member ports "state" ;;
    s <- optional_chain st "$" "state" ;;
    ret (JS.strict_eq_str s "open")
  else ret false.

(** [p.service?.$.k || '']. *)
Definition service_attr (p : JSValue) (k : string) : Res JSValue :=
  svc <- JS.member p "service" ;;
  a <- optional_chain svc "$" k ;;
  ret (JS.or_else a (JStr "")).

(** The callback of [openPorts.map]. *)
Definition port_entry (p : JSValue) : Res JSValue :=
  attrs <- JS.member p "$" ;;
  portid <- JS.member attrs "portid" ;;
  service <- service_attr p "name" ;;
  product <- service_attr p "product" ;;
  version <- service_attr p "version" ;;
  extra <- service_attr p "extrainfo" ;;
  ret (JObj [("port", portid); ("service", service); ("product", product);
             ("version", version); ("extra", extra)]).

(** The object pushed for script [s] of port [p]. *)
Definition script_entry (p s : JSValue) : Res JSValue :=
  attrs <- JS.member p "$" ;;
  portid <- JS.member attrs "portid" ;;
  sattrs <- JS.member s "$" ;;
  id <- JS.member sattrs "id" ;;
  sattrs' <- JS.member s "$" ;;
  output <- JS.member sattrs' "output" ;;
  ret (JObj [("port", portid); ("script", id); ("output", output)]).

(** One iteration of [for (const p of openPorts)]: the entries pushed. *)
Definition port_scripts (p : JSValue) : Res (list JSValue) :=
  script <- JS.member p "script" ;;
  if JS.truthy script then
    let scripts := match script with JArr l => l | _ => [script] end in
    mapM (script_entry p) scripts
  else ret [].

(** [parsed.nmaprun.host]. *)
Definition host_of (parsed : JSValue) : Res JSValue :=
  nmaprun <- JS.member parsed "nmaprun" ;;
  JS.member nmaprun "host".

(** [host.ports?.port]. *)
Definition ports_of (host : JSValue) : Res JSValue :=
  hports <- JS.member host "ports" ;;
  if JS.nullish hports then ret JUndefined else JS.member hports "port".

(** Lines 283-288: the value of [openPorts] once both branches are past. *)
Definition select_open (ports : JSValue) : Res (list JSValue) :=
  match ports with
  | JArr l => filterM port_is_open l
  | _ => isopen <- single_port_is_open ports ;;
         ret (if isopen then [ports] else [])
  end.

(** The body of the [try] block of [makeSummary]. *)
Definition makeSummary_try (parsed : JSValue) : Res JSValue :=
  host <- host_of parsed ;;
  hstatus <- JS.member host "status" ;;
  st <- optional_chain hstatus "$" "state" ;;
  let status := JS.or_else st (JStr "unknown") in
  haddress <- JS.member host "address" ;;
  ad <- optional_chain haddress "$" "addr" ;;
  let address := JS.or_else ad (JStr "unknown") in
  ports <- ports_of host ;;
  openPorts <- select_open ports ;;
  portList <- mapM port_entry openPorts ;;
  nseResults <- mapM port_scripts openPorts ;;
  ret (JObj [("address", address);
             ("status", status);
             ("openPorts", JArr portList);
             ("totalOpen", JNum (Z.of_nat (List.length openPorts)));
             ("vulns", JArr (List.concat nseResults))]).

(** The error marker [{ error: true, details: String(e) }]. *)
Definition error_marker (e : JSError) : JSValue :=
  JObj [("error", JBool true); ("details", JStr (JS.String_of_error e))].

Definition makeSummary (parsed : JSValue) : JSValue :=
  match makeSummary_try parsed with
  | inr summary => summary
  | inl e => error_marker e
  end.

(** ** [JSON.stringify] and [JSON.parse] *)

Module JSON.

(** *** [JSON.stringify] *)

Definition dquote : ascii := ascii_of_nat 34.
Definition backslash : ascii := ascii_of_nat 92.

Definition hex_digit (n : nat) : ascii :=
  if (n <? 10)%nat then ascii_of_nat (48 + n) else ascii_of_nat (87 + n).

(** One code unit inside QuoteJSONString. *)
Definition escape_char (c : ascii) : string :=
  let n := nat_of_ascii c in
  if (n =? 8)%nat then String backslash "b"
  else if (n =? 9)%nat then String backslash "t"
  else if (n =? 10)%nat then String backslash "n"
  else if (n =? 12)%nat then String backslash "f"
  else if (n =? 13)%nat then String backslash "r"
  else if (n =? 34)%nat then String backslash (String dquote "")
  else if (n =? 92)%nat then String backslash (String backslash "")
  else if (n <? 32)%nat then
    String backslash
      (String "u" (String "0" (String "0"
        (String (hex_digit (n / 16)) (String (hex_digit (n mod 16)) "")))))
  else String c "".

Fixpoint escape (s : string) : string :=
  match s with
  | EmptyString => EmptyString
  | String c s' => escape_char c ++ escape s'
  end.

Definition quote_string (s : string) : string :=
  String dquote (escape s ++ String dquote "").

(** Number::toString on an integer. *)
Definition number_to_string (n : Z) : string :=
  DecimalString.NilZero.string_of_int (Z.to_int n).

(** SerializeJSONProperty for a value that is not [undefined]; an
    [undefined] array element is written [null] and an [undefined]
    property is left out. *)
Fixpoint serialize (v : JSValue) : string :=
  match v with
  | JUndefined | JNull => "null"
  | JBool true => "true"
  | JBool false => "false"
  | JNum n => number_to_string n
  | JStr s => quote_string s
  | JArr l => "[" ++ JSString.join "," (List.map serialize l) ++ "]"
  | JObj props =>
      "{" ++
      JSString.join ","
        ((fix members (ps : list (string * JSValue)) : list string :=
            match ps with
            | [] => []
            | (k, JUndefined) :: rest => members rest
            | (k, v') :: rest =>
                (quote_string k ++ ":" ++ serialize v') :: members rest
            end) props) ++
      "}"
  end.

(** [JSON.stringify(v)]; [None] stands for the result [undefined]. *)
Definition stringify (v : JSValue) : option string :=
  match v with
  | JUndefined => None
  | _ => Some (serialize v)
  end.

(** *** [JSON.parse] *)

(** JSON white space. *)
Definition is_ws (c : ascii) : bool :=
  let n := nat_of_ascii c in
  (n =? 32)%nat || (n =? 9)%nat || (n =? 10)%nat || (n =? 13)%nat.

Fixpoint skip_ws (s : string) : string :=
  match s with
  | String c s' => if is_ws c then skip_ws s' else s
  | EmptyString => s
  end.

Definition hex_value (c : ascii) : option nat :=
  let n := nat_of_ascii c in
  if (48 <=? n)%nat && (n <=? 57)%nat then Some (n - 48)%nat
  else if (97 <=? n)%nat && (n <=? 102)%nat then Some (n - 87)%nat
  else if (65 <=? n)%nat && (n <=? 70)%nat then Some (n - 55)%nat
  else None.

Definition cons_char (c : ascii) (r : option (string * string))
  : option (string * string) :=
  match r with
  | Some (t, rest) => Some (String c t, rest)
  | None => None
  end.

(** The characters of a string literal after its opening quote, up to
    and including the closing quote.  A [\u] escape above 255 is outside
    the model. *)
Fixpoint parse_chars (s : string) : option (string * string) :=
  match s with
  | EmptyString => None
  | String c s' =>
      let n := nat_of_ascii c in
      if (n =? 34)%nat then Some (EmptyString, s')
      else if (n =? 92)%nat then
        match s' with
        | EmptyString => None
        | String e s'' =>
            let m := nat_of_ascii e in
            if (m =? 34)%nat then cons_char (ascii_of_nat 34) (parse_chars s'')
            else if (m =? 92)%nat then cons_char (ascii_of_nat 92) (parse_chars s'')
            else if (m =? 47)%nat then cons_char (ascii_of_nat 47) (parse_chars s'')
            else if (m =? 98)%nat then cons_char (ascii_of_nat 8) (parse_chars s'')
            else if (m =? 102)%nat then cons_char (ascii_of_nat 12) (parse_chars s'')
            else if (m =? 110)%nat then cons_char (ascii_of_nat 10) (parse_chars s'')
            else if (m =? 114)%nat then cons_char (ascii_of_nat 13) (parse_chars s'')
            else if (m =? 116)%nat then cons_char (ascii_of_nat 9) (parse_chars s'')
            else if (m =? 117)%nat then
              match s'' with
              | String h1 (String h2 (String h3 (String h4 s3))) =>
                  match hex_value h1, hex_value h2, hex_value h3, hex_value h4 with
                  | Some a, Some b, Some c', Some d =>
                      let v := (((a * 16 + b) * 16 + c') * 16 + d)%nat in
                      if (v <? 256)%nat
                      then cons_char (ascii_of_nat v) (parse_chars s3)
                      else None
                  | _, _, _, _ => None
                  end
              | _ => None
              end
            else None
        end
      else if (n <? 32)%nat then None
      else cons_char c (parse_chars s')
  end.

Definition is_digit (c : ascii) : bool :=
  let n := nat_of_ascii c in (48 <=? n)%nat && (n <=? 57)%nat.

Fixpoint span_digits (s : string) : string * string :=
  match s with
  | String c s' =>
      if is_digit c
      then let (d, r) := span_digits s' in (String c d, r)
      else (EmptyString, s)
  | EmptyString => (EmptyString, EmptyString)
  end.

(** What follows the integer part of a number with a fraction or an
    exponent. *)
Definition starts_fraction (s : string) : bool :=
  match s with
  | String c _ =>
      let n := nat_of_ascii c in
      (n =? 46)%nat || (n =? 101)%nat || (n =? 69)%nat
  | EmptyString => false
  end.

(** An integer literal; a literal with a fraction or an exponent is
    outside the model. *)
Definition parse_number (s : string) : option (JSValue * string) :=
  let '(negative, s1) :=
    match s with
    | String c r => if (nat_of_ascii c =? 45)%nat then (true, r) else (false, s)
    | EmptyString => (false, s)
    end in
  let '(digits, rest) := span_digits s1 in
  match digits with
  | EmptyString => None
  | String d ds =>
      if (nat_of_ascii d =? 48)%nat && negb (ds =? "") then None
      else if starts_fraction rest then None
      else
        match DecimalString.NilEmpty.uint_of_string digits with
        | Some u =>
            Some (JNum (if negative then Z.opp (Z.of_uint u) else Z.of_uint u), rest)
        | None => None
        end
  end.

Fixpoint strip_prefix (p s : string) : option string :=
  match p, s with
  | EmptyString, _ => Some s
  | String a p', String b s' => if Ascii.eqb a b then strip_prefix p' s' else None
  | String _ _, EmptyString => None
  end.

Definition literal (word : string) (v : JSValue) (s : string)
  : option (JSValue * string) :=
  match strip_prefix word s with
  | Some rest => Some (v, rest)
  | None => None
  end.

(** JSON value, then the elements of an array after [[], then the
    members of an object after [{]. *)
Fixpoint parse_value (fuel : nat) (s : string) : option (JSValue * string) :=
  match fuel with
  | O => None
  | S fuel' =>
      match skip_ws s with
      | EmptyString => None
      | String c rest =>
          let n := nat_of_ascii c in
          if (n =? 34)%nat then
            match parse_chars rest with
            | Some (t, r) => Some (JStr t, r)
            | None => None
            end
          else if (n =? 91)%nat then
            match skip_ws rest with
            | String c' r' =>
                if (nat_of_ascii c' =? 93)%nat then Some (JArr [], r')
                else
                  match parse_elements fuel' rest with
                  | Some (l, r) => Some (JArr l, r)
                  | None => None
                  end
            | EmptyString => None
            end
          else if (n =? 123)%nat then
            match skip_ws rest with
            | String c' r' =>
                if (nat_of_ascii c' =? 125)%nat then Some (JObj [], r')
                else
                  match parse_members fuel' rest with
                  | Some (ps, r) => Some (JS.literal ps, r)
                  | None => None
                  end
            | EmptyString => None
            end
          else if (n =? 110)%nat then literal "null" JNull (String c rest)
          else if (n =? 116)%nat then literal "true" (JBool true) (String c rest)
          else if (n =? 102)%nat then literal "false" (JBool false) (String c rest)
          else parse_number (String c rest)
      end
  end
with parse_elements (fuel : nat) (s : string) : option (list JSValue * string) :=
  match fuel with
  | O => None
  | S fuel' =>
      match parse_value fuel' s with
      | Some (v, r) =>
          match skip_ws r with
          | String c r' =>
              if (nat_of_ascii c =? 44)%nat then
                match parse_elements fuel' r' with
                | Some (l, r'') => Some (v :: l, r'')
                | None => None
                end
              else if (nat_of_ascii c =? 93)%nat then Some ([v], r')
              else None
          | EmptyString => None
          end
      | None => None
      end
  end
with parse_members (fuel : nat) (s : string)
  : option (list (string * JSValue) * string) :=
  match fuel with
  | O => None
  | S fuel' =>
      match skip_ws s with
      | String q s1 =>
          if (nat_of_ascii q =? 34)%nat then
            match parse_chars s1 with
            | Some (k, s2) =>
                match skip_ws s2 with
                | String colon s3 =>
                    if (nat_of_ascii colon =? 58)%nat then
                      match parse_value fuel' s3 with
                      | Some (v, r) =>
                          match skip_ws r with
                          | String c r' =>
                              if (nat_of_ascii c =? 44)%nat then
                                match parse_members fuel' r' with
                                | Some (ps, r'') => Some ((k, v) :: ps, r'')
                                | None => None
                                end
                              else if (nat_of_ascii c =? 125)%nat
                              then Some ([(k, v)], r')
                              else None
                          | EmptyString => None
                          end
                      | None => None
                      end
                    else None
                | EmptyString => None
                end
            | None => None
            end
          else None
      | EmptyString => None
      end
  end.

(** [JSON.parse]: one value, then nothing but white space. *)
Definition parse (s : string) : option JSValue :=
  match parse_value (S (String.length s)) s with
  | Some (v, rest) =>
      match skip_ws rest with
      | EmptyString => Some v
      | _ => None
      end
  | None => None
  end.

End JSON.

(** ** The outside world *)

(** What [exec] hands to its callback: [error] ([None] for [null],
    otherwise its [message]), [stdout] and [stderr]. *)
Record ExecReply := mkReply {
  exec_error : option string;
  exec_stdout : string;
  exec_stderr : string
}.

(** The observable state: the calls of [exec] so far, each with its
    command and the [timeout] option it was given (a call that [exec]
    refuses is a call all the same, see [spawned]), and the chunks
    appended to [nmap-history.jsonl]. *)
Record World := mkWorld {
  calls : list (string * spec_float);
  history : list string
}.

(** The collaborators of the node.  Each may depend on everything that
    happened before.  [exec] is the child process and the callback it
    leads to; it is consulted only for a call that spawns one. *)
Record Env := mkEnv {
  exec : World -> string -> spec_float -> ExecReply;
  parseStringPromise : string -> JSError + JSValue;
  toISOString : World -> string;
  appendFileSync : World -> string -> option JSError
}.

(** ** The per-item pipeline of [execute] (lines 137-270) *)

Definition binary64_of_Z (z : Z) : spec_float :=
  binary_normalize 53 1024 z 0 false.

(** [Number(getNodeParameter('timeout', i)) || 60]. *)
Definition timeout (it : Item) : spec_float :=
  match timeoutParam it with
  | S754_zero _ | S754_nan => binary64_of_Z 60
  | v => v
  end.

(** [timeout * 1000], the [timeout] option of [exec]. *)
Definition exec_timeout (it : Item) : spec_float :=
  SFmul 53 1024 (timeout it) (binary64_of_Z 1000).

(** What [child_process.exec] does with its [timeout] option, before and
    after it spawns the child. *)
Module Node.

(** [Number.isInteger(v)]. *)
Definition isInteger (v : spec_float) : bool :=
  match v with
  | S754_zero _ => true
  | S754_finite _ m e => (0 <=? e)%Z || (Z.pos m mod 2 ^ (- e) =? 0)%Z
  | S754_infinity _ | S754_nan => false
  end.

(** [v >= 0]. *)
Definition nonnegative (v : spec_float) : bool :=
  match v with
  | S754_zero _ => true
  | S754_infinity s | S754_finite s _ _ => negb s
  | S754_nan => false
  end.

(** [validateTimeout]: the option is accepted when it is an unsigned
    integer; on any other number [exec] throws before it spawns
    anything. *)
Definition validateTimeout (timeout : spec_float) : bool :=
  isInteger timeout && nonnegative timeout.

(** The [RangeError] thrown then.  Its one enumerable property is
    [code]: [message] and [stack] are not enumerable and [name] is
    inherited, and the node reads none of them. *)
Definition ERR_OUT_OF_RANGE : JSValue :=
  JObj [("code", JStr "ERR_OUT_OF_RANGE")].

(** The integer an integral number holds. *)
Definition to_Z (v : spec_float) : Z :=
  match v with
  | S754_finite s m e =>
      if s then (- Z.shiftl (Z.pos m) e)%Z else Z.shiftl (Z.pos m) e
  | _ => 0%Z
  end.

(** The longest delay of a timer, in milliseconds. *)
Definition TIMEOUT_MAX : Z := (2 ^ 31 - 1)%Z.

(** The delay, in milliseconds, of the timer that kills the child:
    [exec] sets one when [timeout > 0], and [setTimeout] replaces a delay
    above [TIMEOUT_MAX] by 1. *)
Definition kill_delay (timeout : spec_float) : option Z :=
  let ms := to_Z timeout in
  if (0 <? ms)%Z
  then Some (if (ms <=? TIMEOUT_MAX)%Z then ms else 1%Z)
  else None.

End Node.

(** [runNmap]: [inl] is the value the promise rejects with, [inr] the
    value it resolves to.  An exception of [exec] inside the promise
    executor rejects the promise with the exception. *)
Definition runNmap (env : Env) (it : Item) (cmdToRun : string) (w : World)
  : (JSValue + JSValue) * World :=
  let w' := mkWorld (calls w ++ [(cmdToRun, exec_timeout it)]) (history w) in
  if Node.validateTimeout (exec_timeout it) then
    let reply := exec env w cmdToRun (exec_timeout it) in
    match exec_error reply with
    | Some message =>
        (inl (JObj [("error", JBool true);
                    ("message", JStr "Nmap execution failed");
                    ("details", JS.or_else (JStr (exec_stderr reply)) (JStr message));
                    ("cmd", JStr cmdToRun);
                    ("stdout", JStr (exec_stdout reply));
                    ("stderr", JStr (exec_stderr reply))]), w')
    | None =>
        (inr (JObj [("error", JBool false);
                    ("target", JStr (target it));
                    ("cmd", JStr cmdToRun);
                    ("output", JStr (exec_stdout reply));
                    ("format", JStr (outputFormat it));
                    ("flags", JStr (derive_flags it))]), w')
    end
  else (inl Node.ERR_OUT_OF_RANGE, w').

(** The host-unreachable patterns applied to a detail text. *)
Definition unreachable_text (details : string) : bool :=
  JSString.includes details "0 hosts up" ||
  JSString.includes details "Failed to resolve" ||
  JSString.match_host_down details.

(** [downMsg], as a truth value. *)
Definition downMsg (err : JSValue) : bool :=
  let details := JS.get "details" err in
  JS.truthy details && JS.typeof_string details &&
  match details with
  | JStr d => unreachable_text d
  | _ => false
  end.

Definition alreadyPn (it : Item) : bool :=
  JSString.includes (derive_flags it) "-Pn".

Definition resiliency_note (msg : string) (err : JSValue) : JSValue :=
  JObj [("triggered", JBool true); ("msg", JStr msg); ("firstError", err)].

(** [String(v)] for a value that is not an object. *)
Definition String_of_primitive (v : JSValue) : string :=
  match v with
  | JUndefined => "undefined"
  | JNull => "null"
  | JBool true => "true"
  | JBool false => "false"
  | JNum n => JSON.number_to_string n
  | JStr s => s
  | JArr _ | JObj _ => "[object Object]"
  end.

(** The [try]/[catch] around the scan (lines 192-230): the final
    [scanResult]. *)
Definition scan (env : Env) (it : Item) (w : World) : JSValue * World :=
  match runNmap env it (cmd it) w with
  | (inr result, w1) => (result, w1)
  | (inl err, w1) =>
      if downMsg err && negb (alreadyPn it) then
        match runNmap env it (resilientCmd it) w1 with
        | (inr result, w2) =>
            (JS.set "resiliency"
               (resiliency_note "First scan failed, retried with -Pn." err)
               result, w2)
        | (inl err2, w2) =>
            (JObj (JS.assign "resiliency"
                     (resiliency_note "Scan failed even after retrying with -Pn." err)
                     (if JS.typeof_object err2 then JS.own_props err2 else [])),
             w2)
        end
      else
        (if JS.typeof_object err then err
         else JObj [("error", JBool true); ("message", JStr (String_of_primitive err))],
         w1)
  end.

(** Lines 232-247: the pair [(parsed, summary)]. *)
Definition summarize (env : Env) (it : Item) (scanResult : JSValue)
  : JSValue * JSValue :=
  if smartResult it && negb (JS.truthy (JS.get "error" scanResult)) &&
     (outputFormat it =? "xml") && JS.typeof_string (JS.get "output" scanResult)
  then
    match JS.get "output" scanResult with
    | JStr output =>
        match parseStringPromise env output with
        | inr parsed => (parsed, makeSummary parsed)
        | inl e => (JNull, error_marker e)
        end
    | _ => (JNull, JNull)
    end
  else (JNull, JNull).

(** The object literal of lines 251-259. *)
Definition historyObj (timestamp : string) (it : Item)
           (scanResult summary : JSValue) : JSValue :=
  let base :=
    [("timestamp", JStr timestamp);
     ("target", JStr (target it));
     ("flags", JStr (derive_flags it));
     ("format", JStr (outputFormat it));
     ("summary", summary)] in
  let with_error :=
    if JS.truthy (JS.get "error" scanResult)
    then JS.assign "error" scanResult base else base in
  JObj (if JS.truthy (JS.get "resiliency" scanResult)
        then JS.assign "resiliency" (JS.get "resiliency" scanResult) with_error
        else with_error).

(** [JSON.stringify(historyObj) + '\n']. *)
Definition history_line (obj : JSValue) : string :=
  match JSON.stringify obj with
  | Some s => s
  | None => "undefined"
  end ++ String (ascii_of_nat 10) "".

(** Lines 250-261; [inl] is an exception thrown by [fs.appendFileSync],
    which nothing catches. *)
Definition save (env : Env) (it : Item) (scanResult summary : JSValue)
           (w : World) : Res unit * World :=
  if saveHistory it then
    let data := history_line (historyObj (toISOString env w) it scanResult summary) in
    match appendFileSync env w data with
    | Some e => (inl e, w)
    | None => (ret tt, mkWorld (calls w) (history w ++ [data]))
    end
  else (ret tt, w).

(** The [json] object pushed onto [outputs] (lines 263-269). *)
Definition emit (it : Item) (scanResult parsed summary : JSValue) : JSValue :=
  let with_parsed :=
    if smartResult it && JS.truthy parsed
    then JS.assign "parsed" parsed (JS.own_props scanResult)
    else JS.own_props scanResult in
  JObj (if smartResult it && JS.truthy summary
        then JS.assign "summary" summary with_parsed
        else with_parsed).

(** One iteration of the [for] loop. *)
Definition process_item (env : Env) (it : Item) (w : World)
  : Res JSValue * World :=
  let '(scanResult, w1) := scan env it w in
  let '(parsed, summary) := summarize env it scanResult in
  match save env it scanResult summary w1 with
  | (inl e, w2) => (inl e, w2)
  | (inr _, w2) => (ret (JObj [("json", emit it scanResult parsed summary)]), w2)
  end.

(** The loop of [execute]: an exception leaves the loop and the function;
    otherwise the outputs are returned. *)
Fixpoint execute_from (env : Env) (items : list Item) (outputs : list JSValue)
         (w : World) : Res (list JSValue) * World :=
  match items with
  | [] => (ret outputs, w)
  | it :: rest =>
      match process_item env it w with
      | (inl e, w') => (inl e, w')
      | (inr out, w') => execute_from env rest (outputs ++ [out]) w'
      end
  end.

Definition execute (env : Env) (items : list Item) (w : World)
  : Res (list (list JSValue)) * World :=
  match execute_from env items [] w with
  | (inl e, w') => (inl e, w')
  | (inr outputs, w') => (ret [outputs], w')
  end.

(** ** Definitions used to state the properties *)

(** *** Outcomes of the process runner *)

Definition is_object (v : JSValue) : bool :=
  match v with
  | JObj _ => true
  | _ => false
  end.

(** The payload of a settled [runNmap] promise, whichever way it settled. *)
Definition payload (r : JSValue + JSValue) : JSValue :=
  match r with
  | inl v => v
  | inr v => v
  end.

(** The number of times one scan invokes the process runner. *)
Definition attempts (env : Env) (it : Item) (w : World) : nat :=
  List.length (calls (snd (scan env it w))) - List.length (calls w).

(** The calls of [exec] that spawned a child process. *)
Definition spawned (log : list (string * spec_float))
  : list (string * spec_float) :=
  List.filter (fun c => Node.validateTimeout (snd c)) log.

(** The numbers that are falsy: 0, -0 and NaN. *)
Definition zero_or_nan (v : spec_float) : bool :=
  match v with
  | S754_zero _ | S754_nan => true
  | _ => false
  end.

(** *** Shapes of a summary *)

(** The own keys of an object, in order. *)
Definition keys (v : JSValue) : list string := List.map fst (JS.own_props v).

(** Equality of key lists. *)
Fixpoint same_keys (a b : list string) : bool :=
  match a, b with
  | [], [] => true
  | x :: a', y :: b' => (x =? y) && same_keys a' b'
  | _, _ => false
  end.

(** The two shapes a [summary] can have: the marker
    [{error: true, details}] and the object [makeSummary] returns from
    its [try] block. *)
Definition is_error_marker (v : JSValue) : bool :=
  same_keys (keys v) ["error"; "details"] &&
  match JS.get "error" v with JBool true => true | _ => false end &&
  JS.typeof_string (JS.get "details" v).

Definition is_scan_summary (v : JSValue) : bool :=
  same_keys (keys v) ["address"; "status"; "openPorts"; "totalOpen"; "vulns"] &&
  JS.isArray (JS.get "openPorts" v) &&
  match JS.get "totalOpen" v with JNum _ => true | _ => false end &&
  JS.isArray (JS.get "vulns" v).

(** One [bind] of the goal, by cases on its first computation. *)
Ltac step_bind :=
  match goal with
  | |- context [bind ?m _] =>
      let E := fresh "E" in
      destruct m eqn:E; cbn [bind]; try discriminate
  end.

(** *** Nmap documents as xml2js returns them *)

(** An element that carries attributes: xml2js gives it a [$] object. *)
Definition has_attributes (v : JSValue) : bool :=
  negb (JS.nullish v) && negb (JS.nullish (JS.get "$" v)).

(** A child element that is absent or carries attributes. *)
Definition optional_element (v : JSValue) : bool :=
  JS.nullish v || negb (JS.nullish (JS.get "$" v)).

(** A host element as nmap writes it. *)
Definition host_record (host : JSValue) : bool :=
  negb (JS.nullish host) &&
  optional_element (JS.get "status" host) &&
  optional_element (JS.get "address" host).

(** The script elements of a port element. *)
Definition scripts_of (p : JSValue) : list JSValue :=
  let script := JS.get "script" p in
  if JS.truthy script then
    match script with JArr l => l | _ => [script] end
  else [].

(** A port element as nmap writes it. *)
Definition port_record (p : JSValue) : bool :=
  has_attributes p &&
  optional_element (JS.get "service" p) &&
  forallb has_attributes (scripts_of p).

(** The port's [<state state="open"/>]. *)
Definition open_state (p : JSValue) : bool :=
  JS.strict_eq_str (JS.get "state" (JS.get "$" (JS.get "state" p))) "open".



(** *** Values through JSON *)

(** Nested induction on values. *)
Fixpoint JSValue_nested_ind (P : JSValue -> Prop)
    (Hundefined : P JUndefined) (Hnull : P JNull)
    (Hbool : forall b, P (JBool b)) (Hnum : forall n, P (JNum n))
    (Hstr : forall s, P (JStr s))
    (Harr : forall l, Forall P l -> P (JArr l))
    (Hobj : forall ps, Forall (fun kv => P (snd kv)) ps -> P (JObj ps))
    (v : JSValue) {struct v} : P v :=
  let rec := JSValue_nested_ind P Hundefined Hnull Hbool Hnum Hstr Harr Hobj in
  match v with
  | JUndefined => Hundefined
  | JNull => Hnull
  | JBool b => Hbool b
  | JNum n => Hnum n
  | JStr s => Hstr s
  | JArr l =>
      Harr l ((fix all (l : list JSValue) : Forall P l :=
                 match l with
                 | [] => Forall_nil P
                 | x :: l' => Forall_cons x (rec x) (all l')
                 end) l)
  | JObj ps =>
      Hobj ps ((fix all (ps : list (string * JSValue))
                  : Forall (fun kv => P (snd kv)) ps :=
                  match ps with
                  | [] => Forall_nil _
                  | kv :: ps' => Forall_cons kv (rec (snd kv)) (all ps')
                  end) ps)
  end.

(** A number literal ends where neither a digit nor a fraction or
    exponent follows. *)
Definition boundary (rest : string) : bool :=
  match rest with
  | EmptyString => true
  | String c _ => negb (JSON.is_digit c) && negb (JSON.starts_fraction rest)
  end.

(** Evaluates the character tests on literal characters. *)
Ltac eval_tests :=
  repeat match goal with
         | |- context [(nat_of_ascii ?c =? ?k)%nat] =>
             let b := eval vm_compute in (nat_of_ascii c =? k)%nat in
             change (nat_of_ascii c =? k)%nat with b
         end.

(** [v === undefined]. *)
Definition is_undefined (v : JSValue) : bool :=
  match v with
  | JUndefined => true
  | _ => false
  end.

(** The value [JSON.parse(JSON.stringify(v))] of a value that is not
    [undefined]: [undefined] properties are gone and [undefined] array
    elements are [null]. *)
Fixpoint json_value (v : JSValue) : JSValue :=
  match v with
  | JUndefined => JNull
  | JArr l => JArr (List.map json_value l)
  | JObj ps =>
      JObj ((fix props (ps : list (string * JSValue)) :=
               match ps with
               | [] => []
               | (k, JUndefined) :: rest => props rest
               | (k, v') :: rest => (k, json_value v') :: props rest
               end) ps)
  | _ => v
  end.

(** No [undefined] anywhere inside. *)
Fixpoint json_clean (v : JSValue) : bool :=
  match v with
  | JUndefined => false
  | JArr l => forallb json_clean l
  | JObj ps =>
      (fix all (ps : list (string * JSValue)) :=
         match ps with
         | [] => true
         | (_, v') :: rest => json_clean v' && all rest
         end) ps
  | _ => true
  end.

(** No string occurs twice. *)
Fixpoint distinct (l : list string) : bool :=
  match l with
  | [] => true
  | x :: rest => negb (existsb (String.eqb x) rest) && distinct rest
  end.

(** The representation invariant of objects: no key occurs twice. *)
Fixpoint unique_keys (v : JSValue) : bool :=
  match v with
  | JArr l => forallb unique_keys l
  | JObj ps =>
      distinct (List.map fst ps) &&
      (fix all (ps : list (string * JSValue)) :=
         match ps with
         | [] => true
         | (_, v') :: rest => unique_keys v' && all rest
         end) ps
  | _ => true
  end.

(** The number of values [JSON.parse] goes through. *)
Fixpoint weight (v : JSValue) : nat :=
  match v with
  | JArr l => S (list_sum (List.map (fun x => S (weight x)) l))
  | JObj ps =>
      S ((fix sum (ps : list (string * JSValue)) :=
            match ps with
            | [] => O
            | (_, JUndefined) :: rest => sum rest
            | (_, v') :: rest => S (weight v') + sum rest
            end) ps)
  | _ => 1
  end.

(** The properties [JSON.stringify] writes. *)
Definition defined_props (ps : list (string * JSValue))
  : list (string * JSValue) :=
  List.filter (fun kv => negb (is_undefined (snd kv))) ps.

(** The text of one property. *)
Definition member_text (kv : string * JSValue) : string :=
  JSON.quote_string (fst kv) ++ ":" ++ JSON.serialize (snd kv).

(** The characters a serialized value can start with. *)
Definition value_start (c : ascii) : bool :=
  let n := nat_of_ascii c in
  (n =? 34)%nat || (n =? 91)%nat || (n =? 123)%nat || (n =? 110)%nat ||
  (n =? 116)%nat || (n =? 102)%nat || (n =? 45)%nat || JSON.is_digit c.

(** [parse_value] reads the text of [v] back, whatever follows it. *)
Definition round_trips (v : JSValue) : Prop :=
  unique_keys v = true ->
  forall fuel rest,
    weight v <= fuel -> boundary rest = true ->
    JSON.parse_value fuel (JSON.serialize v ++ rest) = Some (json_value v, rest).

(** No line feed inside. *)
Fixpoint single_line (s : string) : bool :=
  match s with
  | EmptyString => true
  | String c rest => negb (nat_of_ascii c =? 10)%nat && single_line rest
  end.

(** What a property holding [v] reads as after the round trip. *)
Definition json_property (v : JSValue) : JSValue :=
  if is_undefined v then JUndefined else json_value v.

(** [unique_keys] as a proposition, for [Forall]. *)
Definition Unique (v : JSValue) : Prop := unique_keys v = true.

(** The next [bind] of the goal succeeded with [x]. *)
Ltac bind_as x E :=
  match goal with
  | |- context [bind ?m _] =>
      destruct m as [?|x] eqn:E; cbn [bind]; [discriminate|]
  end.

(** ** Concrete scenarios *)

Module Scenario.

(** One host with a single open port 80 that ran [http-title]. *)
Definition document : JSValue :=
  JObj [("nmaprun",
    JObj [("host",
      JObj [("status", JObj [("$", JObj [("state", JStr "up")])]);
            ("address", JObj [("$", JObj [("addr", JStr "45.33.32.156")])]);
            ("ports",
             JObj [("port",
               JObj [("$", JObj [("protocol", JStr "tcp"); ("portid", JStr "80")]);
                     ("state", JObj [("$", JObj [("state", JStr "open")])]);
                     ("service", JObj [("$", JObj [("name", JStr "http")])]);
                     ("script",
                      JObj [("$", JObj [("id", JStr "http-title");
                                        ("output", JStr "Go ahead and ScanMe!")])])])])])])].

Definition host : JSValue := JS.get "host" (JS.get "nmaprun" document).

(** The target answers only when host discovery is skipped. *)
Definition host_down : Env :=
  mkEnv
    (fun _ c _ =>
       if JSString.includes c "-Pn"
       then mkReply None "<nmaprun>...</nmaprun>" ""
       else mkReply (Some "Command failed") "" "Note: Host seems down.")
    (fun _ => inr document)
    (fun _ => "2025-01-01T00:00:00.000Z")
    (fun _ _ => None).

(** The same, with a history file that cannot be written. *)
Definition read_only : Env :=
  mkEnv (exec host_down) (parseStringPromise host_down) (toISOString host_down)
    (fun _ _ =>
       Some (mkError "Error" "EACCES: permission denied, open 'nmap-history.jsonl'")).

(** A host that is up with every port filtered: no [port] element. *)
Definition portless_document : JSValue :=
  JObj [("nmaprun",
    JObj [("host",
      JObj [("status", JObj [("$", JObj [("state", JStr "up")])]);
            ("address", JObj [("$", JObj [("addr", JStr "45.33.32.156")])]);
            ("ports",
             JObj [("extraports",
                    JObj [("$", JObj [("state", JStr "filtered");
                                      ("count", JStr "100")])])])])])].

Definition portless_host : JSValue :=
  JS.get "host" (JS.get "nmaprun" portless_document).

(** An open port element without a [portid] attribute, which the DTD of
    nmap requires: some other program wrote this. *)
Definition unnumbered_document : JSValue :=
  JObj [("nmaprun",
    JObj [("host",
      JObj [("status", JObj [("$", JObj [("state", JStr "up")])]);
            ("ports",
             JObj [("port",
               JObj [("$", JObj [("protocol", JStr "tcp")]);
                     ("state", JObj [("$", JObj [("state", JStr "open")])])])])])])].

(** What nmap prints for a host that does not answer: no [host]
    element, only the run statistics. *)
Definition down_document : JSValue :=
  JObj [("nmaprun",
    JObj [("$", JObj [("scanner", JStr "nmap"); ("args", JStr "nmap -T4 -F -oX - 10.0.0.9")]);
          ("runstats",
           JObj [("hosts",
                  JObj [("$", JObj [("up", JStr "0"); ("down", JStr "1");
                                    ("total", JStr "1")])])])])].

(** nmap exits with status 0 and reports the host as down. *)
Definition silent_host : Env :=
  mkEnv (fun _ _ _ => mkReply None "<nmaprun>...</nmaprun>" "")
        (fun _ => inr down_document)
        (fun _ => "2025-01-01T00:00:00.000Z")
        (fun _ _ => None).

Definition quick_xml : Item :=
  mkItem "scanme.nmap.org" "fast" true true "xml" (binary64_of_Z 30) "nmap" "" [].

(** The scan succeeds and its output is [unnumbered_document]. *)
Definition unnumbered_port : Env :=
  mkEnv (fun _ _ _ => mkReply None "<nmaprun>...</nmaprun>" "")
        (fun _ => inr unnumbered_document)
        (fun _ => "2025-01-01T00:00:00.000Z")
        (fun _ _ => None).

(** Scenario A of the specification: a quick scan with text output. *)
Definition quick_text : Item :=
  mkItem "scanme.nmap.org" "fast" true false "text" (binary64_of_Z 60) "nmap" "" [].

(** nmap runs and prints its report. *)
Definition answering : Env :=
  mkEnv (fun _ _ _ => mkReply None "Nmap scan report for scanme.nmap.org" "")
        (fun _ => inl (mkError "Error" "Non-whitespace before first tag."))
        (fun _ => "2025-01-01T00:00:00.000Z")
        (fun _ _ => None).

(** Scenario D: the first attempt fails for a reason that is not the
    host being unreachable. *)
Definition refusing : Env :=
  mkEnv (fun _ _ _ => mkReply (Some "Command failed") "" "connection refused")
        (parseStringPromise answering) (toISOString answering)
        (appendFileSync answering).

Definition start : World := mkWorld [] [].

Definition first_failure : JSValue :=
  payload (fst (runNmap host_down quick_xml (cmd quick_xml) start)).

Definition after_first : World :=
  snd (runNmap host_down quick_xml (cmd quick_xml) start).

Definition second_success : JSValue :=
  payload (fst (runNmap host_down quick_xml (resilientCmd quick_xml) after_first)).

Definition after_second : World :=
  snd (runNmap host_down quick_xml (resilientCmd quick_xml) after_first).

(** The [json] object of the result emitted for one item. *)
Definition emitted (env : Env) (it : Item) (w : World) : JSValue :=
  match fst (process_item env it w) with
  | inr out => JS.get "json" out
  | inl _ => JUndefined
  end.

End Scenario.

(** ** Further definitions used to state properties of the code *)

(** The document has a [host] that can be read: [parsed.nmaprun.host]
    is neither [undefined] nor [null]. *)
Definition has_host (parsed : JSValue) : bool :=
  match host_of parsed with
  | inr host => negb (JS.nullish host)
  | inl _ => false
  end.

(** A port element whose [state] child carries attributes. *)
Definition stated_port (p : JSValue) : bool :=
  port_record p && has_attributes (JS.get "state" p).

(** The [portid] attribute of a port element. *)
Definition portid_of (p : JSValue) : JSValue :=
  JS.get "portid" (JS.get "$" p).

(** The callback of [exec] (lines 169-187): the value it rejects the
    promise with ([inl]) or resolves it to ([inr]). *)
Definition settle (it : Item) (cmdToRun : string) (reply : ExecReply)
  : JSValue + JSValue :=
  match exec_error reply with
  | Some message =>
      inl (JObj [("error", JBool true);
                 ("message", JStr "Nmap execution failed");
                 ("details", JS.or_else (JStr (exec_stderr reply)) (JStr message));
                 ("cmd", JStr cmdToRun);
                 ("stdout", JStr (exec_stdout reply));
                 ("stderr", JStr (exec_stderr reply))])
  | None =>
      inr (JObj [("error", JBool false);
                 ("target", JStr (target it));
                 ("cmd", JStr cmdToRun);
                 ("output", JStr (exec_stdout reply));
                 ("format", JStr (outputFormat it));
                 ("flags", JStr (derive_flags it))])
  end.

(** Whether the callback got an [error]. *)
Definition failed (reply : ExecReply) : bool :=
  match exec_error reply with
  | Some _ => true
  | None => false
  end.

(** A chunk of the history file that is one line of JSON holding an
    object. *)
Definition json_line (chunk : string) : Prop :=
  exists text v,
    chunk = text ++ String (ascii_of_nat 10) "" /\
    single_line text = true /\
    JSON.parse chunk = Some v /\
    is_object v = true.

(** The same collaborators with another XML parser. *)
Definition with_parser (env : Env) (parser : string -> JSError + JSValue) : Env :=
  mkEnv (exec env) parser (toISOString env) (appendFileSync env).

(** The result of item [it] in a batch: the outcome of its command or
    of its retry command, or the exception of [exec]. *)
Definition result_of (it : Item) (out : JSValue) : Prop :=
  keys out = ["json"] /\
  if Node.validateTimeout (exec_timeout it)
  then JS.get "cmd" (JS.get "json" out) = JStr (cmd it) \/
       JS.get "cmd" (JS.get "json" out) = JStr (resilientCmd it)
  else JS.get "json" out = Node.ERR_OUT_OF_RANGE.


(** More documents and batches. *)
Module Fixture.

(** A scan of two hosts: xml2js returns the list of both. *)
Definition two_hosts : JSValue :=
  JObj [("nmaprun",
         JObj [("host", JArr [Scenario.host; Scenario.portless_host])])].

(** [<port protocol="tcp" portid=...><state state=.../></port>]. *)
Definition port_with (portid state : string) : JSValue :=
  JObj [("$", JObj [("protocol", JStr "tcp"); ("portid", JStr portid)]);
        ("state", JObj [("$", JObj [("state", JStr state)])])].

Definition three_ports : list JSValue :=
  [port_with "22" "open"; port_with "25" "filtered"; port_with "80" "open"].

(** A port element without a [state] child. *)
Definition stateless_port : JSValue :=
  JObj [("$", JObj [("protocol", JStr "tcp"); ("portid", JStr "443")])].

Definition host_with (ports : JSValue) : JSValue :=
  JObj [("status", JObj [("$", JObj [("state", JStr "up")])]);
        ("ports", JObj [("port", ports)])].

Definition document_with (ports : JSValue) : JSValue :=
  JObj [("nmaprun", JObj [("host", host_with ports)])].

(** The entries and findings of the summary of [Scenario.document]. *)
Definition entries : list JSValue :=
  match JS.get "openPorts" (makeSummary Scenario.document) with
  | JArr l => l
  | _ => []
  end.

Definition findings : list JSValue :=
  match JS.get "vulns" (makeSummary Scenario.document) with
  | JArr l => l
  | _ => []
  end.

(** An XML scan with smart results off. *)
Definition plain_xml : Item :=
  mkItem "scanme.nmap.org" "fast" false true "xml" (binary64_of_Z 30) "nmap" "" [].

(** A parser that rejects everything. *)
Definition no_parser (_ : string) : JSError + JSValue :=
  inl (mkError "Error" "Unexpected end").

Definition batch : list Item := [Scenario.quick_xml; Scenario.quick_text].



(** Timeout parameters of -5 seconds, of [2^-10] seconds (0.9765625
    milliseconds) and of 3000000 seconds. *)
Definition negative_timeout : Item :=
  mkItem "scanme.nmap.org" "fast" true true "text" (binary64_of_Z (-5)) "nmap" "" [].

Definition fractional_timeout : Item :=
  mkItem "scanme.nmap.org" "fast" true true "text"
    (S754_finite false 4503599627370496 (-62)) "nmap" "" [].

Definition long_timeout : Item :=
  mkItem "scanme.nmap.org" "fast" true true "text" (binary64_of_Z 3000000) "nmap" "" [].

End Fixture.

(** * Properties *)

(** ** The embedding on the scenarios of the specification *)

Example scenario_A_command :
  cmd Scenario.quick_text =
  String JSON.dquote "nmap" ++ String JSON.dquote " -T4 -F  " ++
  String JSON.dquote "scanme.nmap.org" ++ String JSON.dquote "".
Proof. reflexivity. Qed.

Example scenario_A_result :
  let out := Scenario.emitted Scenario.answering Scenario.quick_text Scenario.start in
  JS.get "error" out = JBool false /\
  JS.get "output" out = JStr "Nmap scan report for scanme.nmap.org" /\
  keys out = ["error"; "target"; "cmd"; "output"; "format"; "flags"].
Proof. repeat split. Qed.

Example scenario_C_retry :
  attempts Scenario.host_down Scenario.quick_xml Scenario.start = 2 /\
  JS.get "triggered"
    (JS.get "resiliency"
       (Scenario.emitted Scenario.host_down Scenario.quick_xml Scenario.start)) =
  JBool true.
Proof. split; reflexivity. Qed.

Example scenario_D_no_retry :
  attempts Scenario.refusing Scenario.quick_text Scenario.start = 1 /\
  keys (Scenario.emitted Scenario.refusing Scenario.quick_text Scenario.start) =
    ["error"; "message"; "details"; "cmd"; "stdout"; "stderr"].
Proof. split; reflexivity. Qed.

Example host_down_pattern :
  JSString.match_host_down "Note: Host seems down. If it is really up" = true /\
  JSString.match_host_down "HOST IS DOWN" = true /\
  JSString.match_host_down ("host" ++ String (ascii_of_nat 10) "down") = false /\
  JSString.match_host_down "download from host" = false.
Proof. repeat split. Qed.

Example timeout_values :
  exec_timeout (mkItem "t" "fast" true true "text" S754_nan "" "" []) =
    binary64_of_Z 60000 /\
  exec_timeout (mkItem "t" "fast" true true "text" (S754_zero true) "" "" []) =
    binary64_of_Z 60000 /\
  exec_timeout (mkItem "t" "fast" true true "text" (binary64_of_Z (-5)) "" "" []) =
    binary64_of_Z (-5000) /\
  exec_timeout (mkItem "t" "fast" true true "text" (S754_infinity false) "" "" []) =
    S754_infinity false.
Proof. repeat split. Qed.

Example timeout_validation :
  Node.validateTimeout (binary64_of_Z 60000) = true /\
  Node.validateTimeout (binary64_of_Z 0) = true /\
  Node.validateTimeout (binary64_of_Z (-5000)) = false /\
  Node.validateTimeout (S754_infinity false) = false /\
  Node.validateTimeout S754_nan = false /\
  Node.validateTimeout (S754_finite false 6755399441055744 (-52)) = false /\
  Node.kill_delay (binary64_of_Z 60000) = Some 60000%Z /\
  Node.kill_delay (binary64_of_Z 0) = None /\
  Node.kill_delay (binary64_of_Z 2147483647) = Some 2147483647%Z /\
  Node.kill_delay (binary64_of_Z 2147483648) = Some 1%Z.
Proof. repeat split. Qed.

Example parse_examples :
  JSON.parse "[1,-20,true,null,{}]" =
    Some (JArr [JNum 1; JNum (-20); JBool true; JNull; JObj []]) /\
  JSON.parse "01" = None /\
  JSON.parse "[1,]" = None /\
  JSON.stringify (JObj [("a", JUndefined); ("b", JArr [JUndefined])]) =
    Some ("{" ++ JSON.quote_string "b" ++ ":[null]}").
Proof. repeat split. Qed.

(** ** Strings *)

Lemma append_assoc (a b c : string) : (a ++ b) ++ c = a ++ (b ++ c).
Proof. induction a as [|x a IH]; simpl; [reflexivity | now rewrite IH]. Qed.

Lemma append_nil_r (a : string) : a ++ "" = a.
Proof. induction a as [|x a IH]; simpl; [reflexivity | now rewrite IH]. Qed.

Lemma prefix_append (n b : string) : String.prefix n (n ++ b) = true.
Proof.
  induction n as [|x n IH]; simpl.
  - now destruct b.
  - destruct (ascii_dec x x) as [_|ne]; [exact IH | now elim ne].
Qed.

Lemma includes_append (a n b : string) :
  JSString.includes (a ++ n ++ b) n = true.
Proof.
  induction a as [|x a IH].
  - change ("" ++ n ++ b) with (n ++ b).
    pose proof (prefix_append n b) as P.
    destruct (n ++ b); cbn [JSString.includes]; now rewrite P.
  - change (String x a ++ n ++ b) with (String x (a ++ n ++ b)).
    cbn [JSString.includes]. rewrite IH. apply orb_true_r.
Qed.

(** ** Objects *)

Lemma lookup_assign_same k v props :
  JS.lookup k (JS.assign k v props) = v.
Proof.
  induction props as [|[k' v'] rest IH]; simpl.
  - now rewrite String.eqb_refl.
  - destruct (k' =? k) eqn:E; simpl.
    + now rewrite String.eqb_refl.
    + now rewrite E.
Qed.

Lemma lookup_assign_other k k' v props :
  k <> k' -> JS.lookup k (JS.assign k' v props) = JS.lookup k props.
Proof.
  intros ne. induction props as [|[k0 v0] rest IH]; simpl.
  - destruct (k' =? k) eqn:E; [| reflexivity].
    apply String.eqb_eq in E. congruence.
  - destruct (k0 =? k') eqn:E; simpl.
    + apply String.eqb_eq in E. subst k0.
      destruct (k' =? k) eqn:E'; [| reflexivity].
      apply String.eqb_eq in E'. congruence.
    + now rewrite IH.
Qed.

(** ** The process runner *)

Lemma runNmap_world env it c w :
  snd (runNmap env it c w) =
  mkWorld (calls w ++ [(c, exec_timeout it)]) (history w).
Proof.
  unfold runNmap. destruct (Node.validateTimeout _); [|reflexivity].
  now destruct (exec_error _).
Qed.

Lemma runNmap_object env it c w :
  is_object (payload (fst (runNmap env it c w))) = true.
Proof.
  unfold runNmap. destruct (Node.validateTimeout _); [|reflexivity].
  now destruct (exec_error _).
Qed.

(** A rejection is the exception of [exec] or comes from its callback. *)
Lemma runNmap_rejected env it c w err w1 :
  runNmap env it c w = (inl err, w1) ->
  w1 = mkWorld (calls w ++ [(c, exec_timeout it)]) (history w) /\
  ((Node.validateTimeout (exec_timeout it) = false /\
    err = Node.ERR_OUT_OF_RANGE) \/
   (Node.validateTimeout (exec_timeout it) = true /\
    exists message,
      exec_error (exec env w c (exec_timeout it)) = Some message /\
      err = JObj [("error", JBool true);
                  ("message", JStr "Nmap execution failed");
                  ("details",
                   JS.or_else (JStr (exec_stderr (exec env w c (exec_timeout it))))
                              (JStr message));
                  ("cmd", JStr c);
                  ("stdout", JStr (exec_stdout (exec env w c (exec_timeout it))));
                  ("stderr", JStr (exec_stderr (exec env w c (exec_timeout it))))])).
Proof.
  unfold runNmap. destruct (Node.validateTimeout _).
  - destruct (exec_error _) as [m|]; intros H; inversion H.
    split; [reflexivity|]. right. split; [reflexivity|]. now exists m.
  - intros H; inversion H. split; [reflexivity|]. left. now split.
Qed.

Lemma runNmap_resolved env it c w result w1 :
  runNmap env it c w = (inr result, w1) ->
  result = JObj [("error", JBool false);
                 ("target", JStr (target it));
                 ("cmd", JStr c);
                 ("output", JStr (exec_stdout (exec env w c (exec_timeout it))));
                 ("format", JStr (outputFormat it));
                 ("flags", JStr (derive_flags it))] /\
  w1 = mkWorld (calls w ++ [(c, exec_timeout it)]) (history w).
Proof.
  unfold runNmap. destruct (Node.validateTimeout _); [|discriminate].
  destruct (exec_error _) as [m|]; intros H; inversion H.
  split; reflexivity.
Qed.

(** The detail text of a rejection by the callback is a string, and
    [downMsg] is exactly the pattern test on it; the exception of [exec]
    has no detail text. *)
Lemma rejected_details env it c w err w1 :
  runNmap env it c w = (inl err, w1) ->
  (Node.validateTimeout (exec_timeout it) = false /\
   err = Node.ERR_OUT_OF_RANGE /\ downMsg err = false) \/
  (Node.validateTimeout (exec_timeout it) = true /\
   exists d, JS.get "details" err = JStr d /\ downMsg err = unreachable_text d).
Proof.
  intros H.
  destruct (runNmap_rejected _ _ _ _ _ _ H)
    as (_ & [(Hv & ->)|(Hv & m & _ & ->)]).
  - left. now repeat split.
  - right. split; [exact Hv|].
    unfold downMsg. simpl. unfold JS.or_else. simpl.
    destruct (exec_stderr _) as [|a s] eqn:E; simpl.
    + exists m. split; [reflexivity|]. destruct m; reflexivity.
    + exists (String a s). split; reflexivity.
Qed.

(** [runNmap] is the callback of [exec] on its reply, unless [exec]
    throws. *)
Lemma runNmap_settle env it c w :
  runNmap env it c w =
  (if Node.validateTimeout (exec_timeout it)
   then settle it c (exec env w c (exec_timeout it))
   else inl Node.ERR_OUT_OF_RANGE,
   mkWorld (calls w ++ [(c, exec_timeout it)]) (history w)).
Proof.
  unfold runNmap, settle. destruct (Node.validateTimeout _); [|reflexivity].
  now destruct (exec_error (exec env w c (exec_timeout it))).
Qed.

Lemma settle_cmd it c reply :
  JS.get "cmd" (payload (settle it c reply)) = JStr c.
Proof. unfold settle. now destruct (exec_error reply). Qed.

(** A failure with a detail text comes from the callback. *)
Lemma downMsg_callback env it c w err w1 :
  runNmap env it c w = (inl err, w1) ->
  downMsg err = true ->
  Node.validateTimeout (exec_timeout it) = true.
Proof.
  intros H Hd.
  destruct (rejected_details _ _ _ _ _ _ H) as [(_ & _ & Hf)|(Hv & _)];
    [congruence | exact Hv].
Qed.

Lemma scan_unfold_rejected env it w err w1 :
  runNmap env it (cmd it) w = (inl err, w1) ->
  scan env it w =
  if downMsg err && negb (alreadyPn it) then
    (JS.set "resiliency"
       (resiliency_note
          (match fst (runNmap env it (resilientCmd it) w1) with
           | inr _ => "First scan failed, retried with -Pn."
           | inl _ => "Scan failed even after retrying with -Pn."
           end) err)
       (payload (fst (runNmap env it (resilientCmd it) w1))),
     snd (runNmap env it (resilientCmd it) w1))
  else (err, w1).
Proof.
  intros H. unfold scan. rewrite H.
  destruct (downMsg err && negb (alreadyPn it)).
  - pose proof (runNmap_object env it (resilientCmd it) w1) as Ho.
    destruct (runNmap env it (resilientCmd it) w1) as [[e2|r2] w2]; simpl in *.
    + destruct e2; try discriminate. reflexivity.
    + reflexivity.
  - pose proof (runNmap_object env it (cmd it) w) as Ho. rewrite H in Ho.
    cbn [fst payload] in Ho. now destruct err.
Qed.

Lemma attempts_rejected env it w err w1 :
  runNmap env it (cmd it) w = (inl err, w1) ->
  attempts env it w = if downMsg err && negb (alreadyPn it) then 2 else 1.
Proof.
  intros H. unfold attempts. rewrite (scan_unfold_rejected _ _ _ _ _ H).
  pose proof (runNmap_world env it (cmd it) w) as Hw. rewrite H in Hw.
  simpl in Hw. subst w1.
  destruct (downMsg err && negb (alreadyPn it)); simpl.
  - rewrite runNmap_world. simpl. rewrite !length_app. simpl. lia.
  - rewrite length_app. simpl. lia.
Qed.

(** ** Flag derivation *)

(** C3: the flags are a function of the scan mode alone for the four
    presets ("-T4 -F", "-T4 -p1-65535", "-sV", "-O"); custom mode returns
    the user's flag string unchanged, the empty string included; script
    mode returns "--script " followed by the comma-joined names for a
    non-empty list and no flag for the empty list. *)
Theorem derive_flags_table
  (tgt fmt path fl : string) (smart save : bool) (t : spec_float)
  (script : string) (scripts : list string) :
  let item mode l := mkItem tgt mode smart save fmt t path fl l in
  derive_flags (item "fast" scripts) = "-T4 -F" /\
  derive_flags (item "full" scripts) = "-T4 -p1-65535" /\
  derive_flags (item "version" scripts) = "-sV" /\
  derive_flags (item "os" scripts) = "-O" /\
  derive_flags (item "custom" scripts) = fl /\
  derive_flags (mkItem tgt "custom" smart save fmt t path "" scripts) = "" /\
  derive_flags (item "nse" (script :: scripts)) =
    "--script " ++ JSString.join "," (script :: scripts) /\
  derive_flags (item "nse" []) = "".
Proof. cbv zeta. repeat split. Qed.

(** ** The resiliency controller *)

(** C1: after a failed first attempt the process runner is invoked a
    second time exactly when the failure has a detail text that matches
    one of the three host-unreachable patterns and the flags do not
    contain "-Pn"; without a retry the outcome is the first failure
    itself and has no resiliency note.  A failure reported by the
    callback of [exec] always has a detail text; the exception [exec]
    throws on its [timeout] option has none. *)
Theorem retry_iff_unreachable_without_override env it w err w1 :
  runNmap env it (cmd it) w = (inl err, w1) ->
  ((exists d, JS.get "details" err = JStr d) \/
   (err = Node.ERR_OUT_OF_RANGE /\ JS.get "details" err = JUndefined)) /\
  (attempts env it w = 2 <->
   (exists d,
      JS.get "details" err = JStr d /\
      (JSString.includes d "0 hosts up" = true \/
       JSString.includes d "Failed to resolve" = true \/
       JSString.match_host_down d = true)) /\
   JSString.includes (derive_flags it) "-Pn" = false) /\
  (attempts env it w <> 2 ->
   attempts env it w = 1 /\
   scan env it w = (err, w1) /\
   JS.get "resiliency" (fst (scan env it w)) = JUndefined).
Proof.
  intros H.
  rewrite (attempts_rejected _ _ _ _ _ H), (scan_unfold_rejected _ _ _ _ _ H).
  destruct (rejected_details _ _ _ _ _ _ H)
    as [(_ & -> & Hdown)|(_ & d & Hd & Hdown)]; rewrite Hdown.
  - cbn [andb]. split; [right; split; reflexivity|]. split.
    + split; [discriminate|]. intros ((d & Hd & _) & _). discriminate.
    + intros _. repeat split.
  - split; [left; now exists d|].
    assert (Hres : JS.get "resiliency" err = JUndefined).
    { destruct (runNmap_rejected _ _ _ _ _ _ H)
        as (_ & [(_ & ->)|(_ & m & _ & ->)]); reflexivity. }
    unfold unreachable_text, alreadyPn.
    destruct (JSString.includes d "0 hosts up") eqn:E1;
      destruct (JSString.includes d "Failed to resolve") eqn:E2;
      destruct (JSString.match_host_down d) eqn:E3;
      destruct (JSString.includes (derive_flags it) "-Pn"); simpl;
      (split;
       [split;
        [intros; try discriminate; (split; [exists d; tauto | reflexivity])
        | intros [(d' & Hd' & Hp) Hf]; try discriminate;
          try reflexivity;
          rewrite Hd in Hd'; inversion Hd'; subst d';
          rewrite E1, E2, E3 in Hp; destruct Hp as [?|[?|?]]; discriminate]
       | intros ne; try (now elim ne); repeat split; exact Hres]).
Qed.

Lemma resilientCmd_has_override it :
  JSString.includes (resilientCmd it) "-Pn" = true.
Proof.
  assert (E : resilientCmd it =
              (quote ++ nmapPath it ++ quote ++ " " ++ derive_flags it ++ " ") ++
              "-Pn" ++
              (" " ++ format_flag it ++ " " ++ quote ++ target it ++ quote)).
  { unfold resilientCmd, resilientFlags, command_line.
    rewrite !append_assoc. reflexivity. }
  rewrite E. apply includes_append.
Qed.

(** C2: when the retry is triggered, the process runner is invoked a
    second time, and the command it runs then is the template of the
    first command, character for character, with the same binary path,
    format flag and target and with " -Pn" appended to the derived flags;
    what [exec] replies to that command, with a resiliency note added, is
    the final outcome: its [cmd] is the retry command, the note has
    [triggered: true] and [firstError] equal to the first failure, and
    every other field is read from the second attempt's payload. *)
Theorem retry_outcome env it w err w1 :
  runNmap env it (cmd it) w = (inl err, w1) ->
  downMsg err = true ->
  alreadyPn it = false ->
  let q := String (ascii_of_nat 34) "" in
  let retry :=
    q ++ nmapPath it ++ q ++ " " ++ (derive_flags it ++ " -Pn") ++ " " ++
    format_flag it ++ " " ++ q ++ target it ++ q in
  exists second w2 msg,
    cmd it =
      q ++ nmapPath it ++ q ++ " " ++ derive_flags it ++ " " ++
      format_flag it ++ " " ++ q ++ target it ++ q /\
    JSString.includes retry "-Pn" = true /\
    runNmap env it retry w1 = (second, w2) /\
    second = settle it retry (exec env w1 retry (exec_timeout it)) /\
    calls w2 =
      (calls w ++ [(cmd it, exec_timeout it); (retry, exec_timeout it)])%list /\
    JS.get "cmd" (payload second) = JStr retry /\
    scan env it w =
      (JS.set "resiliency"
         (JObj [("triggered", JBool true); ("msg", JStr msg); ("firstError", err)])
         (payload second), w2) /\
    attempts env it w = 2 /\
    JS.get "triggered" (JS.get "resiliency" (fst (scan env it w))) = JBool true /\
    JS.get "firstError" (JS.get "resiliency" (fst (scan env it w))) = err /\
    (forall k, k <> "resiliency" ->
       JS.get k (fst (scan env it w)) = JS.get k (payload second)).
Proof.
  intros H Hd Hp. cbv zeta.
  assert (Er : resilientCmd it =
               String (ascii_of_nat 34) "" ++ nmapPath it ++
               String (ascii_of_nat 34) "" ++ " " ++
               (derive_flags it ++ " -Pn") ++ " " ++
               format_flag it ++ " " ++ String (ascii_of_nat 34) "" ++
               target it ++ String (ascii_of_nat 34) "") by reflexivity.
  rewrite <- Er.
  pose proof (downMsg_callback _ _ _ _ _ _ H Hd) as Hv.
  pose proof (attempts_rejected _ _ _ _ _ H) as Ha.
  rewrite (scan_unfold_rejected _ _ _ _ _ H).
  rewrite Hd, Hp in *. simpl in Ha. cbn [andb negb].
  pose proof (runNmap_world env it (cmd it) w) as Hw1. rewrite H in Hw1.
  cbn [snd] in Hw1.
  pose proof (runNmap_settle env it (resilientCmd it) w1) as Hs.
  rewrite Hv in Hs. rewrite Hs. cbn [fst snd].
  set (second := settle it (resilientCmd it)
                   (exec env w1 (resilientCmd it) (exec_timeout it))).
  pose proof (settle_cmd it (resilientCmd it)
                (exec env w1 (resilientCmd it) (exec_timeout it))) as Hc.
  fold second in Hc.
  exists second, (mkWorld (calls w1 ++ [(resilientCmd it, exec_timeout it)])
                          (history w1)).
  exists (match second with
          | inr _ => "First scan failed, retried with -Pn."
          | inl _ => "Scan failed even after retrying with -Pn."
          end).
  assert (Ho : is_object (payload second) = true).
  { unfold second, settle. now destruct (exec_error _). }
  destruct (payload second) as [| | | | | |props]; try discriminate.
  repeat split; try assumption.
  - apply resilientCmd_has_override.
  - cbn [calls]. rewrite Hw1. cbn [calls]. now rewrite <- app_assoc.
  - cbn [JS.set JS.get]. now rewrite lookup_assign_same.
  - cbn [JS.set JS.get]. now rewrite lookup_assign_same.
  - intros k ne. cbn [JS.set JS.get]. now apply lookup_assign_other.
Qed.

(** What one loop iteration does to the world: the calls of the scan,
    then at most one appended history chunk. *)
Lemma save_calls env it scanResult summary w :
  calls (snd (save env it scanResult summary w)) = calls w.
Proof.
  unfold save. destruct (saveHistory it); [|reflexivity].
  now destruct (appendFileSync env w _).
Qed.

Lemma process_item_calls env it w :
  calls (snd (process_item env it w)) = calls (snd (scan env it w)).
Proof.
  unfold process_item. destruct (scan env it w) as [scanResult w1].
  destruct (summarize env it scanResult) as [parsed summary].
  pose proof (save_calls env it scanResult summary w1) as Hs.
  destruct (save env it scanResult summary w1) as [[e|u] w2]; exact Hs.
Qed.

Lemma scan_calls env it w :
  calls (snd (scan env it w)) = (calls w ++ [(cmd it, exec_timeout it)])%list \/
  calls (snd (scan env it w)) =
    (calls w ++
     [(cmd it, exec_timeout it); (resilientCmd it, exec_timeout it)])%list.
Proof.
  destruct (runNmap env it (cmd it) w) as [[err|result] w1] eqn:H.
  - rewrite (scan_unfold_rejected _ _ _ _ _ H).
    pose proof (runNmap_world env it (cmd it) w) as Hw. rewrite H in Hw.
    simpl in Hw. subst w1.
    destruct (downMsg err && negb (alreadyPn it)); simpl.
    + right. rewrite runNmap_world. simpl. now rewrite <- app_assoc.
    + now left.
  - unfold scan. rewrite H. left.
    pose proof (runNmap_world env it (cmd it) w) as Hw. rewrite H in Hw.
    simpl in Hw. now subst w1.
Qed.

(** C5: for one item the process runner is invoked once or twice, never
    more, whatever its replies are (in particular when the second failure
    again matches an unreachable pattern); a second invocation, when
    there is one, runs a command that contains "-Pn". *)
Theorem at_most_two_attempts env it w :
  exists first rest,
    calls (snd (process_item env it w)) = (calls w ++ first :: rest)%list /\
    (List.length rest <= 1)%nat /\
    (forall second, In second rest ->
       JSString.includes (fst second) "-Pn" = true).
Proof.
  rewrite process_item_calls.
  destruct (scan_calls env it w) as [H|H]; rewrite H.
  - exists (cmd it, exec_timeout it), []. repeat split; simpl; [lia | tauto].
  - exists (cmd it, exec_timeout it), [(resilientCmd it, exec_timeout it)].
    repeat split; simpl; [lia |].
    intros second [<-|[]]. apply resilientCmd_has_override.
Qed.

(** ** The emitted result and the history record *)

Lemma get_emit it scanResult parsed summary k :
  is_object scanResult = true ->
  k <> "parsed" -> k <> "summary" ->
  JS.get k (emit it scanResult parsed summary) = JS.get k scanResult.
Proof.
  intros Ho n1 n2. destruct scanResult; try discriminate.
  unfold emit. cbn [JS.own_props JS.get].
  destruct (smartResult it && JS.truthy summary);
    destruct (smartResult it && JS.truthy parsed);
    rewrite ?lookup_assign_other by assumption; reflexivity.
Qed.

Lemma get_historyObj ts it scanResult summary k :
  k <> "error" -> k <> "resiliency" ->
  JS.get k (historyObj ts it scanResult summary) =
  JS.lookup k [("timestamp", JStr ts);
               ("target", JStr (target it));
               ("flags", JStr (derive_flags it));
               ("format", JStr (outputFormat it));
               ("summary", summary)].
Proof.
  intros n1 n2. unfold historyObj. cbn [JS.get].
  destruct (JS.truthy (JS.get "resiliency" scanResult));
    destruct (JS.truthy (JS.get "error" scanResult));
    rewrite ?lookup_assign_other by assumption; reflexivity.
Qed.

Lemma scan_object env it w : is_object (fst (scan env it w)) = true.
Proof.
  destruct (runNmap env it (cmd it) w) as [[err|result] w1] eqn:H.
  - rewrite (scan_unfold_rejected _ _ _ _ _ H).
    pose proof (runNmap_object env it (cmd it) w) as Ho1. rewrite H in Ho1.
    pose proof (runNmap_object env it (resilientCmd it) w1) as Ho.
    destruct (downMsg err && negb (alreadyPn it)); [|exact Ho1].
    cbn [fst]. revert Ho.
    destruct (payload (fst (runNmap env it (resilientCmd it) w1)));
      try discriminate; reflexivity.
  - unfold scan. rewrite H.
    pose proof (runNmap_object env it (cmd it) w) as Ho1. now rewrite H in Ho1.
Qed.

Lemma scan_history env it w : history (snd (scan env it w)) = history w.
Proof.
  destruct (runNmap env it (cmd it) w) as [[err|result] w1] eqn:H.
  - rewrite (scan_unfold_rejected _ _ _ _ _ H).
    pose proof (runNmap_world env it (cmd it) w) as Hw. rewrite H in Hw.
    simpl in Hw. subst w1.
    destruct (downMsg err && negb (alreadyPn it)); [|reflexivity].
    cbn [snd]. now rewrite runNmap_world.
  - unfold scan. rewrite H.
    pose proof (runNmap_world env it (cmd it) w) as Hw. rewrite H in Hw.
    simpl in Hw. now subst w1.
Qed.

(** A loop iteration that ends normally, taken apart. *)
Lemma process_item_emitted env it w out w3 :
  process_item env it w = (inr out, w3) ->
  let scanResult := fst (scan env it w) in
  let w1 := snd (scan env it w) in
  let parsed := fst (summarize env it scanResult) in
  let summary := snd (summarize env it scanResult) in
  let data :=
    history_line (historyObj (toISOString env w1) it scanResult summary) in
  out = JObj [("json", emit it scanResult parsed summary)] /\
  calls w3 = calls w1 /\
  ((saveHistory it = true /\ appendFileSync env w1 data = None /\
    history w3 = (history w ++ [data])%list) \/
   (saveHistory it = false /\ history w3 = history w)).
Proof.
  unfold process_item. pose proof (scan_history env it w) as Hh.
  destruct (scan env it w) as [scanResult w1]. cbn [fst snd] in *.
  destruct (summarize env it scanResult) as [parsed summary]. cbn [fst snd].
  unfold save. destruct (saveHistory it).
  - destruct (appendFileSync env w1 _) eqn:Ea; intros H; inversion H; subst.
    cbn [calls history]. rewrite Hh. repeat split. left. now repeat split.
  - intros H; inversion H; subst. repeat split. right. now split.
Qed.

(** C9: when the retry is triggered and succeeds, the [flags] field of
    the emitted outcome and of the history record is the derived base
    flag string, which has no "-Pn", while the [cmd] field is the retry
    command, which has it. *)
Theorem retry_success_reports_base_flags env it w err w1 result w2 :
  runNmap env it (cmd it) w = (inl err, w1) ->
  downMsg err = true ->
  alreadyPn it = false ->
  runNmap env it (resilientCmd it) w1 = (inr result, w2) ->
  JSString.includes (derive_flags it) "-Pn" = false /\
  JSString.includes (resilientCmd it) "-Pn" = true /\
  forall out w3,
    process_item env it w = (inr out, w3) ->
    JS.get "error" (JS.get "json" out) = JBool false /\
    JS.get "flags" (JS.get "json" out) = JStr (derive_flags it) /\
    JS.get "cmd" (JS.get "json" out) = JStr (resilientCmd it) /\
    (saveHistory it = true ->
     exists obj,
       history w3 = (history w ++ [history_line obj])%list /\
       JS.get "flags" obj = JStr (derive_flags it)).
Proof.
  intros H Hd Hp H2. split; [exact Hp|]. split; [apply resilientCmd_has_override|].
  intros out w3 Hout.
  destruct (process_item_emitted _ _ _ _ _ Hout) as (-> & _ & Hhist).
  pose proof (scan_object env it w) as Ho.
  assert (Hs : fst (scan env it w) =
               JS.set "resiliency"
                 (resiliency_note "First scan failed, retried with -Pn." err)
                 result).
  { rewrite (scan_unfold_rejected _ _ _ _ _ H), Hd, Hp, H2. reflexivity. }
  destruct (runNmap_resolved _ _ _ _ _ _ H2) as (Hr & _).
  cbn [JS.get JS.lookup String.eqb Ascii.eqb Bool.eqb].
  rewrite !get_emit by (assumption || discriminate).
  rewrite Hs, Hr. repeat split.
  intros Hsave. destruct Hhist as [(_ & _ & Hh)|(Hf & _)]; [|congruence].
  eexists. split; [exact Hh|].
  now rewrite get_historyObj by discriminate.
Qed.

(** ** The timeout *)

Lemma valid_timeout_to_Z t :
  Node.validateTimeout t = true -> (0 <= Node.to_Z t)%Z.
Proof.
  unfold Node.validateTimeout. destruct t as [s|s| |s m e]; simpl;
    try discriminate; try lia.
  intros H. apply andb_prop in H. destruct H as [_ H].
  destruct s; [discriminate|]. apply Z.shiftl_nonneg. lia.
Qed.

Lemma spawned_app l1 l2 : spawned (l1 ++ l2) = (spawned l1 ++ spawned l2)%list.
Proof. apply filter_app. Qed.

(** The exception of [exec] is emitted as it is. *)
Lemma emit_refused env it :
  summarize env it Node.ERR_OUT_OF_RANGE = (JNull, JNull) /\
  emit it Node.ERR_OUT_OF_RANGE JNull JNull = Node.ERR_OUT_OF_RANGE.
Proof.
  unfold summarize, emit.
  cbn [Node.ERR_OUT_OF_RANGE JS.get JS.lookup String.eqb Ascii.eqb Bool.eqb
       JS.typeof_string JS.truthy negb andb JS.own_props fst snd].
  rewrite !andb_false_r. split; reflexivity.
Qed.

Lemma scan_refused env it w :
  Node.validateTimeout (exec_timeout it) = false ->
  scan env it w =
  (Node.ERR_OUT_OF_RANGE,
   mkWorld (calls w ++ [(cmd it, exec_timeout it)]) (history w)).
Proof.
  intros Hv. unfold scan. rewrite runNmap_settle, Hv. reflexivity.
Qed.

(** C10, as amended: when the coerced timeout parameter is 0, -0 or NaN
    the [timeout] option of every call of [exec] for the item is 60000
    (60 seconds), which [exec] accepts; for any other value [v] it is the
    binary64 product [v * 1000].  [exec] accepts the option, and spawns
    the child process, only when it is an unsigned integer: the timer
    that kills the child then runs that many milliseconds, or one
    millisecond when they exceed [2^31 - 1], and there is no timer for 0.
    For any other option (a negative, infinite or fractional number of
    milliseconds) [exec] throws, no child process is spawned, and the
    result of the item is the exception itself, [{code:
    "ERR_OUT_OF_RANGE"}]. *)
Theorem enforced_timeout env it w :
  exec_timeout it =
    (if zero_or_nan (timeoutParam it) then binary64_of_Z 60000
     else SFmul 53 1024 (timeoutParam it) (binary64_of_Z 1000)) /\
  binary64_of_Z 60000 = SFmul 53 1024 (binary64_of_Z 60) (binary64_of_Z 1000) /\
  Node.validateTimeout (binary64_of_Z 60000) = true /\
  Node.kill_delay (binary64_of_Z 60000) = Some 60000%Z /\
  (exists called,
     calls (snd (process_item env it w)) = (calls w ++ called)%list /\
     called <> [] /\
     Forall (fun c => snd c = exec_timeout it) called /\
     spawned called =
       if Node.validateTimeout (exec_timeout it) then called else []) /\
  (Node.validateTimeout (exec_timeout it) = true ->
   let ms := Node.to_Z (exec_timeout it) in
   Node.kill_delay (exec_timeout it) =
     if (ms =? 0)%Z then None
     else if (ms <=? 2 ^ 31 - 1)%Z then Some ms
     else Some 1%Z) /\
  (Node.validateTimeout (exec_timeout it) = false ->
   fst (scan env it w) = Node.ERR_OUT_OF_RANGE /\
   attempts env it w = 1 /\
   forall out w3,
     process_item env it w = (inr out, w3) ->
     out = JObj [("json", JObj [("code", JStr "ERR_OUT_OF_RANGE")])]).
Proof.
  split; [|split; [|split; [|split; [|split; [|split]]]]].
  - unfold exec_timeout, timeout. now destruct (timeoutParam it).
  - reflexivity.
  - reflexivity.
  - reflexivity.
  - rewrite process_item_calls.
    assert (Hall : forall l,
              Forall (fun c : string * spec_float => snd c = exec_timeout it) l ->
              spawned l =
                if Node.validateTimeout (exec_timeout it) then l else []).
    { induction 1 as [|c l Hc Hl IH]; [now destruct (Node.validateTimeout _)|].
      unfold spawned in *. cbn [List.filter]. rewrite Hc, IH.
      now destruct (Node.validateTimeout _). }
    destruct (scan_calls env it w) as [H|H]; rewrite H; eexists;
      (split; [reflexivity|]); (split; [discriminate|]);
      (split; [repeat constructor | apply Hall; repeat constructor]).
  - intros Hv. cbv zeta. pose proof (valid_timeout_to_Z _ Hv) as Hz.
    unfold Node.kill_delay, Node.TIMEOUT_MAX.
    destruct (Z.eqb_spec (Node.to_Z (exec_timeout it)) 0) as [E|E].
    + rewrite E. reflexivity.
    + destruct (Z.ltb_spec 0 (Node.to_Z (exec_timeout it))); [|lia].
      now destruct (_ <=? _)%Z.
  - intros Hv. pose proof (scan_refused env it w Hv) as Hs.
    split; [now rewrite Hs|]. split.
    + unfold attempts. rewrite Hs. cbn [snd calls]. rewrite length_app.
      simpl. lia.
    + intros out w3 Hout.
      destruct (process_item_emitted _ _ _ _ _ Hout) as (-> & _).
      rewrite Hs. cbn [fst].
      destruct (emit_refused env it) as (-> & He). cbn [fst snd].
      now rewrite He.
Qed.

(** ** Presence of the summary *)

Lemma same_keys_eq a b : same_keys a b = true -> a = b.
Proof.
  revert b. induction a as [|x a IH]; intros [|y b]; simpl; try discriminate.
  - reflexivity.
  - intros H. apply andb_prop in H. destruct H as [H1 H2].
    apply String.eqb_eq in H1. f_equal; auto.
Qed.

Lemma summary_or_marker v : is_scan_summary v && is_error_marker v = false.
Proof.
  unfold is_scan_summary, is_error_marker.
  destruct (same_keys (keys v) ["address"; _; _; _; _]) eqn:E1; [|reflexivity].
  destruct (same_keys (keys v) ["error"; _]) eqn:E2;
    [|cbn [andb]; apply andb_false_r].
  apply same_keys_eq in E1, E2. rewrite E1 in E2. discriminate.
Qed.

Lemma makeSummary_try_shape parsed s :
  makeSummary_try parsed = inr s -> is_scan_summary s = true.
Proof.
  unfold makeSummary_try. repeat step_bind.
  intros H. inversion H. reflexivity.
Qed.

Lemma makeSummary_cases parsed :
  (exists s, makeSummary_try parsed = inr s /\ makeSummary parsed = s /\
             is_scan_summary s = true) \/
  (exists e, makeSummary_try parsed = inl e /\
             makeSummary parsed = error_marker e).
Proof.
  unfold makeSummary. destruct (makeSummary_try parsed) as [e|s] eqn:E.
  - right. now exists e.
  - left. exists s. repeat split. now apply makeSummary_try_shape with parsed.
Qed.

(** The final outcome is a success record, with a string [output], a
    failure record, without one, or the exception of [exec], which has
    neither [error] nor [output]; none has a [summary] or [parsed] field
    of its own. *)
Lemma scan_final env it w :
  let final := fst (scan env it w) in
  JS.get "summary" final = JUndefined /\
  ((JS.get "error" final = JBool false /\
    exists output, JS.get "output" final = JStr output) \/
   (JS.get "error" final = JBool true /\ JS.get "output" final = JUndefined) \/
   (JS.get "error" final = JUndefined /\ JS.get "output" final = JUndefined)).
Proof.
  cbv zeta.
  destruct (runNmap env it (cmd it) w) as [[err|result] w1] eqn:H.
  - rewrite (scan_unfold_rejected _ _ _ _ _ H).
    destruct (downMsg err && negb (alreadyPn it)).
    + cbn [fst].
      destruct (runNmap env it (resilientCmd it) w1) as [[err2|res2] w2] eqn:H2;
        cbn [fst payload].
      * destruct (runNmap_rejected _ _ _ _ _ _ H2)
          as (_ & [(_ & ->)|(_ & m2 & _ & ->)]);
          (split; [reflexivity|]); right; [right|left]; split; reflexivity.
      * destruct (runNmap_resolved _ _ _ _ _ _ H2) as (-> & _).
        split; [reflexivity|]. left. split; [reflexivity|]. eexists. reflexivity.
    + destruct (runNmap_rejected _ _ _ _ _ _ H)
        as (_ & [(_ & ->)|(_ & m & _ & ->)]);
        (split; [reflexivity|]); right; [right|left]; split; reflexivity.
  - unfold scan. rewrite H.
    destruct (runNmap_resolved _ _ _ _ _ _ H) as (-> & _).
    split; [reflexivity|]. left. split; [reflexivity|]. eexists. reflexivity.
Qed.

Lemma get_summary_emit it scanResult parsed summary :
  is_object scanResult = true ->
  JS.get "summary" scanResult = JUndefined ->
  JS.get "summary" (emit it scanResult parsed summary) =
  if smartResult it && JS.truthy summary then summary else JUndefined.
Proof.
  intros Ho Hs. destruct scanResult; try discriminate.
  unfold emit. cbn [JS.own_props JS.get] in *.
  destruct (smartResult it && JS.truthy summary).
  - apply lookup_assign_same.
  - destruct (smartResult it && JS.truthy parsed); [|exact Hs].
    rewrite lookup_assign_other by discriminate. exact Hs.
Qed.

(** The summary slot of the emitted result, case by case. *)
Lemma emitted_summary env it w :
  let final := fst (scan env it w) in
  let emitted :=
    JS.get "summary"
      (emit it final (fst (summarize env it final)) (snd (summarize env it final))) in
  (emitted = JUndefined /\
   (JS.get "error" final <> JBool false \/ outputFormat it <> "xml" \/
    smartResult it = false)) \/
  (exists output,
     JS.get "error" final = JBool false /\ outputFormat it = "xml" /\
     smartResult it = true /\ JS.get "output" final = JStr output /\
     ((exists e, parseStringPromise env output = inl e /\
                 emitted = error_marker e) \/
      (exists parsed e, parseStringPromise env output = inr parsed /\
                        makeSummary_try parsed = inl e /\
                        emitted = error_marker e) \/
      (exists parsed s, parseStringPromise env output = inr parsed /\
                        makeSummary_try parsed = inr s /\
                        emitted = s /\ is_scan_summary s = true))).
Proof.
  cbv zeta.
  rewrite get_summary_emit by (apply scan_object || apply scan_final).
  destruct (scan_final env it w)
    as (_ & [(He & output & Ho)|[(He & Ho)|(He & Ho)]]);
    unfold summarize; rewrite He, Ho; cbn [JS.truthy negb JS.typeof_string].
  - destruct (smartResult it) eqn:Es; cbn [andb];
      [|left; split; [reflexivity | auto]].
    destruct (outputFormat it =? "xml") eqn:Ef; cbn [andb];
      [|left; split; [reflexivity
                     | right; left; now apply String.eqb_neq]].
    apply String.eqb_eq in Ef. right. exists output.
    repeat (split; [assumption || reflexivity|]).
    destruct (parseStringPromise env output) as [e|parsed]; cbn [fst snd].
    + left. exists e. split; reflexivity.
    + destruct (makeSummary_cases parsed) as [(s & Ht & Hm & Hs)|(e & Ht & Hm)];
        rewrite Hm.
      * right. right. exists parsed, s. repeat split; try assumption.
        destruct s; try discriminate; reflexivity.
      * right. left. exists parsed, e. repeat split. exact Ht.
  - rewrite !andb_false_r. cbn [andb]. left.
    split; [now destruct (smartResult it) | left; discriminate].
  - rewrite !andb_false_r. cbn [andb]. left.
    split; [now destruct (smartResult it) | left; discriminate].
Qed.

Lemma error_marker_shape e :
  is_error_marker (error_marker e) = true /\
  is_scan_summary (error_marker e) = false.
Proof. split; reflexivity. Qed.

(** C4, as amended: the emitted result carries a scan summary exactly
    when the final outcome is a success, the format is "xml",
    summarization was requested, the output was parsed without error and
    [makeSummary] read the host structure of the parsed document without
    error; otherwise the [summary] field is absent or is an error marker
    [{error: true, details}]; no value is both. *)
Theorem summary_present_iff env it w out w3 :
  process_item env it w = (inr out, w3) ->
  let final := fst (scan env it w) in
  let summary := JS.get "summary" (JS.get "json" out) in
  (is_scan_summary summary = true <->
   JS.get "error" final = JBool false /\
   outputFormat it = "xml" /\
   smartResult it = true /\
   exists output parsed s,
     JS.get "output" final = JStr output /\
     parseStringPromise env output = inr parsed /\
     makeSummary_try parsed = inr s) /\
  (is_scan_summary summary = false ->
   summary = JUndefined \/
   exists e, summary = JObj [("error", JBool true);
                             ("details", JStr (JS.String_of_error e))]) /\
  is_scan_summary summary && is_error_marker summary = false.
Proof.
  intros Hout. cbv zeta.
  destruct (process_item_emitted _ _ _ _ _ Hout) as (-> & _).
  cbn [JS.get JS.lookup String.eqb Ascii.eqb Bool.eqb].
  destruct (emitted_summary env it w)
    as [(-> & Hwhy)|(output & He & Hf & Hs & Ho &
                     [(e & Hp & ->)|[(parsed & e & Hp & Ht & ->)
                                    |(parsed & s & Hp & Ht & -> & Hsum)]])].
  - split; [split; [discriminate|] | split; [now left | reflexivity]].
    intros (He & Hf & Hs & _). destruct Hwhy as [H|[H|H]]; congruence.
  - split; [split; [discriminate|] | split; [right; now exists e | reflexivity]].
    intros (_ & _ & _ & o & p & s & Ho' & Hp' & _). congruence.
  - split; [split; [discriminate|] | split; [right; now exists e | reflexivity]].
    intros (_ & _ & _ & o & p & s & Ho' & Hp' & Ht'). congruence.
  - split; [split; [|intros _; exact Hsum] | split; [rewrite Hsum; discriminate|]].
    + intros _. repeat (split; [assumption|]). now exists output, parsed, s.
    + apply summary_or_marker.
Qed.

(** ** Summary extraction *)

Lemma member_ok v k : JS.nullish v = false -> JS.member v k = inr (JS.get k v).
Proof. unfold JS.member. now intros ->. Qed.

Lemma optional_chain_ok v k :
  optional_element v = true ->
  optional_chain v "$" k =
  inr (if JS.nullish v then JUndefined else JS.get k (JS.get "$" v)).
Proof.
  unfold optional_element, optional_chain. destruct (JS.nullish v) eqn:Ev.
  - reflexivity.
  - cbn [orb]. intros H. apply negb_true_iff in H.
    rewrite (member_ok v) by assumption. cbn [bind].
    now rewrite member_ok.
Qed.

Lemma has_attributes_inv v :
  has_attributes v = true ->
  JS.nullish v = false /\ JS.nullish (JS.get "$" v) = false /\ JS.truthy v = true.
Proof.
  unfold has_attributes. intros H. apply andb_prop in H. destruct H as [H1 H2].
  apply negb_true_iff in H1, H2. repeat split; try assumption.
  destruct v; try discriminate; try reflexivity; simpl in H2;
    match type of H2 with context [if ?b then _ else _] => destruct b end;
    discriminate.
Qed.




Lemma service_attr_ok p k :
  JS.nullish p = false -> optional_element (JS.get "service" p) = true ->
  exists a, service_attr p k = inr a.
Proof.
  intros Hp Hs. unfold service_attr. rewrite member_ok by assumption.
  cbn [bind]. rewrite optional_chain_ok by assumption. cbn [bind].
  eexists. reflexivity.
Qed.

Lemma port_entry_ok p :
  has_attributes p = true -> optional_element (JS.get "service" p) = true ->
  exists e, port_entry p = inr e.
Proof.
  intros Ha Hs. destruct (has_attributes_inv _ Ha) as (Hp & Hattrs & _).
  unfold port_entry. rewrite member_ok by assumption. cbn [bind].
  rewrite member_ok by assumption. cbn [bind].
  destruct (service_attr_ok p "name" Hp Hs) as (a1 & ->).
  destruct (service_attr_ok p "product" Hp Hs) as (a2 & ->).
  destruct (service_attr_ok p "version" Hp Hs) as (a3 & ->).
  destruct (service_attr_ok p "extrainfo" Hp Hs) as (a4 & ->).
  cbn [bind]. eexists. reflexivity.
Qed.

Lemma script_entries_ok p l :
  has_attributes p = true -> forallb has_attributes l = true ->
  exists es, mapM (script_entry p) l = inr es.
Proof.
  intros Ha. destruct (has_attributes_inv _ Ha) as (Hp & Hattrs & _).
  induction l as [|s l IH]; simpl.
  - intros _. eexists. reflexivity.
  - intros H. apply andb_prop in H. destruct H as [Hs Hl].
    destruct (has_attributes_inv _ Hs) as (Hs1 & Hs2 & _).
    destruct (IH Hl) as (es & ->).
    unfold script_entry. rewrite !(member_ok p) by assumption. cbn [bind].
    rewrite !(member_ok (JS.get "$" p)) by assumption. cbn [bind].
    rewrite !(member_ok s) by assumption. cbn [bind].
    rewrite !(member_ok (JS.get "$" s)) by assumption. cbn [bind].
    eexists. reflexivity.
Qed.

Lemma port_scripts_ok p :
  has_attributes p = true -> forallb has_attributes (scripts_of p) = true ->
  exists es, port_scripts p = inr es.
Proof.
  intros Ha Hs. destruct (has_attributes_inv _ Ha) as (Hp & _ & _).
  unfold port_scripts. rewrite member_ok by assumption. cbn [bind].
  unfold scripts_of in Hs. destruct (JS.truthy (JS.get "script" p)).
  - now apply script_entries_ok.
  - eexists. reflexivity.
Qed.

(** The part of [makeSummary] before the ports, on a host record. *)
Lemma makeSummary_try_host parsed host ports :
  host_of parsed = inr host -> host_record host = true ->
  ports_of host = inr ports ->
  exists address status,
    makeSummary_try parsed =
    (openPorts <- select_open ports ;;
     portList <- mapM port_entry openPorts ;;
     nseResults <- mapM port_scripts openPorts ;;
     ret (JObj [("address", address);
                ("status", status);
                ("openPorts", JArr portList);
                ("totalOpen", JNum (Z.of_nat (List.length openPorts)));
                ("vulns", JArr (List.concat nseResults))])).
Proof.
  intros Hh Hr Hp. unfold host_record in Hr.
  apply andb_prop in Hr. destruct Hr as [Hr Ha].
  apply andb_prop in Hr. destruct Hr as [Hn Hs]. apply negb_true_iff in Hn.
  unfold makeSummary_try. rewrite Hh. cbn [bind].
  rewrite !(member_ok host) by assumption. cbn [bind].
  rewrite !optional_chain_ok by assumption. cbn [bind].
  rewrite Hp. cbn [bind]. eexists. eexists. reflexivity.
Qed.



(** ** The properties above on a concrete scenario *)

Lemma retry_iff_unreachable_without_override_witness :
  runNmap Scenario.host_down Scenario.quick_xml (cmd Scenario.quick_xml)
    Scenario.start = (inl Scenario.first_failure, Scenario.after_first) /\
  ((exists d, JS.get "details" Scenario.first_failure = JStr d) \/
   (Scenario.first_failure = Node.ERR_OUT_OF_RANGE /\
    JS.get "details" Scenario.first_failure = JUndefined)) /\
  (attempts Scenario.host_down Scenario.quick_xml Scenario.start = 2 <->
   (exists d,
      JS.get "details" Scenario.first_failure = JStr d /\
      (JSString.includes d "0 hosts up" = true \/
       JSString.includes d "Failed to resolve" = true \/
       JSString.match_host_down d = true)) /\
   JSString.includes (derive_flags Scenario.quick_xml) "-Pn" = false) /\
  (attempts Scenario.host_down Scenario.quick_xml Scenario.start <> 2 ->
   attempts Scenario.host_down Scenario.quick_xml Scenario.start = 1 /\
   scan Scenario.host_down Scenario.quick_xml Scenario.start =
     (Scenario.first_failure, Scenario.after_first) /\
   JS.get "resiliency"
     (fst (scan Scenario.host_down Scenario.quick_xml Scenario.start)) =
     JUndefined).
Proof.
  split; [reflexivity|].
  apply (retry_iff_unreachable_without_override
           Scenario.host_down Scenario.quick_xml Scenario.start).
  reflexivity.
Defined.

Lemma retry_outcome_witness :
  let q := String (ascii_of_nat 34) "" in
  let retry := q ++ "nmap" ++ q ++ " -T4 -F -Pn -oX - " ++ q ++ "scanme.nmap.org" ++ q in
  exists second w2 msg,
    cmd Scenario.quick_xml =
      q ++ "nmap" ++ q ++ " -T4 -F -oX - " ++ q ++ "scanme.nmap.org" ++ q /\
    JSString.includes retry "-Pn" = true /\
    runNmap Scenario.host_down Scenario.quick_xml retry Scenario.after_first =
      (second, w2) /\
    second =
      settle Scenario.quick_xml retry
        (exec Scenario.host_down Scenario.after_first retry
           (exec_timeout Scenario.quick_xml)) /\
    calls w2 =
      (calls Scenario.start ++
       [(cmd Scenario.quick_xml, exec_timeout Scenario.quick_xml);
        (retry, exec_timeout Scenario.quick_xml)])%list /\
    JS.get "cmd" (payload second) = JStr retry /\
    scan Scenario.host_down Scenario.quick_xml Scenario.start =
      (JS.set "resiliency"
         (JObj [("triggered", JBool true); ("msg", JStr msg);
                ("firstError", Scenario.first_failure)])
         (payload second), w2) /\
    attempts Scenario.host_down Scenario.quick_xml Scenario.start = 2 /\
    JS.get "triggered"
      (JS.get "resiliency"
         (fst (scan Scenario.host_down Scenario.quick_xml Scenario.start))) =
      JBool true /\
    JS.get "firstError"
      (JS.get "resiliency"
         (fst (scan Scenario.host_down Scenario.quick_xml Scenario.start))) =
      Scenario.first_failure /\
    (forall k, k <> "resiliency" ->
       JS.get k (fst (scan Scenario.host_down Scenario.quick_xml Scenario.start)) =
       JS.get k (payload second)).
Proof.
  apply (retry_outcome Scenario.host_down Scenario.quick_xml Scenario.start
           Scenario.first_failure Scenario.after_first);
    reflexivity.
Defined.

Lemma retry_success_reports_base_flags_witness :
  JSString.includes (derive_flags Scenario.quick_xml) "-Pn" = false /\
  JSString.includes (resilientCmd Scenario.quick_xml) "-Pn" = true /\
  forall out w3,
    process_item Scenario.host_down Scenario.quick_xml Scenario.start =
      (inr out, w3) ->
    JS.get "error" (JS.get "json" out) = JBool false /\
    JS.get "flags" (JS.get "json" out) = JStr (derive_flags Scenario.quick_xml) /\
    JS.get "cmd" (JS.get "json" out) = JStr (resilientCmd Scenario.quick_xml) /\
    (saveHistory Scenario.quick_xml = true ->
     exists obj,
       history w3 = (history Scenario.start ++ [history_line obj])%list /\
       JS.get "flags" obj = JStr (derive_flags Scenario.quick_xml)).
Proof.
  apply (retry_success_reports_base_flags
           Scenario.host_down Scenario.quick_xml Scenario.start
           Scenario.first_failure Scenario.after_first
           Scenario.second_success Scenario.after_second);
    reflexivity.
Defined.

Lemma summary_present_iff_witness :
  let out :=
    JObj [("json",
           emit Scenario.quick_xml
             (fst (scan Scenario.host_down Scenario.quick_xml Scenario.start))
             Scenario.document (makeSummary Scenario.document))] in
  let summary := JS.get "summary" (JS.get "json" out) in
  is_scan_summary summary = true /\
  is_scan_summary summary && is_error_marker summary = false.
Proof.
  cbv zeta.
  destruct (summary_present_iff Scenario.host_down Scenario.quick_xml
              Scenario.start _ _ eq_refl) as (_ & _ & H).
  split; [reflexivity | exact H].
Defined.

(** C4, as stated, fails: the output of a scan of a host that is down is
    well-formed XML and the scan succeeded, yet the summary is an error
    marker, because [makeSummary] finds no [host] element. *)
Lemma summary_present_iff_counterexample :
  let final := fst (scan Scenario.silent_host Scenario.quick_xml Scenario.start) in
  let summary :=
    JS.get "summary"
      (Scenario.emitted Scenario.silent_host Scenario.quick_xml Scenario.start) in
  (JS.get "error" final = JBool false /\
   outputFormat Scenario.quick_xml = "xml" /\
   smartResult Scenario.quick_xml = true /\
   exists output parsed,
     JS.get "output" final = JStr output /\
     parseStringPromise Scenario.silent_host output = inr parsed) /\
  is_scan_summary summary = false /\
  is_error_marker summary = true.
Proof.
  cbv zeta. split; [|split; reflexivity].
  repeat split. eexists. eexists. split; reflexivity.
Qed.



(** C10, as stated, fails for a negative value: with a timeout parameter
    of -5 the option is -5000, which [exec] refuses: nothing is spawned,
    no timer runs, and the result of the item is the exception, although
    nmap would have answered.  It fails for a large value too: with
    3000000 seconds the child is killed after one millisecond. *)
Lemma enforced_timeout_counterexample :
  zero_or_nan (timeoutParam Fixture.negative_timeout) = false /\
  exec_timeout Fixture.negative_timeout = binary64_of_Z (-5000) /\
  Node.validateTimeout (exec_timeout Fixture.negative_timeout) = false /\
  Node.kill_delay (exec_timeout Fixture.negative_timeout) = None /\
  process_item Scenario.answering Fixture.negative_timeout Scenario.start =
    (inr (JObj [("json", JObj [("code", JStr "ERR_OUT_OF_RANGE")])]),
     mkWorld [(cmd Fixture.negative_timeout, binary64_of_Z (-5000))]
       [history_line
          (JObj [("timestamp", JStr (toISOString Scenario.answering Scenario.start));
                 ("target", JStr "scanme.nmap.org");
                 ("flags", JStr "-T4 -F");
                 ("format", JStr "text");
                 ("summary", JNull)])]) /\
  spawned
    (calls (snd (process_item Scenario.answering Fixture.negative_timeout
                   Scenario.start))) = [] /\
  Node.validateTimeout (exec_timeout Fixture.fractional_timeout) = false /\
  exec_timeout Fixture.long_timeout = binary64_of_Z 3000000000 /\
  Node.validateTimeout (exec_timeout Fixture.long_timeout) = true /\
  Node.kill_delay (exec_timeout Fixture.long_timeout) = Some 1%Z.
Proof. repeat split. Qed.

(** ** Batches *)

Lemma process_item_normal env it w :
  (forall w' data, appendFileSync env w' data = None) ->
  exists out, fst (process_item env it w) = inr out.
Proof.
  intros Hfs. unfold process_item.
  destruct (scan env it w) as [scanResult w1].
  destruct (summarize env it scanResult) as [parsed summary].
  unfold save. destruct (saveHistory it).
  - rewrite Hfs. eexists. reflexivity.
  - eexists. reflexivity.
Qed.

Lemma execute_from_normal env items :
  (forall w' data, appendFileSync env w' data = None) ->
  forall outputs w,
  exists outs,
    fst (execute_from env items outputs w) = inr outs /\
    List.length outs = (List.length outputs + List.length items)%nat.
Proof.
  intros Hfs. induction items as [|it rest IH]; intros outputs w.
  - exists outputs. split; [reflexivity | simpl; lia].
  - cbn [execute_from].
    destruct (process_item_normal env it w Hfs) as (out & Hout).
    destruct (process_item env it w) as [[e|o] w']; cbn [fst] in Hout;
      [discriminate|].
    destruct (IH (outputs ++ [o])%list w') as (outs & E & L).
    exists outs. split; [exact E|].
    rewrite L, length_app. simpl. lia.
Qed.

(** As long as the history file can be appended to, scan failures and
    parse failures never leave the loop: every item yields one result. *)
Lemma execute_one_result_per_item env items w :
  (forall w' data, appendFileSync env w' data = None) ->
  exists outs,
    fst (execute env items w) = inr [outs] /\
    List.length outs = List.length items.
Proof.
  intros Hfs. unfold execute.
  destruct (execute_from_normal env items Hfs [] w) as (outs & E & L).
  destruct (execute_from env items [] w) as [[e|o] w']; cbn [fst] in *;
    [discriminate|].
  inversion E. subst. now exists outs.
Qed.

(** An exception of [appendFileSync] at one item is the result of the
    whole call: the outputs collected so far are dropped and the items
    after it are not processed. *)
Lemma history_write_failure_escapes env it rest w e :
  saveHistory it = true ->
  (forall w' data, appendFileSync env w' data = Some e) ->
  fst (execute env (it :: rest) w) = inl e /\
  history (snd (execute env (it :: rest) w)) = history w /\
  calls (snd (execute env (it :: rest) w)) = calls (snd (scan env it w)).
Proof.
  intros Hsave Hfs. unfold execute. cbn [execute_from].
  pose proof (scan_history env it w) as Hh.
  unfold process_item. destruct (scan env it w) as [scanResult w1].
  destruct (summarize env it scanResult) as [parsed summary].
  unfold save. rewrite Hsave, Hfs. cbn [fst snd] in *. now repeat split.
Qed.

(** C8 (the code departs from the claim): with a history file that
    cannot be written, the exception of [appendFileSync] leaves the loop
    at the first item; the second item is never scanned and the batch
    yields no result at all. *)
Theorem history_write_failure_aborts_batch :
  execute Scenario.read_only [Scenario.quick_xml; Scenario.quick_xml]
    Scenario.start =
  (inl (mkError "Error" "EACCES: permission denied, open 'nmap-history.jsonl'"),
   mkWorld [(cmd Scenario.quick_xml, exec_timeout Scenario.quick_xml);
            (resilientCmd Scenario.quick_xml, exec_timeout Scenario.quick_xml)]
           []).
Proof. reflexivity. Qed.


(** ** The history record through JSON *)

(** *** String and number literals *)

Lemma parse_chars_escape_char c tail :
  JSON.parse_chars (JSON.escape_char c ++ tail) = JSON.cons_char c (JSON.parse_chars tail).
Proof.
  destruct c as [[] [] [] [] [] [] [] []]; reflexivity.
Qed.

Lemma parse_chars_escape s rest :
  JSON.parse_chars (JSON.escape s ++ String JSON.dquote rest) = Some (s, rest).
Proof.
  induction s as [|c s IH].
  - reflexivity.
  - cbn [JSON.escape]. rewrite append_assoc, parse_chars_escape_char, IH.
    reflexivity.
Qed.

Lemma parse_chars_quote_string s rest :
  exists body,
    JSON.quote_string s ++ rest = String JSON.dquote body /\
    JSON.parse_chars body = Some (s, rest).
Proof.
  exists (JSON.escape s ++ String JSON.dquote rest). split.
  - unfold JSON.quote_string. cbn. now rewrite append_assoc.
  - apply parse_chars_escape.
Qed.

Lemma boundary_inv rest :
  boundary rest = true ->
  JSON.span_digits rest = (EmptyString, rest) /\ JSON.starts_fraction rest = false.
Proof.
  destruct rest as [|c r]; [now split|].
  unfold boundary. intros H. apply andb_prop in H. destruct H as [H1 H2].
  apply negb_true_iff in H1, H2. split; [|exact H2].
  cbn [JSON.span_digits]. now rewrite H1.
Qed.

Lemma span_digits_uint d rest :
  boundary rest = true ->
  JSON.span_digits (DecimalString.NilEmpty.string_of_uint d ++ rest) =
  (DecimalString.NilEmpty.string_of_uint d, rest).
Proof.
  intros Hb. induction d; cbn [DecimalString.NilEmpty.string_of_uint append];
    try (cbn [JSON.span_digits]; rewrite IHd; reflexivity).
  now apply boundary_inv.
Qed.

Lemma unorm_leading_zero d d' :
  Decimal.unorm d = Decimal.D0 d' -> d' = Decimal.Nil.
Proof.
  induction d; cbn [Decimal.unorm]; intros H; try discriminate.
  - now inversion H.
  - auto.
Qed.

Lemma to_uint_leading_zero p d' : Pos.to_uint p <> Decimal.D0 d'.
Proof.
  intros H.
  assert (E : Pos.to_uint p = Decimal.unorm (Pos.to_uint p)).
  { rewrite <- DecimalPos.Unsigned.to_of, DecimalPos.Unsigned.of_to.
    reflexivity. }
  rewrite H in E. symmetry in E. apply unorm_leading_zero in E. subst d'.
  now apply (DecimalPos.Unsigned.to_uint_nonzero p).
Qed.

Lemma parse_number_uint (negative : bool) d rest :
  d <> Decimal.Nil ->
  (forall d', d = Decimal.D0 d' -> d' = Decimal.Nil) ->
  boundary rest = true ->
  JSON.parse_number ((if negative then "-" else "") ++
                DecimalString.NilEmpty.string_of_uint d ++ rest) =
  Some (JNum (if negative then Z.opp (Z.of_uint d) else Z.of_uint d), rest).
Proof.
  intros Hnil Hzero Hb.
  assert (Hspan := span_digits_uint d rest Hb).
  destruct (boundary_inv _ Hb) as (_ & Hfrac).
  assert (Hparse := DecimalString.NilEmpty.usu d).
  unfold JSON.parse_number.
  destruct d; try (now elim Hnil);
    try (specialize (Hzero _ eq_refl); subst d);
    destruct negative;
    cbn [DecimalString.NilEmpty.string_of_uint append] in *;
    eval_tests; cbv beta iota zeta; rewrite Hspan; cbv beta iota zeta;
    eval_tests; cbn [andb negb String.eqb];
    rewrite Hfrac, Hparse; reflexivity.
Qed.

Lemma nilzero_nonnil d :
  d <> Decimal.Nil ->
  DecimalString.NilZero.string_of_uint d =
  DecimalString.NilEmpty.string_of_uint d.
Proof. destruct d; intros H; [now elim H | reflexivity ..]. Qed.

Lemma parse_number_to_string n rest :
  boundary rest = true ->
  JSON.parse_number (JSON.number_to_string n ++ rest) = Some (JNum n, rest).
Proof.
  intros Hb. unfold JSON.number_to_string.
  destruct n as [|p|p]; cbn [Z.to_int DecimalString.NilZero.string_of_int].
  - apply (parse_number_uint false Decimal.zero rest); try assumption.
    + discriminate.
    + intros d' H. now inversion H.
  - pose proof (DecimalZ.of_to (Zpos p)) as E. cbn [Z.to_int Z.of_int] in E.
    rewrite nilzero_nonnil by apply DecimalPos.Unsigned.to_uint_nonnil.
    rewrite <- E.
    apply (parse_number_uint false (Pos.to_uint p) rest);
      [apply DecimalPos.Unsigned.to_uint_nonnil
      | intros d' H; now elim (to_uint_leading_zero p d')
      | assumption].
  - pose proof (DecimalZ.of_to (Zneg p)) as E. cbn [Z.to_int Z.of_int] in E.
    rewrite nilzero_nonnil by apply DecimalPos.Unsigned.to_uint_nonnil.
    rewrite <- E.
    apply (parse_number_uint true (Pos.to_uint p) rest);
      [apply DecimalPos.Unsigned.to_uint_nonnil
      | intros d' H; now elim (to_uint_leading_zero p d')
      | assumption].
Qed.

(** *** What a value becomes through JSON *)

Lemma serialize_object ps :
  JSON.serialize (JObj ps) =
  "{" ++ JSString.join "," (List.map member_text (defined_props ps)) ++ "}".
Proof.
  cbn [JSON.serialize]. do 3 f_equal.
  induction ps as [|[k v] ps IH]; [reflexivity|].
  destruct v; cbn [defined_props filter snd is_undefined negb List.map];
    first [exact IH | rewrite IH; reflexivity].
Qed.

Lemma json_value_object ps :
  json_value (JObj ps) =
  JObj (List.map (fun kv => (fst kv, json_value (snd kv))) (defined_props ps)).
Proof.
  cbn [json_value]. f_equal.
  induction ps as [|[k v] ps IH]; [reflexivity|].
  destruct v; cbn [defined_props filter snd fst is_undefined negb List.map];
    first [exact IH | rewrite IH; reflexivity].
Qed.

Lemma weight_object ps :
  weight (JObj ps) =
  S (list_sum (List.map (fun kv => S (weight (snd kv))) (defined_props ps))).
Proof.
  cbn [weight]. f_equal.
  induction ps as [|[k v] ps IH]; [reflexivity|].
  destruct v; cbn [defined_props filter snd fst is_undefined negb List.map list_sum];
    first [exact IH | rewrite IH; reflexivity].
Qed.

Lemma unique_keys_object ps :
  unique_keys (JObj ps) =
  distinct (List.map fst ps) && forallb (fun kv => unique_keys (snd kv)) ps.
Proof.
  cbn [unique_keys]. f_equal.
  induction ps as [|[k v] ps IH]; [reflexivity|].
  cbn [forallb snd]. now rewrite IH.
Qed.

Lemma json_clean_object ps :
  json_clean (JObj ps) = forallb (fun kv => json_clean (snd kv)) ps.
Proof.
  cbn [json_clean].
  induction ps as [|[k v] ps IH]; [reflexivity|].
  cbn [forallb snd]. now rewrite IH.
Qed.

(** *** The first character of a serialized value *)

Lemma value_start_facts c :
  value_start c = true ->
  JSON.is_ws c = false /\
  (nat_of_ascii c =? 93)%nat = false /\ (nat_of_ascii c =? 125)%nat = false.
Proof.
  destruct c as [[] [] [] [] [] [] [] []]; intros H;
    first [discriminate H | repeat split].
Qed.

Lemma uint_start d :
  d <> Decimal.Nil ->
  exists c t,
    DecimalString.NilEmpty.string_of_uint d = String c t /\ JSON.is_digit c = true.
Proof.
  destruct d; intros H; [now elim H | ..];
    cbn [DecimalString.NilEmpty.string_of_uint]; eexists; eexists;
    (split; [reflexivity | reflexivity]).
Qed.

Lemma number_start n :
  exists c t,
    JSON.number_to_string n = String c t /\
    (JSON.is_digit c = true \/ c = "-"%char).
Proof.
  unfold JSON.number_to_string.
  destruct n as [|p|p]; cbn [Z.to_int DecimalString.NilZero.string_of_int].
  - exists "0"%char, EmptyString. split; [reflexivity | now left].
  - rewrite nilzero_nonnil by apply DecimalPos.Unsigned.to_uint_nonnil.
    destruct (uint_start (Pos.to_uint p)) as (c & t & E & Hd);
      [apply DecimalPos.Unsigned.to_uint_nonnil|].
    exists c, t. split; [exact E | now left].
  - eexists. eexists. split; [reflexivity | now right].
Qed.

Lemma serialize_start v :
  exists c t, JSON.serialize v = String c t /\ value_start c = true.
Proof.
  destruct v as [| |[]|n|s|l|ps];
    try (eexists; eexists; split; [reflexivity | reflexivity]).
  destruct (number_start n) as (c & t & E & Hc).
  exists c, t. split; [exact E|].
  destruct Hc as [Hc| ->]; [|reflexivity].
  unfold value_start. rewrite Hc. now rewrite !orb_true_r.
Qed.

Lemma parse_value_number fuel c t :
  JSON.is_digit c = true \/ c = "-"%char ->
  JSON.parse_value (S fuel) (String c t) = JSON.parse_number (String c t).
Proof.
  intros [H| ->]; [|reflexivity].
  destruct c as [[] [] [] [] [] [] [] []]; first [discriminate H | reflexivity].
Qed.

(** *** Lists of elements and of members *)

Lemma parse_elements_eq fuel s :
  JSON.parse_elements (S fuel) s =
  match JSON.parse_value fuel s with
  | Some (v, r) =>
      match JSON.skip_ws r with
      | String c r' =>
          if (nat_of_ascii c =? 44)%nat then
            match JSON.parse_elements fuel r' with
            | Some (l, r'') => Some (v :: l, r'')
            | None => None
            end
          else if (nat_of_ascii c =? 93)%nat then Some ([v], r')
          else None
      | EmptyString => None
      end
  | None => None
  end.
Proof. reflexivity. Qed.

Lemma parse_members_eq fuel body :
  JSON.parse_members (S fuel) (String JSON.dquote body) =
  match JSON.parse_chars body with
  | Some (k, s2) =>
      match JSON.skip_ws s2 with
      | String colon s3 =>
          if (nat_of_ascii colon =? 58)%nat then
            match JSON.parse_value fuel s3 with
            | Some (v, r) =>
                match JSON.skip_ws r with
                | String c r' =>
                    if (nat_of_ascii c =? 44)%nat then
                      match JSON.parse_members fuel r' with
                      | Some (ps, r'') => Some ((k, v) :: ps, r'')
                      | None => None
                      end
                    else if (nat_of_ascii c =? 125)%nat
                    then Some ([(k, v)], r')
                    else None
                | EmptyString => None
                end
            | None => None
            end
          else None
      | EmptyString => None
      end
  | None => None
  end.
Proof. reflexivity. Qed.

Lemma parse_elements_last fuel s v r :
  JSON.parse_value fuel s = Some (v, String "]" r) ->
  JSON.parse_elements (S fuel) s = Some ([v], r).
Proof. intros H. rewrite parse_elements_eq, H. reflexivity. Qed.

Lemma parse_elements_more fuel s v r l r' :
  JSON.parse_value fuel s = Some (v, String "," r) ->
  JSON.parse_elements fuel r = Some (l, r') ->
  JSON.parse_elements (S fuel) s = Some (v :: l, r').
Proof.
  intros H1 H2. rewrite parse_elements_eq, H1.
  change (JSON.skip_ws (String "," r)) with (String "," r). cbv beta iota.
  change (nat_of_ascii "," =? 44)%nat with true. cbv iota.
  now rewrite H2.
Qed.

Lemma parse_members_last fuel k body s2 v r :
  JSON.parse_chars body = Some (k, String ":" s2) ->
  JSON.parse_value fuel s2 = Some (v, String "}" r) ->
  JSON.parse_members (S fuel) (String JSON.dquote body) = Some ([(k, v)], r).
Proof.
  intros H1 H2. rewrite parse_members_eq, H1.
  change (JSON.skip_ws (String ":" s2)) with (String ":" s2). cbv beta iota.
  change (nat_of_ascii ":" =? 58)%nat with true. cbv iota.
  rewrite H2. reflexivity.
Qed.

Lemma parse_members_more fuel k body s2 v r ps r' :
  JSON.parse_chars body = Some (k, String ":" s2) ->
  JSON.parse_value fuel s2 = Some (v, String "," r) ->
  JSON.parse_members fuel r = Some (ps, r') ->
  JSON.parse_members (S fuel) (String JSON.dquote body) = Some ((k, v) :: ps, r').
Proof.
  intros H1 H2 H3. rewrite parse_members_eq, H1.
  change (JSON.skip_ws (String ":" s2)) with (String ":" s2). cbv beta iota.
  change (nat_of_ascii ":" =? 58)%nat with true. cbv iota.
  rewrite H2.
  change (JSON.skip_ws (String "," r)) with (String "," r). cbv beta iota.
  change (nat_of_ascii "," =? 44)%nat with true. cbv iota.
  now rewrite H3.
Qed.

Lemma distinct_NoDup l : distinct l = true <-> NoDup l.
Proof.
  induction l as [|x l IH]; cbn [distinct].
  - split; [constructor | reflexivity].
  - rewrite andb_true_iff, negb_true_iff, IH. split.
    + intros [Hx Hl]. constructor; [|exact Hl].
      intros Hin. assert (E : existsb (String.eqb x) l = true).
      { apply existsb_exists. exists x. split; [exact Hin | apply String.eqb_refl]. }
      congruence.
    + intros H. inversion H as [|? ? Hx Hl]. subst. split; [|exact Hl].
      destruct (existsb (String.eqb x) l) eqn:E; [|reflexivity].
      apply existsb_exists in E. destruct E as (y & Hy & Exy).
      apply String.eqb_eq in Exy. subst y. contradiction.
Qed.

Lemma assign_fresh k v acc :
  ~ In k (List.map fst acc) -> JS.assign k v acc = (acc ++ [(k, v)])%list.
Proof.
  induction acc as [|[k' v'] acc IH]; cbn [JS.assign List.map fst In app].
  - reflexivity.
  - intros H. destruct (k' =? k) eqn:E.
    + apply String.eqb_eq in E. elim H. now left.
    + rewrite IH; [reflexivity|]. intros Hin. apply H. now right.
Qed.

Lemma assign_all_fresh ps acc :
  NoDup (List.map fst (acc ++ ps)) ->
  fold_left (fun a kv => JS.assign (fst kv) (snd kv) a) ps acc = (acc ++ ps)%list.
Proof.
  revert acc. induction ps as [|[k v] ps IH]; intros acc H; cbn [fold_left fst snd].
  - now rewrite app_nil_r.
  - rewrite assign_fresh.
    + rewrite IH; rewrite <- app_assoc; [reflexivity | exact H].
    + rewrite map_app in H. cbn [List.map fst] in H.
      apply NoDup_remove_2 in H. intros Hin. apply H.
      apply in_or_app. now left.
Qed.

Lemma literal_distinct ps :
  distinct (List.map fst ps) = true -> JS.literal ps = JObj ps.
Proof.
  intros H. unfold JS.literal. f_equal.
  apply (assign_all_fresh ps []). now apply distinct_NoDup.
Qed.

Lemma defined_keys_distinct ps :
  distinct (List.map fst ps) = true ->
  distinct
    (List.map fst
       (List.map (fun kv => (fst kv, json_value (snd kv))) (defined_props ps)))
  = true.
Proof.
  rewrite !distinct_NoDup, map_map. cbn [fst]. unfold defined_props.
  induction ps as [|[k v] ps IH]; cbn [List.map filter fst snd]; [auto|].
  intros H. inversion H as [|? ? Hk Hps]. subst.
  destruct (negb (is_undefined v)); cbn [List.map fst]; [|auto].
  constructor; [|auto]. intros Hin. apply Hk.
  apply in_map_iff in Hin. destruct Hin as (kv & <- & Hkv).
  apply in_map. apply filter_In in Hkv. tauto.
Qed.

(** *** The round trip *)

Lemma list_sum_cons {A} (f : A -> nat) x l :
  list_sum (List.map f (x :: l)) = (f x + list_sum (List.map f l))%nat.
Proof. reflexivity. Qed.

Lemma parse_elements_join l :
  l <> [] ->
  Forall round_trips l ->
  forallb unique_keys l = true ->
  forall fuel rest,
    list_sum (List.map (fun x => S (weight x)) l) <= fuel ->
    JSON.parse_elements fuel
      (JSString.join "," (List.map JSON.serialize l) ++ String "]" rest) =
    Some (List.map json_value l, rest).
Proof.
  induction l as [|x l IH]; [intros H; now elim H|].
  intros _ Hall Hu fuel rest Hfuel.
  inversion Hall as [|? ? Hx Hl]. subst.
  cbn [forallb] in Hu. apply andb_prop in Hu. destruct Hu as [Hux Hul].
  rewrite list_sum_cons in Hfuel.
  destruct fuel as [|fuel]; [lia|].
  destruct l as [|y l'].
  - cbn [List.map JSString.join]. apply parse_elements_last.
    apply Hx; [assumption | lia | reflexivity].
  - change (JSString.join "," (List.map JSON.serialize (x :: y :: l')))
      with (JSON.serialize x ++ "," ++
            JSString.join "," (List.map JSON.serialize (y :: l'))).
    rewrite !append_assoc.
    change ("," ++ ?z) with (String "," z).
    apply parse_elements_more
      with (r := JSString.join "," (List.map JSON.serialize (y :: l')) ++
                 String "]" rest).
    + apply Hx; [assumption | lia | reflexivity].
    + apply IH; [discriminate | assumption | assumption | lia].
Qed.

Lemma parse_members_join ps :
  ps <> [] ->
  Forall (fun kv => round_trips (snd kv)) ps ->
  forallb (fun kv => unique_keys (snd kv)) ps = true ->
  forall fuel rest,
    list_sum (List.map (fun kv => S (weight (snd kv))) ps) <= fuel ->
    JSON.parse_members fuel
      (JSString.join "," (List.map member_text ps) ++ String "}" rest) =
    Some (List.map (fun kv => (fst kv, json_value (snd kv))) ps, rest).
Proof.
  induction ps as [|[k v] ps IH]; [intros H; now elim H|].
  intros _ Hall Hu fuel rest Hfuel.
  inversion Hall as [|? ? Hx Hl]. subst. cbn [snd] in Hx.
  cbn [forallb snd] in Hu. apply andb_prop in Hu. destruct Hu as [Hux Hul].
  rewrite list_sum_cons in Hfuel. cbn [snd] in Hfuel.
  destruct fuel as [|fuel]; [lia|].
  destruct ps as [|kv' ps'].
  - cbn [List.map JSString.join]. unfold member_text. cbn [fst snd].
    rewrite !append_assoc.
    destruct (parse_chars_quote_string k
                (":" ++ JSON.serialize v ++ String "}" rest))
      as (body & -> & Hbody).
    apply parse_members_last with (s2 := JSON.serialize v ++ String "}" rest).
    + exact Hbody.
    + apply Hx; [assumption | lia | reflexivity].
  - change (JSString.join "," (List.map member_text ((k, v) :: kv' :: ps')))
      with (member_text (k, v) ++ "," ++
            JSString.join "," (List.map member_text (kv' :: ps'))).
    unfold member_text at 1. cbn [fst snd]. rewrite !append_assoc.
    change ("," ++ ?z) with (String "," z).
    destruct (parse_chars_quote_string k
                (":" ++ JSON.serialize v ++
                 String "," (JSString.join "," (List.map member_text (kv' :: ps')) ++
                             String "}" rest)))
      as (body & -> & Hbody).
    eapply parse_members_more.
    + exact Hbody.
    + apply Hx; [assumption | lia | reflexivity].
    + apply IH; [discriminate | assumption | assumption | lia].
Qed.

Lemma parse_value_string_eq fuel body :
  JSON.parse_value (S fuel) (String JSON.dquote body) =
  match JSON.parse_chars body with
  | Some (t, r) => Some (JStr t, r)
  | None => None
  end.
Proof. reflexivity. Qed.

Lemma parse_value_array_eq fuel rest :
  JSON.parse_value (S fuel) (String "[" rest) =
  match JSON.skip_ws rest with
  | String c' r' =>
      if (nat_of_ascii c' =? 93)%nat then Some (JArr [], r')
      else
        match JSON.parse_elements fuel rest with
        | Some (l, r) => Some (JArr l, r)
        | None => None
        end
  | EmptyString => None
  end.
Proof. reflexivity. Qed.

Lemma parse_value_object_eq fuel rest :
  JSON.parse_value (S fuel) (String "{" rest) =
  match JSON.skip_ws rest with
  | String c' r' =>
      if (nat_of_ascii c' =? 125)%nat then Some (JObj [], r')
      else
        match JSON.parse_members fuel rest with
        | Some (ps, r) => Some (JS.literal ps, r)
        | None => None
        end
  | EmptyString => None
  end.
Proof. reflexivity. Qed.

(** After an opening bracket, a non-empty list starts with a value. *)
Lemma skip_ws_value_start c t :
  value_start c = true ->
  JSON.skip_ws (String c t) = String c t /\
  (nat_of_ascii c =? 93)%nat = false /\ (nat_of_ascii c =? 125)%nat = false.
Proof.
  intros H. destruct (value_start_facts c H) as (Hws & H1 & H2).
  cbn [JSON.skip_ws]. now rewrite Hws.
Qed.

Lemma join_start (texts : list string) x tail :
  (exists c t, x = String c t /\ value_start c = true) ->
  exists c t,
    JSString.join "," (x :: texts) ++ tail = String c t /\ value_start c = true.
Proof.
  intros (c & t & -> & Hc). destruct texts as [|y texts].
  - exists c, (t ++ tail). split; [reflexivity | exact Hc].
  - exists c, ((t ++ "," ++ JSString.join "," (y :: texts)) ++ tail).
    split; [reflexivity | exact Hc].
Qed.

Theorem serialize_round_trips v : round_trips v.
Proof.
  induction v as [| |b|n|s|l IH|ps IH] using JSValue_nested_ind;
    intros Hu fuel rest Hfuel Hb.
  - destruct fuel; [cbn in Hfuel; lia | reflexivity].
  - destruct fuel; [cbn in Hfuel; lia | reflexivity].
  - destruct fuel; [cbn in Hfuel; lia | destruct b; reflexivity].
  - destruct fuel; [cbn in Hfuel; lia|].
    cbn [JSON.serialize json_value].
    destruct (number_start n) as (c & t & E & Hc).
    pose proof (parse_number_to_string n rest Hb) as Hp.
    rewrite E in *. cbn [append] in *.
    now rewrite parse_value_number.
  - destruct fuel; [cbn in Hfuel; lia|].
    cbn [JSON.serialize json_value].
    destruct (parse_chars_quote_string s rest) as (body & -> & Hbody).
    now rewrite parse_value_string_eq, Hbody.
  - destruct fuel; [cbn in Hfuel; lia|].
    cbn [JSON.serialize json_value unique_keys weight] in *.
    assert (Hf : list_sum (List.map (fun x => S (weight x)) l) <= fuel) by lia.
    clear Hfuel.
    rewrite !append_assoc. cbn [append]. rewrite parse_value_array_eq.
    destruct l as [|x l].
    + reflexivity.
    + destruct (join_start (List.map JSON.serialize l) (JSON.serialize x)
                  (String "]" rest) (serialize_start x))
        as (c & t & E & Hc).
      cbn [List.map] in *. cbn [append]. rewrite E.
      destruct (skip_ws_value_start c t Hc) as (-> & -> & _).
      rewrite <- E.
      change (JSON.serialize x :: List.map JSON.serialize l)
        with (List.map JSON.serialize (x :: l)).
      rewrite parse_elements_join; try assumption; try discriminate.
      reflexivity.
  - destruct fuel; [cbn in Hfuel; lia|].
    rewrite serialize_object, json_value_object.
    rewrite weight_object in Hfuel. rewrite unique_keys_object in Hu.
    apply andb_prop in Hu. destruct Hu as [Hd Hvals].
    rewrite !append_assoc. cbn [append]. rewrite parse_value_object_eq.
    assert (IH' : Forall (fun kv => round_trips (snd kv)) (defined_props ps)).
    { apply Forall_forall. intros kv Hin. apply filter_In in Hin.
      rewrite Forall_forall in IH. now apply IH. }
    assert (Hvals' : forallb (fun kv => unique_keys (snd kv)) (defined_props ps)
                     = true).
    { apply forallb_forall. intros kv Hin. apply filter_In in Hin.
      rewrite forallb_forall in Hvals. now apply Hvals. }
    pose proof (defined_keys_distinct ps Hd) as Hd'.
    assert (Hf : list_sum (List.map (fun kv => S (weight (snd kv)))
                             (defined_props ps)) <= fuel) by lia.
    clear Hfuel.
    destruct (defined_props ps) as [|[k x] dps].
    + reflexivity.
    + assert (Hstart : exists c t,
                 member_text (k, x) = String c t /\ value_start c = true).
      { eexists. eexists. split; [reflexivity | reflexivity]. }
      destruct (join_start (List.map member_text dps) (member_text (k, x))
                  (String "}" rest) Hstart)
        as (c & t & E & Hc).
      cbn [List.map] in *. rewrite E.
      destruct (skip_ws_value_start c t Hc) as (-> & _ & ->).
      rewrite <- E.
      change (member_text (k, x) :: List.map member_text dps)
        with (List.map member_text ((k, x) :: dps)).
      rewrite parse_members_join; try assumption; try discriminate.
      now rewrite literal_distinct.
Qed.

(** *** Enough fuel *)

Lemma length_append a b :
  String.length (a ++ b) = (String.length a + String.length b)%nat.
Proof. induction a as [|c a IH]; cbn; [reflexivity | now rewrite IH]. Qed.

Lemma join_length {A} (text : A -> string) (size : A -> nat) l :
  Forall (fun a => size a <= String.length (text a)) l ->
  list_sum (List.map (fun a => S (size a)) l) <=
  S (String.length (JSString.join "," (List.map text l))).
Proof.
  induction l as [|a l IH]; intros H.
  - cbn. lia.
  - inversion H as [|? ? Ha Hl]. subst. specialize (IH Hl).
    rewrite list_sum_cons. destruct l as [|b l'].
    + cbn [List.map list_sum JSString.join]. cbn [list_sum List.map] in IH. cbn. lia.
    + change (JSString.join "," (List.map text (a :: b :: l')))
        with (text a ++ "," ++ JSString.join "," (List.map text (b :: l'))).
      rewrite !length_append. cbn [String.length]. lia.
Qed.

Lemma weight_le_length v : weight v <= String.length (JSON.serialize v).
Proof.
  induction v as [| |b|n|s|l IH|ps IH] using JSValue_nested_ind.
  - cbn. lia.
  - cbn. lia.
  - destruct b; cbn; lia.
  - cbn [weight JSON.serialize].
    destruct (number_start n) as (c & t & -> & _). cbn. lia.
  - cbn. lia.
  - cbn [weight JSON.serialize]. rewrite !length_append. cbn [String.length].
    pose proof (join_length JSON.serialize weight l IH). lia.
  - rewrite weight_object, serialize_object, !length_append.
    cbn [String.length].
    assert (H : Forall (fun kv => weight (snd kv) <= String.length (member_text kv))
                  (defined_props ps)).
    { apply Forall_forall. intros kv Hin. apply filter_In in Hin.
      rewrite Forall_forall in IH. unfold member_text.
      rewrite !length_append. specialize (IH kv (proj1 Hin)). cbn beta in IH. lia. }
    pose proof (join_length member_text (fun kv => weight (snd kv)) _ H). lia.
Qed.

(** [JSON.parse] undoes [JSON.stringify], white space after the text
    allowed. *)
Theorem parse_serialize v trailing :
  unique_keys v = true ->
  boundary trailing = true ->
  JSON.skip_ws trailing = EmptyString ->
  JSON.parse (JSON.serialize v ++ trailing) = Some (json_value v).
Proof.
  intros Hu Hb Hws. unfold JSON.parse.
  rewrite (serialize_round_trips v Hu); [now rewrite Hws | | exact Hb].
  rewrite length_append. pose proof (weight_le_length v). lia.
Qed.

Lemma json_value_clean v : json_clean v = true -> json_value v = v.
Proof.
  induction v as [| |b|n|s|l IH|ps IH] using JSValue_nested_ind;
    try reflexivity; try discriminate.
  - cbn [json_clean json_value]. intros H. f_equal.
    induction l as [|x l IHl]; [reflexivity|].
    inversion IH as [|? ? Hx Hl]. subst.
    cbn [forallb] in H. apply andb_prop in H. destruct H as [H1 H2].
    cbn [List.map]. rewrite Hx, IHl; auto.
  - rewrite json_clean_object, json_value_object. intros H. f_equal.
    induction ps as [|[k x] ps IHps]; [reflexivity|].
    inversion IH as [|? ? Hx Hl]. subst. cbn [snd] in Hx.
    cbn [forallb snd] in H. apply andb_prop in H. destruct H as [H1 H2].
    unfold defined_props. cbn [filter snd].
    destruct x; try discriminate;
      cbn [is_undefined negb List.map fst snd];
      (rewrite Hx by assumption); f_equal; apply IHps; assumption.
Qed.

(** *** One line *)

Lemma single_line_append a b :
  single_line (a ++ b) = single_line a && single_line b.
Proof.
  induction a as [|c a IH]; cbn [append single_line]; [reflexivity|].
  now rewrite IH, andb_assoc.
Qed.

Lemma single_line_escape s : single_line (JSON.escape s) = true.
Proof.
  induction s as [|c s IH]; [reflexivity|].
  cbn [JSON.escape]. rewrite single_line_append, IH, andb_true_r.
  destruct c as [[] [] [] [] [] [] [] []]; reflexivity.
Qed.

Lemma single_line_quote_string s : single_line (JSON.quote_string s) = true.
Proof.
  unfold JSON.quote_string. cbn [single_line].
  rewrite single_line_append, single_line_escape. reflexivity.
Qed.

Lemma single_line_uint d :
  single_line (DecimalString.NilEmpty.string_of_uint d) = true.
Proof. induction d; cbn; assumption || reflexivity. Qed.

Lemma single_line_number n : single_line (JSON.number_to_string n) = true.
Proof.
  unfold JSON.number_to_string.
  destruct n as [|p|p]; cbn [Z.to_int DecimalString.NilZero.string_of_int].
  - reflexivity.
  - rewrite nilzero_nonnil by apply DecimalPos.Unsigned.to_uint_nonnil.
    apply single_line_uint.
  - rewrite nilzero_nonnil by apply DecimalPos.Unsigned.to_uint_nonnil.
    cbn [single_line]. apply single_line_uint.
Qed.

Lemma single_line_join texts :
  forallb single_line texts = true ->
  single_line (JSString.join "," texts) = true.
Proof.
  induction texts as [|x texts IH]; [reflexivity|].
  cbn [forallb]. intros H. apply andb_prop in H. destruct H as [Hx Ht].
  destruct texts as [|y texts]; [exact Hx|].
  change (JSString.join "," (x :: y :: texts))
    with (x ++ "," ++ JSString.join "," (y :: texts)).
  rewrite !single_line_append, Hx, IH by assumption. reflexivity.
Qed.

Lemma single_line_serialize v : single_line (JSON.serialize v) = true.
Proof.
  induction v as [| |b|n|s|l IH|ps IH] using JSValue_nested_ind;
    try reflexivity.
  - now destruct b.
  - apply single_line_number.
  - apply single_line_quote_string.
  - cbn [JSON.serialize]. rewrite !single_line_append, single_line_join;
      [reflexivity|].
    apply forallb_forall. intros t Hin. apply in_map_iff in Hin.
    destruct Hin as (x & <- & Hx). rewrite Forall_forall in IH. now apply IH.
  - rewrite serialize_object, !single_line_append, single_line_join;
      [reflexivity|].
    apply forallb_forall. intros t Hin. apply in_map_iff in Hin.
    destruct Hin as (kv & <- & Hkv). apply filter_In in Hkv.
    unfold member_text.
    rewrite !single_line_append, single_line_quote_string.
    rewrite Forall_forall in IH. rewrite (IH kv (proj1 Hkv)). reflexivity.
Qed.

(** *** Reading a property back *)

Lemma lookup_absent k (ps : list (string * JSValue)) :
  ~ In k (List.map fst ps) -> JS.lookup k ps = JUndefined.
Proof.
  induction ps as [|[k' v] ps IH]; cbn [JS.lookup List.map fst In];
    [reflexivity|].
  intros H. destruct (k' =? k) eqn:E.
  - apply String.eqb_eq in E. elim H. now left.
  - apply IH. intros Hin. apply H. now right.
Qed.

Lemma get_json_value ps k :
  distinct (List.map fst ps) = true ->
  JS.get k (json_value (JObj ps)) = json_property (JS.get k (JObj ps)).
Proof.
  rewrite json_value_object, distinct_NoDup. cbn [JS.get].
  unfold defined_props.
  induction ps as [|[k' v] ps IH]; cbn [List.map fst filter snd JS.lookup];
    [reflexivity|].
  intros H. inversion H as [|? ? Hk Hps]. subst.
  destruct (k' =? k) eqn:E.
  - apply String.eqb_eq in E. subst k'. unfold json_property.
    destruct (is_undefined v) eqn:Ev; cbn [negb List.map JS.lookup fst snd].
    + apply lookup_absent. intros Hin. apply Hk.
      rewrite map_map in Hin. cbn [fst] in Hin.
      apply in_map_iff in Hin. destruct Hin as (kv & <- & Hkv).
      apply in_map. apply filter_In in Hkv. tauto.
    + now rewrite String.eqb_refl.
  - destruct (is_undefined v); cbn [negb List.map JS.lookup fst snd].
    + now apply IH.
    + rewrite E. now apply IH.
Qed.

(** *** The invariant along the pipeline *)

Lemma unique_keys_lookup ps k :
  forallb (fun kv => unique_keys (snd kv)) ps = true ->
  unique_keys (JS.lookup k ps) = true.
Proof.
  induction ps as [|[k' v] ps IH]; cbn [JS.lookup forallb snd]; [reflexivity|].
  intros H. apply andb_prop in H. destruct H as [Hv Hps].
  destruct (k' =? k); auto.
Qed.

Lemma unique_keys_get v k :
  unique_keys v = true -> unique_keys (JS.get k v) = true.
Proof.
  destruct v; try reflexivity.
  - intros _. cbn [JS.get]. now destruct (k =? "length").
  - intros _. cbn [JS.get]. now destruct (k =? "length").
  - rewrite unique_keys_object. intros H. apply andb_prop in H.
    apply unique_keys_lookup. tauto.
Qed.

Lemma in_keys_assign k v ps x :
  In x (List.map fst (JS.assign k v ps)) -> x = k \/ In x (List.map fst ps).
Proof.
  induction ps as [|[k' v'] ps IH]; cbn [JS.assign List.map fst In].
  - intros [H|[]]. now left.
  - destruct (k' =? k) eqn:E; cbn [List.map fst In].
    + apply String.eqb_eq in E. subst k'. tauto.
    + intros [H|H]; [tauto|]. destruct (IH H); tauto.
Qed.

Lemma unique_keys_assign k v ps :
  unique_keys (JObj ps) = true -> unique_keys v = true ->
  unique_keys (JObj (JS.assign k v ps)) = true.
Proof.
  rewrite !unique_keys_object, !andb_true_iff, !distinct_NoDup.
  intros [Hd Hvals] Hv. split.
  - clear Hvals. induction ps as [|[k' v'] ps IH];
      cbn [JS.assign List.map fst].
    + repeat constructor. intros [].
    + cbn [List.map fst] in Hd. inversion Hd as [|? ? Hk Hps]. subst.
      destruct (k' =? k) eqn:E; cbn [List.map fst].
      * apply String.eqb_eq in E. subst k'. now constructor.
      * constructor; [|auto]. intros Hin.
        apply in_keys_assign in Hin. destruct Hin as [->|Hin]; [|auto].
        now rewrite String.eqb_refl in E.
  - clear Hd. induction ps as [|[k' v'] ps IH]; cbn [JS.assign forallb snd].
    + now rewrite Hv.
    + cbn [forallb snd] in Hvals. apply andb_prop in Hvals.
      destruct Hvals as [H1 H2].
      destruct (k' =? k); cbn [forallb snd].
      * now rewrite Hv, H2.
      * now rewrite H1, IH.
Qed.

Lemma json_clean_assign k v ps :
  json_clean (JObj ps) = true -> json_clean v = true ->
  json_clean (JObj (JS.assign k v ps)) = true.
Proof.
  rewrite !json_clean_object. intros Hvals Hv.
  induction ps as [|[k' v'] ps IH]; cbn [JS.assign forallb snd].
  - now rewrite Hv.
  - cbn [forallb snd] in Hvals. apply andb_prop in Hvals.
    destruct Hvals as [H1 H2].
    destruct (k' =? k); cbn [forallb snd].
    + now rewrite Hv, H2.
    + now rewrite H1, IH.
Qed.

Lemma unique_keys_member v k x :
  JS.member v k = inr x -> unique_keys v = true -> unique_keys x = true.
Proof.
  unfold JS.member. destruct (JS.nullish v); [discriminate|].
  intros H Hu. inversion H. now apply unique_keys_get.
Qed.

Lemma unique_keys_optional_chain v k1 k2 x :
  optional_chain v k1 k2 = inr x -> unique_keys v = true ->
  unique_keys x = true.
Proof.
  unfold optional_chain. destruct (JS.nullish v).
  - intros H _. now inversion H.
  - destruct (JS.member v k1) as [e|y] eqn:E1; cbn [bind]; [discriminate|].
    intros E2 Hu. eapply unique_keys_member; [exact E2|].
    eapply unique_keys_member; eassumption.
Qed.

Lemma unique_keys_or_else a b :
  unique_keys a = true -> unique_keys b = true ->
  unique_keys (JS.or_else a b) = true.
Proof. unfold JS.or_else. now destruct (JS.truthy a). Qed.

Lemma mapM_Forall {A B} (f : A -> Res B) (Q : A -> Prop) (R : B -> Prop) :
  (forall a b, Q a -> f a = inr b -> R b) ->
  forall l bs, Forall Q l -> mapM f l = inr bs -> Forall R bs.
Proof.
  intros Hf. induction l as [|a l IH]; intros bs Hl; cbn [mapM].
  - intros H. inversion H. constructor.
  - inversion Hl as [|? ? Ha Hl']. subst.
    destruct (f a) as [e|b] eqn:Ea; cbn [bind]; [discriminate|].
    destruct (mapM f l) as [e|bs'] eqn:El; cbn [bind]; [discriminate|].
    intros H. inversion H. subst. constructor; eauto.
Qed.

Lemma filterM_Forall {A} (f : A -> Res bool) (Q : A -> Prop) :
  forall l kept, Forall Q l -> filterM f l = inr kept -> Forall Q kept.
Proof.
  induction l as [|a l IH]; intros kept Hl; cbn [filterM].
  - intros H. inversion H. constructor.
  - inversion Hl as [|? ? Ha Hl']. subst.
    destruct (f a) as [e|keep] eqn:Ea; cbn [bind]; [discriminate|].
    destruct (filterM f l) as [e|kept'] eqn:El; cbn [bind]; [discriminate|].
    intros H. inversion H. subst. destruct keep; [constructor|]; eauto.
Qed.

Lemma unique_keys_array l : unique_keys (JArr l) = true <-> Forall Unique l.
Proof.
  cbn [unique_keys]. rewrite forallb_forall, Forall_forall. reflexivity.
Qed.

Lemma unique_select_open ports openPorts :
  select_open ports = inr openPorts -> Unique ports -> Forall Unique openPorts.
Proof.
  unfold select_open. intros H Hu.
  destruct ports;
    try (destruct (single_port_is_open _) as [e|[]]; cbn [bind] in H;
         inversion H; repeat constructor; exact Hu).
  apply unique_keys_array in Hu. eapply filterM_Forall; eassumption.
Qed.

Lemma unique_service_attr p k a :
  service_attr p k = inr a -> Unique p -> Unique a.
Proof.
  unfold service_attr. intros H Hu. revert H. repeat step_bind.
  intros H. inversion H. apply unique_keys_or_else; [|reflexivity].
  eapply unique_keys_optional_chain; [eassumption|].
  eapply unique_keys_member; eassumption.
Qed.

Lemma unique_port_entry p e : Unique p -> port_entry p = inr e -> Unique e.
Proof.
  unfold port_entry. intros Hu.
  bind_as attrs E1. bind_as portid E2.
  bind_as service E3. bind_as product E4.
  bind_as version E5. bind_as extra E6.
  intros H. inversion H. unfold Unique. rewrite unique_keys_object.
  cbn [List.map fst forallb snd].
  rewrite (unique_service_attr _ _ _ E3 Hu), (unique_service_attr _ _ _ E4 Hu),
    (unique_service_attr _ _ _ E5 Hu), (unique_service_attr _ _ _ E6 Hu).
  assert (Hp : unique_keys portid = true).
  { eapply unique_keys_member; [exact E2|].
    eapply unique_keys_member; eassumption. }
  rewrite Hp. reflexivity.
Qed.

Lemma unique_script_entry p s e :
  Unique p -> Unique s -> script_entry p s = inr e -> Unique e.
Proof.
  unfold script_entry. intros Hp Hs.
  bind_as attrs E1. bind_as portid E2.
  bind_as sattrs E3. bind_as sid E4. bind_as output E6.
  intros H. inversion H. unfold Unique. rewrite unique_keys_object.
  cbn [List.map fst forallb snd].
  assert (H2 : unique_keys portid = true).
  { eapply unique_keys_member; [exact E2|].
    eapply unique_keys_member; eassumption. }
  assert (H4 : unique_keys sid = true).
  { eapply unique_keys_member; [exact E4|].
    eapply unique_keys_member; eassumption. }
  assert (H6 : unique_keys output = true).
  { eapply unique_keys_member; [exact E6|].
    eapply unique_keys_member; eassumption. }
  rewrite H2, H4, H6. reflexivity.
Qed.

Lemma unique_port_scripts p es :
  Unique p -> port_scripts p = inr es -> Forall Unique es.
Proof.
  unfold port_scripts. intros Hp. bind_as script E.
  assert (Hs : Unique script) by (eapply unique_keys_member; eassumption).
  destruct (JS.truthy script); [|intros H; inversion H; constructor].
  apply mapM_Forall with (Q := Unique).
  - intros s e Hs'. now apply unique_script_entry.
  - destruct script; try (repeat constructor; exact Hs).
    now apply unique_keys_array.
Qed.

Lemma Forall_concat {A} (Q : A -> Prop) (ll : list (list A)) :
  Forall (Forall Q) ll -> Forall Q (List.concat ll).
Proof.
  induction 1 as [|l ll Hl Hll IH]; cbn [List.concat]; [constructor|].
  apply Forall_app. now split.
Qed.

Lemma unique_makeSummary parsed : Unique parsed -> Unique (makeSummary parsed).
Proof.
  intros Hu. unfold makeSummary.
  destruct (makeSummary_try parsed) as [e|s] eqn:Etry; [reflexivity|].
  revert Etry. unfold makeSummary_try, host_of, ports_of.
  destruct (JS.member parsed "nmaprun") as [e|nmaprun] eqn:E1; cbn [bind];
    [discriminate|].
  assert (H1 := unique_keys_member _ _ _ E1 Hu).
  destruct (JS.member nmaprun "host") as [e|host] eqn:E2; cbn [bind];
    [discriminate|].
  assert (H2 := unique_keys_member _ _ _ E2 H1).
  destruct (JS.member host "status") as [e|hstatus] eqn:E3; cbn [bind];
    [discriminate|].
  assert (H3 := unique_keys_member _ _ _ E3 H2).
  destruct (optional_chain hstatus "$" "state") as [e|st] eqn:E4; cbn [bind];
    [discriminate|].
  assert (H4 := unique_keys_optional_chain _ _ _ _ E4 H3).
  destruct (JS.member host "address") as [e|haddress] eqn:E5; cbn [bind];
    [discriminate|].
  assert (H5 := unique_keys_member _ _ _ E5 H2).
  destruct (optional_chain haddress "$" "addr") as [e|ad] eqn:E6; cbn [bind];
    [discriminate|].
  assert (H6 := unique_keys_optional_chain _ _ _ _ E6 H5).
  destruct (JS.member host "ports") as [e|hports] eqn:E7; cbn [bind];
    [discriminate|].
  assert (H7 := unique_keys_member _ _ _ E7 H2).
  assert (Hports : forall ports,
             (if JS.nullish hports then ret JUndefined
              else JS.member hports "port") = inr ports -> Unique ports).
  { intros ports. destruct (JS.nullish hports).
    - intros H. now inversion H.
    - intros H. eapply unique_keys_member; eassumption. }
  destruct (if JS.nullish hports then ret JUndefined else JS.member hports "port")
    as [e|ports]; cbn [bind]; [discriminate|].
  specialize (Hports ports eq_refl).
  destruct (select_open ports) as [e|openPorts] eqn:E8; cbn [bind];
    [discriminate|].
  assert (H8 := unique_select_open _ _ E8 Hports).
  destruct (mapM port_entry openPorts) as [e|portList] eqn:E9; cbn [bind];
    [discriminate|].
  assert (H9 : Forall Unique portList).
  { eapply mapM_Forall; [|exact H8|exact E9]. apply unique_port_entry. }
  destruct (mapM port_scripts openPorts) as [e|nse] eqn:E10; cbn [bind];
    [discriminate|].
  assert (H10 : Forall (Forall Unique) nse).
  { eapply mapM_Forall; [|exact H8|exact E10]. apply unique_port_scripts. }
  intros H. inversion H. unfold Unique. rewrite unique_keys_object.
  cbn [List.map fst forallb snd].
  rewrite (unique_keys_or_else ad (JStr "unknown") H6 eq_refl).
  rewrite (unique_keys_or_else st (JStr "unknown") H4 eq_refl).
  rewrite (proj2 (unique_keys_array portList) H9).
  rewrite (proj2 (unique_keys_array (List.concat nse)) (Forall_concat _ _ H10)).
  reflexivity.
Qed.

Lemma runNmap_payload_plain env it c w :
  unique_keys (payload (fst (runNmap env it c w))) = true /\
  json_clean (payload (fst (runNmap env it c w))) = true.
Proof.
  unfold runNmap. destruct (Node.validateTimeout _); [|split; reflexivity].
  destruct (exec_error _); cbn [fst payload].
  - unfold JS.or_else. destruct (JS.truthy _); split; reflexivity.
  - split; reflexivity.
Qed.

Lemma set_resiliency_plain msg err result :
  is_object result = true ->
  unique_keys err = true -> json_clean err = true ->
  unique_keys result = true -> json_clean result = true ->
  unique_keys (JS.set "resiliency" (resiliency_note msg err) result) = true /\
  json_clean (JS.set "resiliency" (resiliency_note msg err) result) = true.
Proof.
  intros Ho Hu Hc Hur Hcr. destruct result; try discriminate.
  cbn [JS.set]. split.
  - apply unique_keys_assign; [assumption|].
    unfold resiliency_note. rewrite unique_keys_object.
    cbn [List.map fst forallb snd]. now rewrite Hu.
  - apply json_clean_assign; [assumption|].
    unfold resiliency_note. rewrite json_clean_object.
    cbn [forallb snd]. now rewrite Hc.
Qed.

(** The final outcome is a plain JSON object. *)
Lemma scan_plain env it w :
  unique_keys (fst (scan env it w)) = true /\
  json_clean (fst (scan env it w)) = true.
Proof.
  destruct (runNmap env it (cmd it) w) as [[err|result] w1] eqn:H.
  - rewrite (scan_unfold_rejected _ _ _ _ _ H).
    destruct (runNmap_payload_plain env it (cmd it) w) as (Hu & Hc).
    rewrite H in Hu, Hc. cbn [fst payload] in Hu, Hc.
    destruct (downMsg err && negb (alreadyPn it)); [|now split].
    cbn [fst].
    destruct (runNmap_payload_plain env it (resilientCmd it) w1) as (Hu2 & Hc2).
    apply set_resiliency_plain; try assumption. apply runNmap_object.
  - unfold scan. rewrite H.
    destruct (runNmap_payload_plain env it (cmd it) w) as (Hu & Hc).
    rewrite H in Hu, Hc. now split.
Qed.

Lemma summarize_summary env it scanResult :
  (forall s p, parseStringPromise env s = inr p -> unique_keys p = true) ->
  unique_keys (snd (summarize env it scanResult)) = true /\
  is_undefined (snd (summarize env it scanResult)) = false.
Proof.
  intros Hxml. unfold summarize.
  destruct (_ && _); [|now split].
  destruct (JS.get "output" scanResult); try now split.
  destruct (parseStringPromise env s) as [e|parsed] eqn:E; cbn [snd].
  - now split.
  - split; [apply unique_makeSummary; now apply Hxml with s|].
    unfold makeSummary. destruct (makeSummary_try parsed) as [e|x] eqn:Et;
      [reflexivity|].
    apply makeSummary_try_shape in Et. now destruct x.
Qed.

Lemma historyObj_unique ts it scanResult summary :
  unique_keys scanResult = true -> unique_keys summary = true ->
  unique_keys (historyObj ts it scanResult summary) = true.
Proof.
  intros Hs Hsum. unfold historyObj.
  assert (Hbase : unique_keys
            (JObj [("timestamp", JStr ts); ("target", JStr (target it));
                   ("flags", JStr (derive_flags it));
                   ("format", JStr (outputFormat it)); ("summary", summary)])
          = true).
  { rewrite unique_keys_object. cbn [List.map fst forallb snd].
    now rewrite Hsum. }
  assert (Herr : unique_keys
            (JObj (if JS.truthy (JS.get "error" scanResult)
                   then JS.assign "error" scanResult
                          [("timestamp", JStr ts); ("target", JStr (target it));
                           ("flags", JStr (derive_flags it));
                           ("format", JStr (outputFormat it));
                           ("summary", summary)]
                   else [("timestamp", JStr ts); ("target", JStr (target it));
                         ("flags", JStr (derive_flags it));
                         ("format", JStr (outputFormat it));
                         ("summary", summary)])) = true).
  { destruct (JS.truthy (JS.get "error" scanResult)); [|exact Hbase].
    now apply unique_keys_assign. }
  destruct (JS.truthy (JS.get "resiliency" scanResult)); [|exact Herr].
  apply unique_keys_assign; [exact Herr|]. now apply unique_keys_get.
Qed.

Lemma historyObj_error ts it scanResult summary :
  JS.get "error" scanResult = JBool true ->
  JS.get "error" (historyObj ts it scanResult summary) = scanResult.
Proof.
  intros H. unfold historyObj. rewrite H. cbn [JS.truthy JS.get].
  destruct (JS.truthy (JS.get "resiliency" scanResult)).
  - rewrite lookup_assign_other by discriminate. apply lookup_assign_same.
  - apply lookup_assign_same.
Qed.

Lemma historyObj_keys_distinct ts it scanResult summary ps :
  unique_keys (historyObj ts it scanResult summary) = true ->
  historyObj ts it scanResult summary = JObj ps ->
  distinct (List.map fst ps) = true.
Proof.
  intros Hu E. rewrite E, unique_keys_object in Hu.
  apply andb_prop in Hu. tauto.
Qed.

Lemma is_undefined_object v : is_object v = true -> is_undefined v = false.
Proof. now destruct v. Qed.

(** C7, as amended: the chunk appended for an item is the JSON text of
    the history record followed by a newline, with no newline inside;
    [JSON.parse] of that line gives back the record's timestamp, target,
    flags and format strings and, for a failure, the failure payload
    itself.  The summary comes back as [json_value summary]: a property
    whose value is [undefined] is not written and is absent afterwards;
    a summary without such a property comes back as it was.  The
    hypothesis on [parseStringPromise] is the invariant of the
    representation: a JavaScript object has each key once. *)
Theorem history_round_trip env it w out w3 :
  (forall s p, parseStringPromise env s = inr p -> unique_keys p = true) ->
  process_item env it w = (inr out, w3) ->
  saveHistory it = true ->
  let final := fst (scan env it w) in
  let summary := snd (summarize env it final) in
  exists (text : string) (back : JSValue),
    history w3 =
      (history w ++ [(text ++ String (ascii_of_nat 10) "")%string])%list /\
    single_line text = true /\
    JSON.parse (text ++ String (ascii_of_nat 10) "") = Some back /\
    JS.get "timestamp" back = JStr (toISOString env (snd (scan env it w))) /\
    JS.get "target" back = JStr (target it) /\
    JS.get "flags" back = JStr (derive_flags it) /\
    JS.get "format" back = JStr (outputFormat it) /\
    JS.get "summary" back = json_value summary /\
    (json_clean summary = true -> JS.get "summary" back = summary) /\
    (JS.get "error" final = JBool true -> JS.get "error" back = final).
Proof.
  intros Hxml Hout Hsave. cbv zeta.
  destruct (process_item_emitted _ _ _ _ _ Hout) as (_ & _ & [(_ & _ & Hh)|(Hf & _)]);
    [|congruence].
  destruct (scan_plain env it w) as (Hu & Hc).
  destruct (summarize_summary env it (fst (scan env it w)) Hxml) as (Hus & Hds).
  set (final := fst (scan env it w)) in *.
  set (summary := snd (summarize env it final)) in *.
  set (ts := toISOString env (snd (scan env it w))) in *.
  pose proof (historyObj_unique ts it final summary Hu Hus) as Hrec.
  destruct (historyObj ts it final summary) as [| | | | | |ps] eqn:Eobj;
    try (unfold historyObj in Eobj; discriminate).
  pose proof (historyObj_keys_distinct ts it final summary ps
                ltac:(now rewrite Eobj) Eobj) as Hd.
  exists (JSON.serialize (JObj ps)), (json_value (JObj ps)).
  split; [exact Hh|]. split; [apply single_line_serialize|].
  split; [now apply parse_serialize|].
  rewrite !get_json_value by assumption. rewrite <- Eobj.
  rewrite !get_historyObj by discriminate.
  cbn [JS.lookup String.eqb Ascii.eqb Bool.eqb json_property is_undefined
       json_value].
  repeat (split; [reflexivity|]).
  unfold json_property. rewrite Hds.
  split; [reflexivity|]. split.
  - intros Hclean. now apply json_value_clean.
  - intros He. rewrite historyObj_error by assumption.
    rewrite (is_undefined_object final) by apply scan_object.
    now apply json_value_clean.
Qed.


Lemma history_round_trip_witness :
  exists (text : string) (back : JSValue),
    history (snd (process_item Scenario.host_down Scenario.quick_xml
                    Scenario.start)) =
      [(text ++ String (ascii_of_nat 10) "")%string] /\
    JSON.parse (text ++ String (ascii_of_nat 10) "") = Some back /\
    JS.get "target" back = JStr "scanme.nmap.org" /\
    JS.get "flags" back = JStr "-T4 -F" /\
    JS.get "summary" back = makeSummary Scenario.document.
Proof.
  assert (Hxml : forall s p,
             parseStringPromise Scenario.host_down s = inr p ->
             unique_keys p = true).
  { intros s p H. inversion H. reflexivity. }
  destruct (history_round_trip Scenario.host_down Scenario.quick_xml
              Scenario.start _ _ Hxml eq_refl eq_refl)
    as (text & back & Hh & _ & Hp & _ & Ht & Hf & _ & _ & Hs & _).
  exists text, back. repeat split; try assumption.
  apply Hs. reflexivity.
Defined.

(** C7, as stated, fails: the summary of a document whose open port has
    no [portid] holds [port: undefined]; the line does not mention
    [port], and the entry parsed back has one key fewer. *)
Lemma history_round_trip_counterexample :
  let final :=
    fst (scan Scenario.unnumbered_port Scenario.quick_xml Scenario.start) in
  let summary :=
    snd (summarize Scenario.unnumbered_port Scenario.quick_xml final) in
  exists (line : string) (back : JSValue),
    history (snd (process_item Scenario.unnumbered_port Scenario.quick_xml
                    Scenario.start)) = [line] /\
    JSON.parse line = Some back /\
    is_scan_summary summary = true /\
    JS.get "openPorts" summary =
      JArr [JObj [("port", JUndefined); ("service", JStr ""); ("product", JStr "");
                  ("version", JStr ""); ("extra", JStr "")]] /\
    JS.get "openPorts" (JS.get "summary" back) =
      JArr [JObj [("service", JStr ""); ("product", JStr "");
                  ("version", JStr ""); ("extra", JStr "")]] /\
    JS.get "summary" back <> summary.
Proof.
  cbv zeta. eexists. eexists.
  split; [reflexivity|]. split; [vm_compute; reflexivity|].
  split; [reflexivity|]. split; [reflexivity|]. split; [reflexivity|].
  discriminate.
Qed.

(** * Further properties of the code *)

(** ** More on summary extraction *)

Lemma mapM_length {A B} (f : A -> Res B) l bs :
  mapM f l = inr bs -> List.length bs = List.length l.
Proof.
  revert bs. induction l as [|a l IH]; intros bs; cbn [mapM].
  - intros H. now inversion H.
  - destruct (f a) as [e|b]; cbn [bind]; [discriminate|].
    destruct (mapM f l) as [e|bs']; cbn [bind]; [discriminate|].
    intros H. inversion H. cbn. now rewrite (IH bs').
Qed.

Lemma mapM_In_result {A B} (f : A -> Res B) l bs b :
  mapM f l = inr bs -> In b bs -> exists a, In a l /\ f a = inr b.
Proof.
  revert bs. induction l as [|a l IH]; intros bs; cbn [mapM].
  - intros H. inversion H. intros [].
  - destruct (f a) as [e|b0] eqn:Ea; cbn [bind]; [discriminate|].
    destruct (mapM f l) as [e|bs'] eqn:El; cbn [bind]; [discriminate|].
    intros H. inversion H. subst. intros [<-|Hin].
    + exists a. split; [now left | exact Ea].
    + destruct (IH bs' eq_refl Hin) as (a' & Ha' & Hf).
      exists a'. split; [now right | exact Hf].
Qed.

Lemma mapM_In_source {A B} (f : A -> Res B) l bs a :
  mapM f l = inr bs -> In a l -> exists b, In b bs /\ f a = inr b.
Proof.
  revert bs. induction l as [|a0 l IH]; intros bs; cbn [mapM].
  - intros _ [].
  - destruct (f a0) as [e|b0] eqn:Ea; cbn [bind]; [discriminate|].
    destruct (mapM f l) as [e|bs'] eqn:El; cbn [bind]; [discriminate|].
    intros H. inversion H. subst. intros [<-|Hin].
    + exists b0. split; [now left | exact Ea].
    + destruct (IH bs' eq_refl Hin) as (b & Hb & Hf).
      exists b. split; [now right | exact Hf].
Qed.

Lemma mapM_map {A B C} (f : A -> Res B) (g : B -> C) (h : A -> C) l bs :
  (forall a b, f a = inr b -> g b = h a) ->
  mapM f l = inr bs -> List.map g bs = List.map h l.
Proof.
  intros Hf. revert bs. induction l as [|a l IH]; intros bs; cbn [mapM].
  - intros H. now inversion H.
  - destruct (f a) as [e|b0] eqn:Ea; cbn [bind]; [discriminate|].
    destruct (mapM f l) as [e|bs'] eqn:El; cbn [bind]; [discriminate|].
    intros H. inversion H. subst. cbn [List.map].
    now rewrite (Hf _ _ Ea), (IH bs').
Qed.

Lemma mapM_total {A B} (f : A -> Res B) l :
  (forall a, In a l -> exists b, f a = inr b) ->
  exists bs, mapM f l = inr bs.
Proof.
  induction l as [|a l IH]; intros H; cbn [mapM].
  - eexists. reflexivity.
  - destruct (H a (or_introl eq_refl)) as (b & ->). cbn [bind].
    destruct IH as (bs & ->); [intros a' Ha'; apply H; now right|].
    cbn [bind]. eexists. reflexivity.
Qed.

(** The [try] block of [makeSummary], when it ends normally. *)
Lemma makeSummary_try_inv parsed s :
  makeSummary_try parsed = inr s ->
  exists host ports openPorts portList nseResults address status,
    host_of parsed = inr host /\
    ports_of host = inr ports /\
    select_open ports = inr openPorts /\
    mapM port_entry openPorts = inr portList /\
    mapM port_scripts openPorts = inr nseResults /\
    JS.truthy address = true /\ JS.truthy status = true /\
    s = JObj [("address", address);
              ("status", status);
              ("openPorts", JArr portList);
              ("totalOpen", JNum (Z.of_nat (List.length openPorts)));
              ("vulns", JArr (List.concat nseResults))].
Proof.
  unfold makeSummary_try.
  bind_as host E1. bind_as hstatus E2. bind_as st E3.
  bind_as haddress E4. bind_as ad E5. bind_as ports E6.
  bind_as openPorts E7. bind_as portList E8. bind_as nseResults E9.
  intros H. inversion H.
  exists host, ports, openPorts, portList, nseResults,
    (JS.or_else ad (JStr "unknown")), (JS.or_else st (JStr "unknown")).
  repeat split; try assumption;
    unfold JS.or_else;
    match goal with |- JS.truthy (if ?b then _ else _) = true =>
      destruct b eqn:Eb; [exact Eb | reflexivity] end.
Qed.

Lemma makeSummary_scan_summary parsed :
  is_scan_summary (makeSummary parsed) = true ->
  makeSummary_try parsed = inr (makeSummary parsed).
Proof.
  unfold makeSummary. destruct (makeSummary_try parsed) as [e|s]; [|reflexivity].
  discriminate.
Qed.

(** X1: whenever [makeSummary] returns a summary, [totalOpen] is the
    number of entries of [openPorts], and [status] and [address] are
    never empty: what is missing reads "unknown". *)
Theorem totalOpen_counts_openPorts parsed :
  is_scan_summary (makeSummary parsed) = true ->
  exists entries,
    JS.get "openPorts" (makeSummary parsed) = JArr entries /\
    JS.get "totalOpen" (makeSummary parsed) =
      JNum (Z.of_nat (List.length entries)) /\
    JS.truthy (JS.get "status" (makeSummary parsed)) = true /\
    JS.truthy (JS.get "address" (makeSummary parsed)) = true.
Proof.
  intros H. apply makeSummary_scan_summary in H.
  destruct (makeSummary_try_inv _ _ H)
    as (host & ports & openPorts & portList & nse & address & status &
        _ & _ & _ & Hpl & _ & Ha & Hs & ->).
  exists portList. rewrite (mapM_length _ _ _ Hpl). repeat split; assumption.
Qed.

Lemma port_entry_fields p e :
  port_entry p = inr e ->
  JS.get "port" e = portid_of p /\
  forall k, In k ["service"; "product"; "version"; "extra"] ->
            JS.truthy (JS.get k e) = true \/ JS.get k e = JStr "".
Proof.
  unfold port_entry, portid_of.
  bind_as attrs E1. bind_as portid E2.
  assert (Hattr : forall k a, service_attr p k = inr a ->
                              JS.truthy a = true \/ a = JStr "").
  { intros k a. unfold service_attr.
    bind_as svc Es. bind_as x Ex. intros H. inversion H.
    unfold JS.or_else. destruct (JS.truthy x) eqn:Et; [now left | now right]. }
  bind_as service E3. bind_as product E4. bind_as version E5. bind_as extra E6.
  intros H. inversion H. split.
  - unfold JS.member in E1, E2.
    destruct (JS.nullish p); [discriminate|]. inversion E1. subst attrs.
    destruct (JS.nullish (JS.get "$" p)); [discriminate|]. now inversion E2.
  - intros k [<-|[<-|[<-|[<-|[]]]]]; cbn; eauto.
Qed.

Lemma script_entry_port p s f :
  script_entry p s = inr f -> JS.get "port" f = portid_of p.
Proof.
  unfold script_entry, portid_of.
  bind_as attrs E1. bind_as portid E2. bind_as sattrs E3.
  bind_as sid E4. bind_as output E5.
  intros H. inversion H. unfold JS.member in E1, E2.
  destruct (JS.nullish p); [discriminate|]. inversion E1. subst attrs.
  destruct (JS.nullish (JS.get "$" p)); [discriminate|]. now inversion E2.
Qed.

Lemma port_scripts_port p fs f :
  port_scripts p = inr fs -> In f fs -> JS.get "port" f = portid_of p.
Proof.
  unfold port_scripts. bind_as script E.
  destruct (JS.truthy script); [|intros H; inversion H; intros []].
  intros H Hin. destruct (mapM_In_result _ _ _ _ H Hin) as (s & _ & Hs).
  now apply script_entry_port with s.
Qed.

(** X2: every finding in [vulns] carries the port of an entry of
    [openPorts]: script results are reported for open ports only. *)
Theorem findings_belong_to_open_ports parsed entries findings finding :
  JS.get "openPorts" (makeSummary parsed) = JArr entries ->
  JS.get "vulns" (makeSummary parsed) = JArr findings ->
  In finding findings ->
  exists entry, In entry entries /\ JS.get "port" entry = JS.get "port" finding.
Proof.
  intros Ho Hv Hin.
  destruct (makeSummary_cases parsed) as [(s & Ht & Hm & _)|(e & _ & Hm)];
    rewrite Hm in *; [|discriminate].
  destruct (makeSummary_try_inv _ _ Ht)
    as (host & ports & openPorts & portList & nse & address & status &
        _ & _ & _ & Hpl & Hnse & _ & _ & ->).
  cbn in Ho, Hv. inversion Ho. inversion Hv. subst.
  apply in_concat in Hin. destruct Hin as (fs & Hfs & Hf).
  destruct (mapM_In_result _ _ _ _ Hnse Hfs) as (p & Hp & Hps).
  destruct (mapM_In_source _ _ _ _ Hpl Hp) as (entry & Hentry & Hpe).
  exists entry. split; [exact Hentry|].
  rewrite (proj1 (port_entry_fields _ _ Hpe)).
  symmetry. now apply port_scripts_port with fs.
Qed.

(** X3: in every entry of [openPorts] the fields [service], [product],
    [version] and [extra] are a truthy value or the empty string, never
    [undefined] or [null]. *)
Theorem service_fields_default_to_empty parsed entries entry k :
  JS.get "openPorts" (makeSummary parsed) = JArr entries ->
  In entry entries ->
  In k ["service"; "product"; "version"; "extra"] ->
  (JS.truthy (JS.get k entry) = true \/ JS.get k entry = JStr "") /\
  JS.nullish (JS.get k entry) = false.
Proof.
  intros Ho Hin Hk.
  destruct (makeSummary_cases parsed) as [(s & Ht & Hm & _)|(e & _ & Hm)];
    rewrite Hm in *; [|discriminate].
  destruct (makeSummary_try_inv _ _ Ht)
    as (host & ports & openPorts & portList & nse & address & status &
        _ & _ & _ & Hpl & _ & _ & _ & ->).
  cbn in Ho. inversion Ho. subst.
  destruct (mapM_In_result _ _ _ _ Hpl Hin) as (p & _ & Hpe).
  destruct (proj2 (port_entry_fields _ _ Hpe) k Hk) as [H|H].
  - split; [now left|]. now destruct (JS.get k entry).
  - split; [now right|]. now rewrite H.
Qed.

(** X4: when [nmaprun.host] is a list (nmap scanned several hosts) or
    a bare string, nothing of it is read: the summary is "unknown" with
    no open port, whatever the hosts contain. *)
Theorem summary_of_several_hosts parsed host :
  host_of parsed = inr host ->
  JS.nullish host = false ->
  is_object host = false ->
  makeSummary parsed =
  JObj [("address", JStr "unknown");
        ("status", JStr "unknown");
        ("openPorts", JArr []);
        ("totalOpen", JNum 0);
        ("vulns", JArr [])].
Proof.
  intros Hh Hn Ho. unfold makeSummary, makeSummary_try. rewrite Hh.
  destruct host; try discriminate; reflexivity.
Qed.

(** X5: a document without a readable [nmaprun.host] (an empty output,
    which xml2js resolves to [null]; another root element; a run in
    which no host answered) gives the error marker of a [TypeError], not
    a summary. *)
Theorem summary_without_host parsed :
  has_host parsed = false ->
  exists e,
    makeSummary parsed = error_marker e /\
    err_name e = "TypeError" /\
    is_error_marker (makeSummary parsed) = true /\
    JS.get "openPorts" (makeSummary parsed) = JUndefined.
Proof.
  unfold has_host, makeSummary, makeSummary_try.
  destruct (host_of parsed) as [e|host] eqn:Hh; cbn [bind].
  - intros _. exists e. repeat split.
    unfold host_of, JS.member in Hh.
    destruct (JS.nullish parsed); [now inversion Hh|]. cbn [bind] in Hh.
    destruct (JS.nullish (JS.get "nmaprun" parsed)); [now inversion Hh|].
    discriminate.
  - intros Hn. apply negb_false_iff in Hn.
    assert (E : JS.member host "status" = inl (JS.read_error host "status")).
    { unfold JS.member. now rewrite Hn. }
    rewrite E. cbn [bind]. eexists. repeat split.
Qed.

Lemma port_is_open_stated p :
  JS.nullish p = false -> has_attributes (JS.get "state" p) = true ->
  port_is_open p = inr (open_state p).
Proof.
  intros Hp Hs. destruct (has_attributes_inv _ Hs) as (H1 & H2 & _).
  unfold port_is_open. rewrite !member_ok by assumption. cbn [bind].
  rewrite !member_ok by assumption. cbn [bind].
  rewrite !member_ok by assumption. reflexivity.
Qed.

Lemma filterM_stated l :
  forallb stated_port l = true ->
  filterM port_is_open l = inr (List.filter open_state l).
Proof.
  induction l as [|p l IH]; cbn [forallb filterM filter]; [reflexivity|].
  intros H. apply andb_prop in H. destruct H as [Hp Hl].
  unfold stated_port in Hp. apply andb_prop in Hp. destruct Hp as [Hrec Hst].
  unfold port_record in Hrec. apply andb_prop in Hrec. destruct Hrec as [Hrec _].
  apply andb_prop in Hrec. destruct Hrec as [Hattrs _].
  destruct (has_attributes_inv _ Hattrs) as (Hn & _ & _).
  rewrite port_is_open_stated, IH by assumption. cbn [bind].
  now destruct (open_state p).
Qed.

Lemma port_record_entries p :
  port_record p = true ->
  (exists e, port_entry p = inr e) /\ (exists fs, port_scripts p = inr fs).
Proof.
  unfold port_record. intros H. apply andb_prop in H. destruct H as [H Hscripts].
  apply andb_prop in H. destruct H as [Hattrs Hsvc]. split.
  - now apply port_entry_ok.
  - now apply port_scripts_ok.
Qed.

(** X6: for a host whose [status] and [address] children are each
    absent or one element with attributes, and whose ports are a list of
    port elements that each carry attributes and a [state] child with
    attributes (their service child absent or one element with
    attributes, their script children with attributes), [openPorts]
    holds one entry per port in the [open] state, in document order,
    with that port's [portid]; ports in any other state are left out. *)
Theorem openPorts_of_port_list parsed host l :
  host_of parsed = inr host ->
  host_record host = true ->
  ports_of host = inr (JArr l) ->
  forallb stated_port l = true ->
  exists entries,
    JS.get "openPorts" (makeSummary parsed) = JArr entries /\
    List.map (JS.get "port") entries =
      List.map portid_of (List.filter open_state l) /\
    JS.get "totalOpen" (makeSummary parsed) =
      JNum (Z.of_nat (List.length (List.filter open_state l))).
Proof.
  intros Hh Hr Hp Hl.
  destruct (makeSummary_try_host _ _ _ Hh Hr Hp) as (address & status & Ht).
  unfold makeSummary. rewrite Ht. clear Ht.
  cbn [select_open]. rewrite filterM_stated by assumption. cbn [bind].
  assert (Hrec : forall p, In p (List.filter open_state l) -> port_record p = true).
  { intros p Hin. apply filter_In in Hin. destruct Hin as [Hin _].
    rewrite forallb_forall in Hl. specialize (Hl p Hin).
    unfold stated_port in Hl. apply andb_prop in Hl. tauto. }
  destruct (mapM_total port_entry (List.filter open_state l)) as (entries & He).
  { intros p Hin. apply port_record_entries. auto. }
  destruct (mapM_total port_scripts (List.filter open_state l)) as (nse & Hn).
  { intros p Hin. apply port_record_entries. auto. }
  rewrite He, Hn. cbn [bind ret]. exists entries. repeat split.
  apply mapM_map with (f := port_entry); [|exact He].
  intros p e Hpe. apply (port_entry_fields _ _ Hpe).
Qed.

Lemma filterM_stateless l p :
  In p l -> JS.nullish p = false -> JS.nullish (JS.get "state" p) = true ->
  exists e, filterM port_is_open l = inl e.
Proof.
  intros Hin Hp Hs. induction l as [|q l IH]; [destruct Hin|].
  cbn [filterM]. destruct (port_is_open q) as [e|keep] eqn:Eq; cbn [bind].
  - now exists e.
  - destruct Hin as [->|Hin].
    + unfold port_is_open in Eq. rewrite member_ok in Eq by assumption.
      cbn [bind] in Eq. unfold JS.member at 1 in Eq. rewrite Hs in Eq.
      discriminate.
    + destruct (IH Hin) as (e & ->). cbn [bind]. now exists e.
Qed.

(** X7: for a host whose [status] and [address] children are each
    absent or one element with attributes, a port element without a
    [state] child is skipped when it is the only port (the single record
    is tested with [?.]), but inside a list of ports it makes the whole
    summary an error marker (the filter reads [p.state.$] directly). *)
Theorem port_without_state parsed host ports :
  host_of parsed = inr host ->
  host_record host = true ->
  ports_of host = inr ports ->
  (JS.isArray ports = false ->
   JS.nullish (JS.get "state" ports) = true ->
   JS.get "openPorts" (makeSummary parsed) = JArr [] /\
   JS.get "totalOpen" (makeSummary parsed) = JNum 0) /\
  (forall l p,
     ports = JArr l -> In p l ->
     JS.nullish p = false -> JS.nullish (JS.get "state" p) = true ->
     is_error_marker (makeSummary parsed) = true).
Proof.
  intros Hh Hr Hp.
  destruct (makeSummary_try_host _ _ _ Hh Hr Hp) as (address & status & Ht).
  unfold makeSummary. rewrite Ht. clear Ht. split.
  - intros Harr Hs.
    assert (Hsel : select_open ports = inr []).
    { unfold select_open, single_port_is_open.
      destruct ports; try discriminate; try reflexivity;
        (destruct (JS.truthy _); [|reflexivity]);
        rewrite member_ok by reflexivity; cbn [bind];
        unfold optional_chain; rewrite Hs; reflexivity. }
    rewrite Hsel. now split.
  - intros l p -> Hin Hn Hs. cbn [select_open].
    destruct (filterM_stateless l p Hin Hn Hs) as (e & ->). reflexivity.
Qed.

(** ** More on the scan and its outcome *)

Lemma settle_fields it c reply :
  is_object (payload (settle it c reply)) = true /\
  JS.get "cmd" (payload (settle it c reply)) = JStr c /\
  JS.get "error" (payload (settle it c reply)) = JBool (failed reply) /\
  JS.get "resiliency" (payload (settle it c reply)) = JUndefined /\
  JS.get "parsed" (payload (settle it c reply)) = JUndefined /\
  keys (payload (settle it c reply)) =
    (if failed reply
     then ["error"; "message"; "details"; "cmd"; "stdout"; "stderr"]
     else ["error"; "target"; "cmd"; "output"; "format"; "flags"]) /\
  (failed reply = false ->
   settle it c reply =
   inr (JObj [("error", JBool false); ("target", JStr (target it));
              ("cmd", JStr c); ("output", JStr (exec_stdout reply));
              ("format", JStr (outputFormat it));
              ("flags", JStr (derive_flags it))])) /\
  (failed reply = true ->
   exists details,
     (details = exec_stderr reply \/ exec_stderr reply = "") /\
     settle it c reply =
     inl (JObj [("error", JBool true);
                ("message", JStr "Nmap execution failed");
                ("details", JStr details); ("cmd", JStr c);
                ("stdout", JStr (exec_stdout reply));
                ("stderr", JStr (exec_stderr reply))])).
Proof.
  unfold settle, failed.
  destruct (exec_error reply) as [m|]; cbn [payload].
  - repeat split; try discriminate. intros _.
    unfold JS.or_else. cbn [JS.truthy].
    destruct (exec_stderr reply) as [|a s]; cbn [String.eqb negb].
    + exists m. split; [now right | reflexivity].
    + exists (String a s). split; [now left | reflexivity].
  - repeat split; discriminate.
Qed.

(** The three courses of a scan. *)
Lemma scan_courses env it w :
  let t := exec_timeout it in
  let r1 := exec env w (cmd it) t in
  let w1 := mkWorld (calls w ++ [(cmd it, t)]) (history w) in
  let r2 := exec env w1 (resilientCmd it) t in
  let w2 := mkWorld ((calls w ++ [(cmd it, t)]) ++ [(resilientCmd it, t)])
                    (history w) in
  (Node.validateTimeout t = false /\ attempts env it w = 1 /\
   scan env it w = (Node.ERR_OUT_OF_RANGE, w1)) \/
  (Node.validateTimeout t = true /\ attempts env it w = 1 /\
   scan env it w = (payload (settle it (cmd it) r1), w1)) \/
  (Node.validateTimeout t = true /\ attempts env it w = 2 /\
   failed r1 = true /\
   exists msg,
     scan env it w =
     (JS.set "resiliency"
        (resiliency_note msg (payload (settle it (cmd it) r1)))
        (payload (settle it (resilientCmd it) r2)), w2)).
Proof.
  cbv zeta.
  destruct (Node.validateTimeout (exec_timeout it)) eqn:Hv.
  - right.
    pose proof (runNmap_settle env it (cmd it) w) as H1. rewrite Hv in H1.
    destruct (settle it (cmd it) (exec env w (cmd it) (exec_timeout it)))
      as [err|result] eqn:Es.
    + pose proof (attempts_rejected _ _ _ _ _ H1) as Ha.
      rewrite (scan_unfold_rejected _ _ _ _ _ H1). rewrite Ha.
      destruct (downMsg err && negb (alreadyPn it)).
      * right. split; [reflexivity|]. split; [reflexivity|]. split.
        -- destruct (settle_fields it (cmd it)
                       (exec env w (cmd it) (exec_timeout it)))
             as (_ & _ & _ & _ & _ & _ & Hok & _).
           destruct (failed _); [reflexivity|].
           rewrite Hok in Es by reflexivity. discriminate.
        -- rewrite runNmap_settle, Hv. cbn [fst snd calls history payload].
           eexists. reflexivity.
      * left. repeat split.
    + left. unfold attempts, scan. rewrite H1. cbn [fst snd calls payload].
      rewrite length_app. cbn. repeat split. lia.
  - left. split; [reflexivity|]. rewrite (scan_refused env it w Hv).
    unfold attempts. rewrite (scan_refused env it w Hv). cbn [snd calls].
    rewrite length_app. cbn. split; [lia | reflexivity].
Qed.

Lemma keys_assign_fresh k v ps :
  ~ In k (List.map fst ps) ->
  List.map fst (JS.assign k v ps) = (List.map fst ps ++ [k])%list.
Proof. intros H. rewrite assign_fresh by assumption. now rewrite map_app. Qed.

(** The note is there exactly after a second invocation. *)
Lemma resiliency_after_second env it w :
  JS.truthy (JS.get "resiliency" (fst (scan env it w))) =
  (attempts env it w =? 2)%nat.
Proof.
  destruct (scan_courses env it w)
    as [(_ & Ha & Hs)|[(_ & Ha & Hs)|(_ & Ha & _ & msg & Hs)]];
    rewrite Hs, Ha; cbn [fst Nat.eqb].
  - reflexivity.
  - set (reply := exec env w (cmd it) (exec_timeout it)).
    destruct (settle_fields it (cmd it) reply) as (_ & _ & _ & Hr & _).
    now rewrite Hr.
  - set (reply := exec env _ (resilientCmd it) (exec_timeout it)).
    destruct (settle_fields it (resilientCmd it) reply) as (Ho & _).
    destruct (payload (settle it (resilientCmd it) reply)) as [| | | | | |ps];
      try discriminate.
    cbn [JS.set JS.get]. now rewrite lookup_assign_same.
Qed.

(** X8: when [exec] accepts the timeout, the outcome of a scan reports
    the last process spawned for the item: [cmd] is its command line and
    [error] tells whether it failed; a success carries its standard
    output and the item's own target, format and base flags, a failure
    its standard output and error text.  When [exec] refuses the timeout
    the outcome is its exception, after one call, and has neither [cmd]
    nor [error]. *)
Theorem outcome_reports_last_process env it w :
  (Node.validateTimeout (exec_timeout it) = true ->
   exists earlier c,
     calls (snd (scan env it w)) = (earlier ++ [(c, exec_timeout it)])%list /\
     let reply := exec env (mkWorld earlier (history w)) c (exec_timeout it) in
     let final := fst (scan env it w) in
     JS.get "cmd" final = JStr c /\
     JS.get "error" final = JBool (failed reply) /\
     (failed reply = false ->
      JS.get "output" final = JStr (exec_stdout reply) /\
      JS.get "target" final = JStr (target it) /\
      JS.get "format" final = JStr (outputFormat it) /\
      JS.get "flags" final = JStr (derive_flags it)) /\
     (failed reply = true ->
      JS.get "message" final = JStr "Nmap execution failed" /\
      JS.get "stdout" final = JStr (exec_stdout reply) /\
      JS.get "stderr" final = JStr (exec_stderr reply) /\
      JS.get "target" final = JUndefined)) /\
  (Node.validateTimeout (exec_timeout it) = false ->
   scan env it w =
     (JObj [("code", JStr "ERR_OUT_OF_RANGE")],
      mkWorld (calls w ++ [(cmd it, exec_timeout it)]) (history w)) /\
   spawned (calls (snd (scan env it w))) = spawned (calls w) /\
   JS.get "cmd" (fst (scan env it w)) = JUndefined /\
   JS.get "error" (fst (scan env it w)) = JUndefined).
Proof.
  split; intros Hv.
  - destruct (scan_courses env it w)
      as [(Hf & _)|[(_ & _ & Hs)|(_ & _ & _ & msg & Hs)]];
      [congruence | |]; rewrite Hs; cbn [fst snd calls].
    + exists (calls w), (cmd it). split; [reflexivity|]. cbv zeta.
      replace (mkWorld (calls w) (history w)) with w by now destruct w.
      set (reply := exec env w (cmd it) (exec_timeout it)).
      destruct (settle_fields it (cmd it) reply)
        as (_ & Hc & He & _ & _ & _ & Hok & Hko).
      split; [exact Hc|]. split; [exact He|]. split.
      * intros Hf. rewrite (Hok Hf). repeat split.
      * intros Hf. destruct (Hko Hf) as (d & _ & ->). repeat split.
    + exists (calls w ++ [(cmd it, exec_timeout it)])%list, (resilientCmd it).
      split; [reflexivity|]. cbv zeta.
      set (reply := exec env _ (resilientCmd it) (exec_timeout it)).
      destruct (settle_fields it (resilientCmd it) reply)
        as (Ho & Hc & He & _ & _ & _ & Hok & Hko).
      destruct (payload (settle it (resilientCmd it) reply)) as [| | | | | |ps] eqn:Ep;
        try discriminate.
      cbn [JS.set JS.get] in *.
      rewrite !lookup_assign_other by discriminate.
      split; [exact Hc|]. split; [exact He|]. split.
      * intros Hf. rewrite (Hok Hf) in Ep. cbn [payload] in Ep.
        inversion Ep. repeat split.
      * intros Hf. destruct (Hko Hf) as (d & _ & E). rewrite E in Ep.
        cbn [payload] in Ep. inversion Ep. repeat split.
  - rewrite (scan_refused env it w Hv). cbn [fst snd calls].
    split; [reflexivity|]. split; [|split; reflexivity].
    rewrite spawned_app. unfold spawned at 2. cbn [List.filter snd].
    rewrite Hv. apply app_nil_r.
Qed.

(** X9: when [exec] accepts the timeout, the outcome has one of four key
    lists: the six fields of a success or the six of a failure, followed
    by [resiliency] exactly when the process runner was invoked twice;
    every invocation spawned a process.  When [exec] refuses the
    timeout, the only key of the outcome is [code]; the process runner
    was invoked once and spawned nothing. *)
Theorem outcome_shape env it w :
  let final := fst (scan env it w) in
  let called := List.skipn (List.length (calls w)) (calls (snd (scan env it w))) in
  JS.truthy (JS.get "resiliency" final) = (attempts env it w =? 2)%nat /\
  (1 <= attempts env it w <= 2)%nat /\
  List.length called = attempts env it w /\
  (Node.validateTimeout (exec_timeout it) = true ->
   spawned called = called /\
   exists failure : bool,
     JS.get "error" final = JBool failure /\
     keys final =
       ((if failure
         then ["error"; "message"; "details"; "cmd"; "stdout"; "stderr"]
         else ["error"; "target"; "cmd"; "output"; "format"; "flags"]) ++
        (if (attempts env it w =? 2)%nat then ["resiliency"] else []))%list) /\
  (Node.validateTimeout (exec_timeout it) = false ->
   spawned called = [] /\
   keys final = ["code"] /\
   attempts env it w = 1).
Proof.
  cbv zeta. split; [apply resiliency_after_second|].
  assert (Hskip : forall (l l' : list (string * spec_float)),
            List.skipn (List.length l) (l ++ l') = l').
  { intros l l'. induction l as [|x l IH]; [reflexivity | exact IH]. }
  destruct (scan_courses env it w)
    as [(Hv & Ha & Hs)|[(Hv & Ha & Hs)|(Hv & Ha & _ & msg & Hs)]];
    rewrite Hs, Ha, Hv; cbn [fst snd calls Nat.eqb];
    rewrite <- ?app_assoc, Hskip;
    (split; [lia|]); (split; [reflexivity|]);
    (split; [|intros Hf; try discriminate Hf]); try discriminate.
  - unfold spawned. cbn [List.filter snd]. rewrite Hv. repeat split.
  - intros _. split; [unfold spawned; cbn [List.filter snd]; now rewrite Hv|].
    set (reply := exec env w (cmd it) (exec_timeout it)).
    destruct (settle_fields it (cmd it) reply)
      as (_ & _ & He & _ & _ & Hk & _).
    exists (failed reply). rewrite He, Hk, app_nil_r. split; reflexivity.
  - intros _.
    split; [unfold spawned; cbn [List.filter snd List.app]; now rewrite Hv|].
    set (reply := exec env _ (resilientCmd it) (exec_timeout it)).
    destruct (settle_fields it (resilientCmd it) reply)
      as (Ho & _ & He & Hr & _ & Hk & _).
    exists (failed reply).
    destruct (payload (settle it (resilientCmd it) reply)) as [| | | | | |ps];
      try discriminate.
    cbn [JS.set JS.get] in *. unfold keys in *. cbn [JS.own_props] in *.
    rewrite lookup_assign_other by discriminate.
    split; [exact He|].
    rewrite keys_assign_fresh.
    + now rewrite Hk.
    + rewrite Hk. destruct (failed reply); cbn;
        intros H; repeat (destruct H as [H|H]; [discriminate|]); exact H.
Qed.

(** ** More on the classification of failures *)

(** X10: a failure is classified on its standard error text, and on the
    message of the error only when the standard error is empty; the
    standard output is never read. *)
Theorem classification_reads_stderr_first it c message stdout stderr :
  downMsg (payload (settle it c (mkReply (Some message) stdout stderr))) =
  unreachable_text (if stderr =? "" then message else stderr).
Proof.
  unfold settle, downMsg. cbn [exec_error exec_stderr payload JS.get JS.lookup].
  cbn [String.eqb Ascii.eqb Bool.eqb]. unfold JS.or_else. cbn [JS.truthy].
  destruct stderr as [|a s]; cbn [String.eqb negb].
  - destruct message; reflexivity.
  - reflexivity.
Qed.

Lemma prefix_inv n d : String.prefix n d = true -> exists y, d = n ++ y.
Proof.
  revert d. induction n as [|c n IH]; intros d H.
  - exists d. reflexivity.
  - destruct d as [|c' d]; cbn [String.prefix] in H; [discriminate|].
    destruct (ascii_dec c c') as [->|]; [|discriminate].
    destruct (IH d H) as (y & ->). exists y. reflexivity.
Qed.

Lemma includes_inv d n :
  JSString.includes d n = true -> exists x y, d = x ++ n ++ y.
Proof.
  induction d as [|c d IH]; cbn [JSString.includes]; intros H.
  - rewrite orb_false_r in H. apply prefix_inv in H. destruct H as (y & H).
    exists "", y. exact H.
  - apply orb_true_iff in H. destruct H as [H|H].
    + apply prefix_inv in H. destruct H as (y & H). exists "", y. exact H.
    + destruct (IH H) as (x & y & ->). exists (String c x), y. reflexivity.
Qed.

Lemma includes_extend a d b n :
  JSString.includes d n = true -> JSString.includes (a ++ d ++ b) n = true.
Proof.
  intros H. destruct (includes_inv _ _ H) as (x & y & ->).
  replace (a ++ (x ++ n ++ y) ++ b) with ((a ++ x) ++ n ++ (y ++ b))
    by now rewrite !append_assoc.
  apply includes_append.
Qed.

Lemma imatch_here_extend pat s b :
  JSString.imatch_here pat s = true -> JSString.imatch_here pat (s ++ b) = true.
Proof.
  revert s. induction pat as [|p pat IH]; intros s; [reflexivity|].
  destruct s as [|c s]; cbn [JSString.imatch_here append]; [discriminate|].
  intros H. apply andb_prop in H. destruct H as [H1 H2].
  now rewrite H1, IH.
Qed.

Lemma dotstar_then_extend pat s b :
  JSString.dotstar_then pat s = true -> JSString.dotstar_then pat (s ++ b) = true.
Proof.
  induction s as [|c s IH]; cbn [JSString.dotstar_then append]; intros H.
  - rewrite orb_false_r in H.
    apply (imatch_here_extend pat "" b) in H. cbn [append] in H.
    destruct b; cbn [JSString.dotstar_then]; now rewrite H.
  - apply orb_true_iff in H. destruct H as [H|H].
    + apply (imatch_here_extend pat (String c s) b) in H.
      cbn [append] in H. now rewrite H.
    + apply andb_prop in H. destruct H as [H1 H2].
      rewrite H1, IH by assumption. apply orb_true_r.
Qed.

Lemma drop_extend s b :
  JSString.imatch_here "host" s = true ->
  JSString.drop 4 (s ++ b) = JSString.drop 4 s ++ b.
Proof.
  destruct s as [|c1 [|c2 [|c3 [|c4 s]]]]; cbn [JSString.imatch_here];
    rewrite ?andb_false_r; try discriminate.
  reflexivity.
Qed.

Lemma match_host_down_right s b :
  JSString.match_host_down s = true -> JSString.match_host_down (s ++ b) = true.
Proof.
  induction s as [|c s IH]; cbn [JSString.match_host_down]; intros H.
  - discriminate.
  - apply orb_true_iff in H. destruct H as [H|H].
    + apply andb_prop in H. destruct H as [H1 H2].
      change (String c s ++ b) with (String c (s ++ b)).
      cbn [JSString.match_host_down].
      change (String c (s ++ b)) with (String c s ++ b).
      rewrite (imatch_here_extend _ _ b H1), (drop_extend _ b H1).
      now rewrite (dotstar_then_extend _ _ b H2).
    + change (String c s ++ b) with (String c (s ++ b)).
      cbn [JSString.match_host_down]. rewrite (IH H). apply orb_true_r.
Qed.

Lemma match_host_down_left a s :
  JSString.match_host_down s = true -> JSString.match_host_down (a ++ s) = true.
Proof.
  intros H. induction a as [|c a IH]; [exact H|].
  cbn [append JSString.match_host_down]. rewrite IH. apply orb_true_r.
Qed.

(** X11: the classification only looks for the patterns somewhere in
    the text: a detail text classified as host-unreachable stays so
    whatever is written before and after it. *)
Theorem classification_survives_context before details after :
  unreachable_text details = true ->
  unreachable_text (before ++ details ++ after) = true.
Proof.
  unfold unreachable_text. intros H.
  apply orb_true_iff in H. destruct H as [H|H].
  - apply orb_true_iff in H. destruct H as [H|H].
    + now rewrite (includes_extend before details after _ H).
    + rewrite (includes_extend before details after _ H).
      now rewrite orb_true_r.
  - rewrite (match_host_down_left before _ (match_host_down_right _ after H)).
    apply orb_true_r.
Qed.

(** ** More on the emitted result *)

(** Both ways a loop iteration can end. *)
Lemma process_item_outcome env it w :
  let final := fst (scan env it w) in
  let w1 := snd (scan env it w) in
  let parsed := fst (summarize env it final) in
  let summary := snd (summarize env it final) in
  let data :=
    history_line (historyObj (toISOString env w1) it final summary) in
  calls (snd (process_item env it w)) = calls w1 /\
  ((fst (process_item env it w) =
      inr (JObj [("json", emit it final parsed summary)]) /\
    ((saveHistory it = true /\ appendFileSync env w1 data = None /\
      history (snd (process_item env it w)) = (history w ++ [data])%list) \/
     (saveHistory it = false /\
      history (snd (process_item env it w)) = history w))) \/
   (exists e,
      fst (process_item env it w) = inl e /\
      saveHistory it = true /\ appendFileSync env w1 data = Some e /\
      history (snd (process_item env it w)) = history w)).
Proof.
  cbv zeta. split; [apply process_item_calls|].
  unfold process_item. pose proof (scan_history env it w) as Hh.
  destruct (scan env it w) as [final w1]. cbn [fst snd] in *.
  destruct (summarize env it final) as [parsed summary]. cbn [fst snd].
  unfold save. destruct (saveHistory it).
  - destruct (appendFileSync env w1 _) as [e|] eqn:Ea; cbn [fst snd history].
    + right. exists e. now repeat split.
    + left. split; [reflexivity|]. left. rewrite Hh. now repeat split.
  - left. split; [reflexivity|]. right. now split.
Qed.

Lemma summarize_skipped env it scanResult :
  smartResult it = false \/ outputFormat it <> "xml" ->
  summarize env it scanResult = (JNull, JNull).
Proof.
  intros H. unfold summarize. destruct H as [->|H]; [reflexivity|].
  apply String.eqb_neq in H. rewrite H.
  now rewrite andb_false_r.
Qed.

Lemma scan_with_parser env parser it w :
  scan (with_parser env parser) it w = scan env it w.
Proof. reflexivity. Qed.

Lemma emit_nothing it final :
  is_object final = true -> emit it final JNull JNull = final.
Proof.
  intros H. destruct final; try discriminate. unfold emit.
  cbn [JS.truthy]. now rewrite !andb_false_r.
Qed.

(** X12: when smart results are off, or the format is not "xml", the
    XML parser is never consulted: with any other parser the item gives
    the same result and the same history line, and the emitted [json] is
    the outcome of the scan itself, without [parsed] or [summary]. *)
Theorem no_parsing_without_smart_xml env parser it w :
  smartResult it = false \/ outputFormat it <> "xml" ->
  process_item (with_parser env parser) it w = process_item env it w /\
  forall out w',
    process_item env it w = (inr out, w') ->
    JS.get "json" out = fst (scan env it w).
Proof.
  intros H. split.
  - unfold process_item. rewrite scan_with_parser.
    destruct (scan env it w) as [final w1].
    now rewrite !summarize_skipped by assumption.
  - intros out w' Hout.
    destruct (process_item_emitted _ _ _ _ _ Hout) as (-> & _).
    rewrite summarize_skipped by assumption. cbn [fst snd JS.get JS.lookup].
    cbn [String.eqb Ascii.eqb Bool.eqb].
    apply emit_nothing, scan_object.
Qed.

Lemma scan_no_parsed env it w :
  JS.get "parsed" (fst (scan env it w)) = JUndefined.
Proof.
  destruct (scan_courses env it w)
    as [(_ & _ & Hs)|[(_ & _ & Hs)|(_ & _ & _ & msg & Hs)]];
    rewrite Hs; cbn [fst].
  - reflexivity.
  - apply settle_fields.
  - set (reply := exec env _ (resilientCmd it) (exec_timeout it)).
    destruct (settle_fields it (resilientCmd it) reply)
      as (Ho & _ & _ & _ & Hp & _).
    destruct (payload (settle it (resilientCmd it) reply)); try discriminate.
    cbn [JS.set JS.get] in *. now rewrite lookup_assign_other by discriminate.
Qed.

Lemma get_parsed_emit it final parsed summary :
  is_object final = true ->
  JS.get "parsed" final = JUndefined ->
  JS.get "parsed" (emit it final parsed summary) =
  if smartResult it && JS.truthy parsed then parsed else JUndefined.
Proof.
  intros Ho Hp. destruct final; try discriminate.
  unfold emit. cbn [JS.own_props JS.get] in *.
  destruct (smartResult it && JS.truthy summary);
    rewrite ?lookup_assign_other by discriminate;
    (destruct (smartResult it && JS.truthy parsed);
     [apply lookup_assign_same | exact Hp]).
Qed.

(** X13: a result that carries the [parsed] document also carries a
    [summary] (a summary or an error marker), and its document is what
    the XML parser returned for the outcome's [output]. *)
Theorem parsed_comes_with_summary env it w out w' :
  process_item env it w = (inr out, w') ->
  JS.get "parsed" (JS.get "json" out) <> JUndefined ->
  JS.get "summary" (JS.get "json" out) =
    makeSummary (JS.get "parsed" (JS.get "json" out)) /\
  JS.get "summary" (JS.get "json" out) <> JUndefined /\
  exists output,
    JS.get "output" (JS.get "json" out) = JStr output /\
    parseStringPromise env output = inr (JS.get "parsed" (JS.get "json" out)).
Proof.
  intros Hout.
  destruct (process_item_emitted _ _ _ _ _ Hout) as (-> & _).
  cbn [JS.get JS.lookup String.eqb Ascii.eqb Bool.eqb].
  rewrite get_parsed_emit by (apply scan_object || apply scan_no_parsed).
  rewrite get_summary_emit by (apply scan_object || apply scan_final).
  rewrite get_emit by (apply scan_object || discriminate).
  unfold summarize.
  destruct (smartResult it) eqn:Es; cbn [andb]; [|intros H; now elim H].
  destruct (negb (JS.truthy (JS.get "error" (fst (scan env it w)))) &&
            (outputFormat it =? "xml") &&
            JS.typeof_string (JS.get "output" (fst (scan env it w))));
    [|intros H; now elim H].
  destruct (JS.get "output" (fst (scan env it w))) as [| | | |output| |];
    try (intros H; now elim H).
  destruct (parseStringPromise env output) as [e|parsed] eqn:Ep; cbn [fst snd];
    [intros H; now elim H|].
  destruct (JS.truthy parsed) eqn:Et; [|intros H; now elim H].
  intros _.
  assert (Hs : JS.truthy (makeSummary parsed) = true).
  { unfold makeSummary. destruct (makeSummary_try parsed) as [e|s] eqn:E;
      [reflexivity|].
    apply makeSummary_try_shape in E. now destruct s. }
  rewrite Hs. split; [reflexivity|]. split.
  - intros H. rewrite H in Hs. discriminate.
  - exists output. split; [reflexivity | exact Ep].
Qed.

(** The [cmd] of the outcome, unless the outcome is the exception of
    [exec]. *)
Lemma scan_cmd_field env it w :
  (Node.validateTimeout (exec_timeout it) = true /\
   (JS.get "cmd" (fst (scan env it w)) = JStr (cmd it) \/
    JS.get "cmd" (fst (scan env it w)) = JStr (resilientCmd it))) \/
  (Node.validateTimeout (exec_timeout it) = false /\
   fst (scan env it w) = Node.ERR_OUT_OF_RANGE).
Proof.
  destruct (scan_courses env it w)
    as [(Hv & _ & Hs)|[(Hv & _ & Hs)|(Hv & _ & _ & msg & Hs)]];
    rewrite Hs; cbn [fst].
  - right. now split.
  - left. split; [exact Hv|]. left. apply settle_fields.
  - left. split; [exact Hv|]. right.
    set (reply := exec env _ (resilientCmd it) (exec_timeout it)).
    destruct (settle_fields it (resilientCmd it) reply) as (Ho & Hc & _).
    destruct (payload (settle it (resilientCmd it) reply)); try discriminate.
    cbn [JS.set JS.get] in *. now rewrite lookup_assign_other by discriminate.
Qed.

Lemma format_flag_in_commands it :
  outputFormat it = "xml" ->
  JSString.includes (cmd it) "-oX -" = true /\
  JSString.includes (resilientCmd it) "-oX -" = true.
Proof.
  intros Hf. unfold cmd, resilientCmd, resilientFlags, command_line, format_flag.
  rewrite Hf. cbn [String.eqb Ascii.eqb Bool.eqb]. split.
  - replace (quote ++ nmapPath it ++ quote ++ " " ++ derive_flags it ++ " " ++
             "-oX -" ++ " " ++ quote ++ target it ++ quote)
      with ((quote ++ nmapPath it ++ quote ++ " " ++ derive_flags it ++ " ") ++
            "-oX -" ++ (" " ++ quote ++ target it ++ quote))
      by (rewrite !append_assoc; reflexivity).
    apply includes_append.
  - replace (quote ++ nmapPath it ++ quote ++ " " ++
             (derive_flags it ++ " -Pn") ++ " " ++
             "-oX -" ++ " " ++ quote ++ target it ++ quote)
      with ((quote ++ nmapPath it ++ quote ++ " " ++
             (derive_flags it ++ " -Pn") ++ " ") ++
            "-oX -" ++ (" " ++ quote ++ target it ++ quote))
      by (rewrite !append_assoc; reflexivity).
    apply includes_append.
Qed.

(** X14: a result carries a [summary] field only if the command that
    produced it asked nmap for XML on its standard output: its [cmd]
    contains "-oX -". *)
Theorem summary_only_from_xml_command env it w out w' :
  process_item env it w = (inr out, w') ->
  JS.get "summary" (JS.get "json" out) <> JUndefined ->
  exists c,
    JS.get "cmd" (JS.get "json" out) = JStr c /\
    JSString.includes c "-oX -" = true.
Proof.
  intros Hout Hsum.
  destruct (process_item_emitted _ _ _ _ _ Hout) as (-> & _).
  cbn [JS.get JS.lookup String.eqb Ascii.eqb Bool.eqb] in *.
  rewrite get_emit by (apply scan_object || discriminate).
  assert (Hxml : outputFormat it = "xml").
  { destruct (emitted_summary env it w) as [(E & _)|(o & _ & Hf & _)];
      [|exact Hf].
    cbv zeta in E. rewrite E in Hsum. now elim Hsum. }
  assert (Herr : JS.get "error" (fst (scan env it w)) = JBool false).
  { destruct (emitted_summary env it w) as [(E & _)|(o & He & _)];
      [|exact He].
    cbv zeta in E. rewrite E in Hsum. now elim Hsum. }
  destruct (format_flag_in_commands it Hxml) as (H1 & H2).
  destruct (scan_cmd_field env it w) as [(_ & [Hc|Hc])|(_ & Hc)].
  - exists (cmd it). now split.
  - exists (resilientCmd it). now split.
  - rewrite Hc in Herr. discriminate.
Qed.

(** ** More on the history record *)

Lemma scan_resiliency env it w :
  JS.get "resiliency" (fst (scan env it w)) = JUndefined \/
  JS.truthy (JS.get "resiliency" (fst (scan env it w))) = true.
Proof.
  destruct (scan_courses env it w)
    as [(_ & _ & Hs)|[(_ & _ & Hs)|(_ & _ & _ & msg & Hs)]];
    rewrite Hs; cbn [fst].
  - now left.
  - left. apply settle_fields.
  - right. set (reply := exec env _ (resilientCmd it) (exec_timeout it)).
    destruct (settle_fields it (resilientCmd it) reply) as (Ho & _).
    destruct (payload (settle it (resilientCmd it) reply)); try discriminate.
    cbn [JS.set JS.get]. now rewrite lookup_assign_same.
Qed.

(** X15: the history record always has [timestamp], [target], [flags],
    [format] and [summary] ([null] when there is none); it has [error]
    exactly when the [error] of the outcome is [true], that is when a
    process was spawned and failed, and [error] then holds the whole
    outcome; its [resiliency] is the outcome's own, so a record has one
    exactly when the process runner was invoked twice.  When [exec]
    refuses the timeout the record has the first five fields only, with
    a [null] summary: the history shows nothing of the exception. *)
Theorem history_record_fields env it w ts :
  let final := fst (scan env it w) in
  let summary := snd (summarize env it final) in
  let record := historyObj ts it final summary in
  JS.get "summary" record = summary /\
  summary <> JUndefined /\
  (JS.get "error" record <> JUndefined <-> JS.get "error" final = JBool true) /\
  (JS.get "error" final = JBool true -> JS.get "error" record = final) /\
  JS.get "resiliency" record = JS.get "resiliency" final /\
  JS.truthy (JS.get "resiliency" record) = (attempts env it w =? 2)%nat /\
  (exists more,
     keys record =
       (["timestamp"; "target"; "flags"; "format"; "summary"] ++ more)%list) /\
  (Node.validateTimeout (exec_timeout it) = false ->
   record = JObj [("timestamp", JStr ts);
                  ("target", JStr (target it));
                  ("flags", JStr (derive_flags it));
                  ("format", JStr (outputFormat it));
                  ("summary", JNull)]).
Proof.
  cbv zeta. split; [now rewrite get_historyObj by discriminate|].
  split.
  { unfold summarize. destruct (_ && _); [|discriminate].
    destruct (JS.get "output" _); try discriminate.
    destruct (parseStringPromise env s) as [e|parsed]; cbn [snd];
      [discriminate|].
    unfold makeSummary. destruct (makeSummary_try parsed) as [e|x] eqn:E;
      [discriminate|].
    apply makeSummary_try_shape in E. now destruct x. }
  pose proof (resiliency_after_second env it w) as Hr.
  pose proof (scan_resiliency env it w) as Hnote.
  pose proof (scan_object env it w) as Hobj.
  pose proof (scan_final env it w) as (_ & Hfinal). cbv zeta in Hfinal.
  assert (Hrefused : Node.validateTimeout (exec_timeout it) = false ->
                     fst (scan env it w) = Node.ERR_OUT_OF_RANGE).
  { intros Hv. now rewrite (scan_refused env it w Hv). }
  set (final := fst (scan env it w)) in *.
  set (summary := snd (summarize env it final)).
  assert (Herr : JS.get "error" (historyObj ts it final summary) =
                 if JS.truthy (JS.get "error" final) then final else JUndefined).
  { unfold historyObj. cbn [JS.get].
    destruct (JS.truthy (JS.get "resiliency" final));
      rewrite ?lookup_assign_other by discriminate;
      (destruct (JS.truthy (JS.get "error" final));
       [apply lookup_assign_same | reflexivity]). }
  assert (Hres : JS.get "resiliency" (historyObj ts it final summary) =
                 JS.get "resiliency" final).
  { unfold historyObj. cbn [JS.get].
    destruct (JS.truthy (JS.get "resiliency" final)) eqn:Er.
    - apply lookup_assign_same.
    - destruct Hnote as [Hnote|Hnote]; [|congruence]. rewrite Hnote.
      destruct (JS.truthy (JS.get "error" final));
        rewrite ?lookup_assign_other by discriminate; reflexivity. }
  split.
  { rewrite Herr.
    destruct Hfinal as [(He & _)|[(He & _)|(He & _)]]; rewrite He;
      cbn [JS.truthy]; split; intros H; try discriminate;
      try (now elim H); try reflexivity.
    intros E. rewrite E in Hobj. discriminate. }
  split; [intros He; rewrite Herr, He; reflexivity|].
  split; [exact Hres|]. split; [now rewrite Hres|]. split.
  - unfold historyObj, keys. cbn [JS.own_props].
    destruct (JS.truthy (JS.get "error" final));
      destruct (JS.truthy (JS.get "resiliency" final));
      cbn [JS.assign String.eqb Ascii.eqb Bool.eqb List.map fst];
      eexists; reflexivity.
  - intros Hv. unfold summary. rewrite (Hrefused Hv).
    destruct (emit_refused env it) as (-> & _). reflexivity.
Qed.

(** ** More on batches *)

Lemma process_item_result_of env it w out w' :
  process_item env it w = (inr out, w') -> result_of it out.
Proof.
  intros H. destruct (process_item_emitted _ _ _ _ _ H) as (-> & _).
  split; [reflexivity|].
  cbn [JS.get JS.lookup String.eqb Ascii.eqb Bool.eqb].
  destruct (scan_cmd_field env it w) as [(-> & Hc)|(-> & ->)].
  - rewrite get_emit by (apply scan_object || discriminate). exact Hc.
  - destruct (emit_refused env it) as (-> & He). exact He.
Qed.

Lemma execute_from_writable env items :
  (forall w' data, appendFileSync env w' data = None) ->
  forall outputs w,
  exists news,
    fst (execute_from env items outputs w) = inr (outputs ++ news)%list /\
    Forall2 result_of items news /\
    List.length (history (snd (execute_from env items outputs w))) =
      (List.length (history w) + List.length (List.filter saveHistory items))%nat.
Proof.
  intros Hfs. induction items as [|it rest IH]; intros outputs w.
  - exists []. cbn. rewrite app_nil_r. repeat split; [constructor | lia].
  - cbn [execute_from].
    destruct (process_item_outcome env it w) as (_ & [(Hr & Hh)|(e & _ & _ & Ha & _)]);
      [|rewrite Hfs in Ha; discriminate].
    destruct (process_item env it w) as [[e|out] w1] eqn:Ep; cbn [fst snd] in *;
      [discriminate|].
    destruct (IH (outputs ++ [out])%list w1) as (news & E & HF & HL).
    exists (out :: news). rewrite E, <- app_assoc. split; [reflexivity|].
    split.
    + constructor; [|exact HF]. now apply process_item_result_of with env w w1.
    + rewrite HL. cbn [filter].
      destruct Hh as [(-> & _ & ->)|(-> & ->)]; rewrite ?length_app; cbn; lia.
Qed.

(** X16: while the history file can be written, a batch returns one
    result per item, in the order of the items, and the history grows by
    one chunk per item that asked for it.  Each result is a [json]
    object: when [exec] accepts the item's timeout its [cmd] is the
    item's command or its retry command, and when [exec] refuses it the
    object is the exception, [{code: "ERR_OUT_OF_RANGE"}]. *)
Theorem batch_results_in_order env items w :
  (forall w' data, appendFileSync env w' data = None) ->
  exists outs,
    fst (execute env items w) = inr [outs] /\
    Forall2 result_of items outs /\
    List.length (history (snd (execute env items w))) =
      (List.length (history w) + List.length (List.filter saveHistory items))%nat.
Proof.
  intros Hfs. unfold execute.
  destruct (execute_from_writable env items Hfs [] w) as (outs & E & HF & HL).
  destruct (execute_from env items [] w) as [[e|o] w1]; cbn [fst snd] in *;
    [discriminate|].
  inversion E. subst. exists outs. repeat split; assumption.
Qed.

Lemma execute_from_unsaved env items :
  forallb (fun it => negb (saveHistory it)) items = true ->
  forall outputs w,
  exists news,
    fst (execute_from env items outputs w) = inr (outputs ++ news)%list /\
    List.length news = List.length items /\
    history (snd (execute_from env items outputs w)) = history w.
Proof.
  induction items as [|it rest IH]; intros Hall outputs w.
  - exists []. cbn. rewrite app_nil_r. repeat split.
  - cbn [forallb] in Hall. apply andb_prop in Hall. destruct Hall as [Hit Hrest].
    apply negb_true_iff in Hit. cbn [execute_from].
    destruct (process_item_outcome env it w)
      as (_ & [(Hr & Hh)|(e & _ & Hs & _)]); [|congruence].
    destruct (process_item env it w) as [[e|out] w1] eqn:Ep; cbn [fst snd] in *;
      [discriminate|].
    destruct Hh as [(Hs & _)|(_ & Hh)]; [congruence|].
    destruct (IH Hrest (outputs ++ [out])%list w1) as (news & E & HL & HH).
    exists (out :: news). rewrite E, <- app_assoc, HH, Hh. cbn. now rewrite HL.
Qed.

(** X17: a batch in which no item asks for the history never raises,
    whatever the file system does: it returns one result per item and
    leaves the history untouched. *)
Theorem batch_without_history env items w :
  forallb (fun it => negb (saveHistory it)) items = true ->
  exists outs,
    fst (execute env items w) = inr [outs] /\
    List.length outs = List.length items /\
    history (snd (execute env items w)) = history w.
Proof.
  intros Hall. unfold execute.
  destruct (execute_from_unsaved env items Hall [] w) as (outs & E & HL & HH).
  destruct (execute_from env items [] w) as [[e|o] w1]; cbn [fst snd] in *;
    [discriminate|].
  inversion E. subst. exists outs. repeat split; assumption.
Qed.

Lemma history_line_is_json_line ts it final summary :
  unique_keys final = true -> unique_keys summary = true ->
  json_line (history_line (historyObj ts it final summary)).
Proof.
  intros Hf Hs. pose proof (historyObj_unique ts it final summary Hf Hs) as Hu.
  destruct (historyObj ts it final summary) as [| | | | | |ps] eqn:E;
    try (unfold historyObj in E; discriminate).
  unfold history_line. cbn [JSON.stringify].
  exists (JSON.serialize (JObj ps)), (json_value (JObj ps)).
  split; [reflexivity|]. split; [apply single_line_serialize|]. split.
  - now apply parse_serialize.
  - now rewrite json_value_object.
Qed.

Lemma execute_from_trace env items :
  forall outputs w,
  exists called appended,
    calls (snd (execute_from env items outputs w)) = (calls w ++ called)%list /\
    history (snd (execute_from env items outputs w)) =
      (history w ++ appended)%list /\
    (List.length called <= 2 * List.length items)%nat /\
    (List.length appended <= List.length (List.filter saveHistory items))%nat /\
    ((forall s p, parseStringPromise env s = inr p -> unique_keys p = true) ->
     Forall json_line appended) /\
    (forall outs, fst (execute_from env items outputs w) = inr outs ->
       (List.length items <= List.length called)%nat /\
       List.length appended = List.length (List.filter saveHistory items)).
Proof.
  induction items as [|it rest IH]; intros outputs w.
  - exists [], []. cbn. rewrite !app_nil_r. repeat split; auto.
  - cbn [execute_from].
    destruct (process_item_outcome env it w) as (Hc & Hcase).
    assert (Hcalled : exists s1, calls (snd (process_item env it w)) =
                                (calls w ++ s1)%list /\
                                (1 <= List.length s1 <= 2)%nat).
    { rewrite Hc. destruct (scan_calls env it w) as [E|E]; rewrite E;
        eexists; (split; [reflexivity | cbn; lia]). }
    destruct Hcalled as (s1 & Hs1 & Hl1).
    assert (Hline : (forall s p, parseStringPromise env s = inr p ->
                                 unique_keys p = true) ->
                    json_line
                      (history_line
                         (historyObj (toISOString env (snd (scan env it w))) it
                            (fst (scan env it w))
                            (snd (summarize env it (fst (scan env it w))))))).
    { intros Hxml. apply history_line_is_json_line.
      - apply scan_plain.
      - now apply summarize_summary. }
    destruct (process_item env it w) as [[e|out] w1] eqn:Ep; cbn [fst snd] in *.
    + exists s1, []. rewrite app_nil_r.
      destruct Hcase as [(Hr & _)|(e' & _ & Hs & _ & Hh)]; [discriminate|].
      repeat split; auto; try (cbn; lia); intros; discriminate.
    + destruct (IH (outputs ++ [out])%list w1)
        as (called & appended & HC & HH & HL & HA & HJ & HO).
      destruct Hcase as [(_ & Hh)|(e' & Hr & _)]; [|discriminate].
      destruct Hh as [(Hs & _ & Hh)|(Hs & Hh)].
      * eexists (s1 ++ called)%list, (_ :: appended).
        rewrite HC, HH, Hs1, Hh, <- !app_assoc. cbn [app filter]. rewrite Hs.
        split; [reflexivity|]. split; [reflexivity|].
        rewrite length_app. cbn [List.length].
        split; [lia|]. split; [lia|]. split.
        -- intros Hxml. constructor; auto.
        -- intros outs Ho. destruct (HO outs Ho). lia.
      * exists (s1 ++ called)%list, appended.
        rewrite HC, HH, Hs1, Hh, <- !app_assoc. cbn [filter]. rewrite Hs.
        split; [reflexivity|]. split; [reflexivity|].
        rewrite length_app. cbn [List.length].
        split; [lia|]. split; [lia|]. split; [exact HJ|].
        intros outs Ho. destruct (HO outs Ho). lia.
Qed.

Lemma execute_world env items w :
  snd (execute env items w) = snd (execute_from env items [] w) /\
  (forall outs, fst (execute env items w) = inr outs ->
     exists o, fst (execute_from env items [] w) = inr o).
Proof.
  unfold execute. destruct (execute_from env items [] w) as [[e|o] w1];
    cbn [fst snd]; split; try reflexivity.
  - intros outs H. discriminate.
  - intros outs _. now exists o.
Qed.

(** X18: a batch only ever adds to the world: it invokes the process
    runner at most twice per item and appends at most one history chunk
    per item that asked for it, after everything that was there, whether
    it ends normally or with an exception; when it ends normally it
    invoked the process runner at least once per item and appended
    exactly one chunk per such item.  The processes spawned are the
    invocations with a timeout that [exec] accepts. *)
Theorem batch_only_appends env items w :
  exists called appended,
    calls (snd (execute env items w)) = (calls w ++ called)%list /\
    history (snd (execute env items w)) = (history w ++ appended)%list /\
    (List.length called <= 2 * List.length items)%nat /\
    (List.length appended <= List.length (List.filter saveHistory items))%nat /\
    spawned (calls (snd (execute env items w))) =
      (spawned (calls w) ++ spawned called)%list /\
    (List.length (spawned called) <= List.length called)%nat /\
    (forall outs, fst (execute env items w) = inr outs ->
       (List.length items <= List.length called)%nat /\
       List.length appended = List.length (List.filter saveHistory items)).
Proof.
  destruct (execute_world env items w) as (Hw & Hr). rewrite Hw.
  destruct (execute_from_trace env items [] w)
    as (called & appended & HC & HH & HL & HA & _ & HO).
  exists called, appended.
  split; [exact HC|]. split; [exact HH|]. split; [exact HL|].
  split; [exact HA|]. split; [rewrite HC; apply spawned_app|].
  split; [apply filter_length_le|].
  intros outs H. destruct (Hr outs H) as (o & Ho). now destruct (HO o Ho).
Qed.

(** X19: the history file stays newline-delimited JSON: if every chunk
    in it is one line holding a JSON object, the same is true after a
    batch, whether the batch ends normally or with an exception. *)
Theorem history_stays_ndjson env items w :
  (forall s p, parseStringPromise env s = inr p -> unique_keys p = true) ->
  Forall json_line (history w) ->
  Forall json_line (history (snd (execute env items w))).
Proof.
  intros Hxml Hw. destruct (execute_world env items w) as (E & _). rewrite E.
  destruct (execute_from_trace env items [] w)
    as (spawned & appended & _ & HH & _ & _ & HJ & _).
  rewrite HH. apply Forall_app. split; [exact Hw | now apply HJ].
Qed.

(** ** More on the retry *)

Lemma preset_flags_have_no_override it :
  scanMode it <> "custom" -> scanMode it <> "nse" -> alreadyPn it = false.
Proof.
  intros Hc Hn. unfold alreadyPn, derive_flags.
  apply String.eqb_neq in Hc, Hn. rewrite Hc, Hn.
  destruct (scanMode it =? "fast"); [reflexivity|].
  destruct (scanMode it =? "full"); [reflexivity|].
  destruct (scanMode it =? "version"); [reflexivity|].
  destruct (scanMode it =? "os"); reflexivity.
Qed.

(** X20: in every mode but custom flags and NSE scripts (the four
    presets, and any mode outside the table, which runs nmap without
    flags) the derived flags never hold "-Pn": a failure classified as
    host-unreachable is always retried, any other failure never. *)
Theorem presets_always_retry_unreachable env it w err w1 :
  scanMode it <> "custom" ->
  scanMode it <> "nse" ->
  runNmap env it (cmd it) w = (inl err, w1) ->
  attempts env it w = (if downMsg err then 2 else 1)%nat /\
  (JS.truthy (JS.get "resiliency" (fst (scan env it w))) = downMsg err).
Proof.
  intros Hc Hn H.
  pose proof (preset_flags_have_no_override it Hc Hn) as Hp.
  pose proof (attempts_rejected _ _ _ _ _ H) as Ha.
  rewrite Hp, andb_true_r in Ha. split; [exact Ha|].
  pose proof (resiliency_after_second env it w) as Hr. rewrite Hr, Ha. now destruct (downMsg err).
Qed.

(** X21: the emitted result has a [summary] field, a summary or an error
    marker, exactly when the scan succeeded, the format is "xml" and
    smart results are on; the output may even be empty. *)
Theorem summary_field_present_iff env it w out w' :
  process_item env it w = (inr out, w') ->
  (JS.get "summary" (JS.get "json" out) <> JUndefined <->
   JS.get "error" (fst (scan env it w)) = JBool false /\
   outputFormat it = "xml" /\
   smartResult it = true).
Proof.
  intros Hout.
  destruct (process_item_emitted _ _ _ _ _ Hout) as (-> & _).
  cbn [JS.get JS.lookup String.eqb Ascii.eqb Bool.eqb].
  destruct (emitted_summary env it w)
    as [(E & Hwhy)|(output & He & Hf & Hs & _ & Hcase)]; cbv zeta in *.
  - rewrite E. split; [intros H; now elim H|].
    intros (He & Hf & Hs). destruct Hwhy as [H|[H|H]]; congruence.
  - split; [intros _; now repeat split|]. intros _.
    destruct Hcase as [(e & _ & ->)|[(p & e & _ & _ & ->)|(p & s & _ & _ & -> & Hss)]];
      try discriminate.
    intros ->. discriminate.
Qed.

(** ** The properties above on concrete documents and batches *)

Lemma totalOpen_counts_openPorts_witness :
  exists entries,
    JS.get "openPorts" (makeSummary Scenario.document) = JArr entries /\
    JS.get "totalOpen" (makeSummary Scenario.document) =
      JNum (Z.of_nat (List.length entries)) /\
    JS.truthy (JS.get "status" (makeSummary Scenario.document)) = true /\
    JS.truthy (JS.get "address" (makeSummary Scenario.document)) = true.
Proof. apply totalOpen_counts_openPorts. reflexivity. Defined.

Lemma findings_belong_to_open_ports_witness :
  exists entry,
    In entry Fixture.entries /\
    JS.get "port" entry = JS.get "port" (hd JNull Fixture.findings).
Proof.
  apply (findings_belong_to_open_ports Scenario.document
           Fixture.entries Fixture.findings);
    [reflexivity | reflexivity | left; reflexivity].
Defined.

Lemma service_fields_default_to_empty_witness :
  (JS.truthy (JS.get "product" (hd JNull Fixture.entries)) = true \/
   JS.get "product" (hd JNull Fixture.entries) = JStr "") /\
  JS.nullish (JS.get "product" (hd JNull Fixture.entries)) = false.
Proof.
  apply (service_fields_default_to_empty Scenario.document Fixture.entries);
    [reflexivity | left; reflexivity | right; left; reflexivity].
Defined.

Lemma summary_of_several_hosts_witness :
  makeSummary Fixture.two_hosts =
  JObj [("address", JStr "unknown");
        ("status", JStr "unknown");
        ("openPorts", JArr []);
        ("totalOpen", JNum 0);
        ("vulns", JArr [])].
Proof.
  apply (summary_of_several_hosts Fixture.two_hosts
           (JArr [Scenario.host; Scenario.portless_host]));
    reflexivity.
Defined.

Lemma summary_without_host_witness :
  exists e,
    makeSummary Scenario.down_document = error_marker e /\
    err_name e = "TypeError" /\
    is_error_marker (makeSummary Scenario.down_document) = true /\
    JS.get "openPorts" (makeSummary Scenario.down_document) = JUndefined.
Proof. apply summary_without_host. reflexivity. Defined.

Lemma openPorts_of_port_list_witness :
  exists entries,
    JS.get "openPorts"
      (makeSummary (Fixture.document_with (JArr Fixture.three_ports))) =
      JArr entries /\
    List.map (JS.get "port") entries =
      List.map portid_of (List.filter open_state Fixture.three_ports) /\
    JS.get "totalOpen"
      (makeSummary (Fixture.document_with (JArr Fixture.three_ports))) =
      JNum (Z.of_nat (List.length (List.filter open_state Fixture.three_ports))).
Proof.
  apply (openPorts_of_port_list
           (Fixture.document_with (JArr Fixture.three_ports))
           (Fixture.host_with (JArr Fixture.three_ports)));
    reflexivity.
Defined.

Lemma port_without_state_witness :
  (JS.get "openPorts"
     (makeSummary (Fixture.document_with Fixture.stateless_port)) = JArr [] /\
   JS.get "totalOpen"
     (makeSummary (Fixture.document_with Fixture.stateless_port)) = JNum 0) /\
  is_error_marker
    (makeSummary
       (Fixture.document_with
          (JArr [Fixture.port_with "22" "open"; Fixture.stateless_port]))) = true.
Proof.
  split.
  - apply (proj1 (port_without_state
                    (Fixture.document_with Fixture.stateless_port)
                    (Fixture.host_with Fixture.stateless_port)
                    Fixture.stateless_port eq_refl eq_refl eq_refl));
      reflexivity.
  - apply (proj2 (port_without_state
                    (Fixture.document_with
                       (JArr [Fixture.port_with "22" "open"; Fixture.stateless_port]))
                    (Fixture.host_with
                       (JArr [Fixture.port_with "22" "open"; Fixture.stateless_port]))
                    (JArr [Fixture.port_with "22" "open"; Fixture.stateless_port])
                    eq_refl eq_refl eq_refl)
             [Fixture.port_with "22" "open"; Fixture.stateless_port]
             Fixture.stateless_port);
      [reflexivity | right; left; reflexivity | reflexivity | reflexivity].
Defined.

Lemma classification_survives_context_witness :
  unreachable_text
    ("Starting Nmap 7.94. " ++ "Note: Host seems down." ++ " Try -Pn.") = true.
Proof. apply classification_survives_context. reflexivity. Defined.

Lemma no_parsing_without_smart_xml_witness :
  process_item (with_parser Scenario.host_down Fixture.no_parser)
    Fixture.plain_xml Scenario.start =
  process_item Scenario.host_down Fixture.plain_xml Scenario.start /\
  forall out w',
    process_item Scenario.host_down Fixture.plain_xml Scenario.start =
      (inr out, w') ->
    JS.get "json" out =
      fst (scan Scenario.host_down Fixture.plain_xml Scenario.start).
Proof. apply no_parsing_without_smart_xml. left. reflexivity. Defined.

Lemma parsed_comes_with_summary_witness :
  let out :=
    Scenario.emitted Scenario.host_down Scenario.quick_xml Scenario.start in
  JS.get "parsed" out = Scenario.document /\
  JS.get "summary" out = makeSummary (JS.get "parsed" out) /\
  JS.get "summary" out <> JUndefined.
Proof.
  cbv zeta. split; [reflexivity|].
  destruct (parsed_comes_with_summary Scenario.host_down Scenario.quick_xml
              Scenario.start _ _ eq_refl) as (H1 & H2 & _).
  - vm_compute. discriminate.
  - split; [exact H1 | exact H2].
Defined.

Lemma summary_only_from_xml_command_witness :
  exists c,
    JS.get "cmd"
      (Scenario.emitted Scenario.host_down Scenario.quick_xml Scenario.start) =
      JStr c /\
    JSString.includes c "-oX -" = true.
Proof.
  apply (summary_only_from_xml_command Scenario.host_down Scenario.quick_xml
           Scenario.start _ _ eq_refl).
  vm_compute. discriminate.
Defined.

Lemma batch_results_in_order_witness :
  exists outs,
    fst (execute Scenario.host_down Fixture.batch Scenario.start) = inr [outs] /\
    Forall2 result_of Fixture.batch outs /\
    List.length
      (history (snd (execute Scenario.host_down Fixture.batch Scenario.start))) =
      (List.length (history Scenario.start) +
       List.length (List.filter saveHistory Fixture.batch))%nat.
Proof. apply batch_results_in_order. reflexivity. Defined.

Lemma batch_without_history_witness :
  exists outs,
    fst (execute Scenario.read_only [Scenario.quick_text; Scenario.quick_text]
           Scenario.start) = inr [outs] /\
    List.length outs = 2%nat /\
    history (snd (execute Scenario.read_only
                    [Scenario.quick_text; Scenario.quick_text] Scenario.start)) =
      history Scenario.start.
Proof. apply batch_without_history. reflexivity. Defined.

Lemma history_stays_ndjson_witness :
  Forall json_line
    (history (snd (execute Scenario.host_down Fixture.batch Scenario.start))).
Proof.
  apply history_stays_ndjson.
  - intros s p H. inversion H. reflexivity.
  - constructor.
Defined.

Lemma presets_always_retry_unreachable_witness :
  attempts Scenario.host_down Scenario.quick_xml Scenario.start =
    (if downMsg Scenario.first_failure then 2 else 1)%nat /\
  JS.truthy
    (JS.get "resiliency"
       (fst (scan Scenario.host_down Scenario.quick_xml Scenario.start))) =
    downMsg Scenario.first_failure.
Proof.
  apply (presets_always_retry_unreachable Scenario.host_down Scenario.quick_xml
           Scenario.start Scenario.first_failure Scenario.after_first);
    [discriminate | discriminate | reflexivity].
Defined.

Lemma summary_field_present_iff_witness :
  JS.get "summary"
    (Scenario.emitted Scenario.host_down Scenario.quick_xml Scenario.start) <>
    JUndefined <->
  JS.get "error"
    (fst (scan Scenario.host_down Scenario.quick_xml Scenario.start)) =
    JBool false /\
  outputFormat Scenario.quick_xml = "xml" /\
  smartResult Scenario.quick_xml = true.
Proof.
  apply (summary_field_present_iff Scenario.host_down Scenario.quick_xml
           Scenario.start _ _ eq_refl).
Defined.
